(** * The invisible-watermark engine of aigc_watermark

    A shallow embedding of [backend/app/services/invisible_watermark.py]
    (the engine the API imports), of the embedding loop and the blind text
    recovery of its sibling [backend/invisible_watermark_fixed.py], and of
    the locator function [get_file_url] of
    [backend/app/api/watermark_api.py].

    Conventions of the embedding.
    - A Python [dict] is a [gmap string value]; [value] is the universe of
      JSON-like Python values the engine stores in its dictionaries.
    - A numpy [uint8] matrix is a [list (list Z)] of rows, a float matrix a
      [list (list Q)]: floating point numbers are read as exact rationals.
    - Array indices are [Z] and go through numpy's index normalisation
      ([np_index]), so a negative index wraps and an index out of range
      raises, as in the source.
    - Exceptions are explicit: pure code returns [res], code with effects
      runs in the monad [M] over an explicit state, whose outcomes are
      falling through to the next statement, [return result], or a raised
      exception.
    - OpenCV, PyWavelets, json, uuid and the clock are parameters
      ([Lib], [World]); the file system is a finite map from paths to
      contents. *)

From Stdlib Require Import ZArith QArith Qround Qminmax Qabs String Ascii List Bool Lia Lqa.
From stdpp Require Import base option list gmap strings.

Set Warnings "-register-all,-clear-no-such-hyp".
#[local] Open Scope Z_scope.

(** ** Python values *)

Definition exn := string.

Inductive value : Type :=
  | VNone
  | VBool (b : bool)
  | VInt (z : Z)
  | VFloat (q : Q)
  | VStr (s : string)
  | VList (l : list value)
  | VDict (d : gmap string value).

(** [bool(v)]: Python truthiness. *)
Definition truthy (v : value) : bool :=
  match v with
  | VNone => false
  | VBool b => b
  | VInt z => negb (z =? 0)
  | VFloat q => negb (Qeq_bool q 0)
  | VStr s => negb (String.eqb s "")
  | VList l => match l with [] => false | _ :: _ => true end
  | VDict d => negb (bool_decide (d = ∅))
  end.

(** [v == "s"] for a string literal [s]. *)
Definition is_str (v : value) (s : string) : bool :=
  match v with VStr s' => String.eqb s' s | _ => false end.

(** The number a numeric value stands for. *)
Definition num_of (v : value) : option Q :=
  match v with
  | VInt z => Some (inject_Z z)
  | VFloat q => Some q
  | _ => None
  end.

(** ** Results and exceptions of pure code *)

Inductive res (A : Type) : Type :=
  | Ok (a : A)
  | Err (e : exn).
Arguments Ok {A} a.
Arguments Err {A} e.

#[global] Instance res_ret : MRet res := λ A a, Ok a.
#[global] Instance res_bind : MBind res :=
  λ A B f m, match m with Ok a => f a | Err e => Err e end.

Definition of_option {A} (o : option A) (e : exn) : res A :=
  match o with Some a => Ok a | None => Err e end.

(** [for i in range(n): s = body(i, s)], an exception leaving the loop. *)
Fixpoint for_range_from {S : Type} (start n : nat)
    (body : nat → S → res S) (s : S) : res S :=
  match n with
  | O => Ok s
  | Datatypes.S n' =>
      match body start s with
      | Ok s' => for_range_from (Datatypes.S start) n' body s'
      | Err e => Err e
      end
  end.

Definition for_range {S : Type} (n : nat) (body : nat → S → res S) (s : S) : res S :=
  for_range_from 0 n body s.

(** ** Python numbers *)

(** [int(q)]: truncation towards zero. *)
Definition py_int (q : Q) : Z := Z.quot (Qnum q) (Zpos (Qden q)).

(** [a < b] on floats, as a boolean. *)
Definition Qlt_bool (a b : Q) : bool := negb (Qle_bool b a).

(** [min(a, b)] and [max(a, b)]: the first argument wins a tie. *)
Definition py_min (a b : Q) : Q := if Qlt_bool b a then b else a.
Definition py_max (a b : Q) : Q := if Qlt_bool a b then b else a.

(** [a / b] on numbers. *)
Definition py_div (a b : Q) : res Q :=
  if Qeq_bool b 0 then Err "ZeroDivisionError" else Ok (a / b)%Q.

(** ** Python strings and paths *)

Fixpoint str_drop (n : nat) (s : string) : string :=
  match n, s with
  | O, _ => s
  | Datatypes.S n', String _ s' => str_drop n' s'
  | Datatypes.S _, EmptyString => EmptyString
  end.

(** [s.replace(old, new)] for a non-empty [old]: the occurrences of [old]
    are replaced from left to right, without overlap. [skip] counts the
    characters of a matched [old] still to be dropped. *)
Fixpoint replace_from (old new : string) (skip : nat) (s : string) : string :=
  match s with
  | EmptyString => EmptyString
  | String c s' =>
      match skip with
      | Datatypes.S k => replace_from old new k s'
      | O =>
          if String.prefix old s
          then new +:+ replace_from old new (String.length old - 1) s'
          else String c (replace_from old new 0 s')
      end
  end.

Definition str_replace (s old new : string) : string := replace_from old new 0 s.

(** [content.find(marker)]: the lowest index of [marker], or -1. *)
Fixpoint find_from (marker s : string) (i : Z) : Z :=
  if String.prefix marker s then i
  else match s with
       | EmptyString => -1
       | String _ s' => find_from marker s' (i + 1)
       end.

Definition bytes_find (content marker : string) : Z := find_from marker content 0.

Fixpoint str_last (s : string) : option ascii :=
  match s with
  | EmptyString => None
  | String c EmptyString => Some c
  | String _ s' => str_last s'
  end.

(** [os.path.join(a, b)] on a POSIX system. *)
Definition path_join (a b : string) : string :=
  if String.prefix "/" b then b
  else match str_last a with
       | None => b
       | Some c => if Ascii.eqb c "/" then a +:+ b else a +:+ "/" +:+ b
       end.

(** ** Arrays *)

(** numpy's index normalisation on an axis of length [n]. *)
Definition np_index (n : nat) (k : Z) : res nat :=
  if (0 <=? k) && (k <? Z.of_nat n) then Ok (Z.to_nat k)
  else if (- Z.of_nat n <=? k) && (k <? 0) then Ok (Z.to_nat (k + Z.of_nat n))
  else Err "IndexError".

Definition shape0 {A} (m : list (list A)) : nat := length m.
Definition shape1 {A} (m : list (list A)) : nat :=
  match m with [] => O | row :: _ => length row end.

(** [m[r, c]] *)
Definition mat_get {A} (m : list (list A)) (r c : Z) : res A :=
  r' ← np_index (shape0 m) r;
  c' ← np_index (shape1 m) c;
  of_option (m !! r' ≫= (.!! c')) "IndexError".

(** [m[r, c] = v] *)
Definition mat_set {A} (m : list (list A)) (r c : Z) (v : A) : res (list (list A)) :=
  r' ← np_index (shape0 m) r;
  c' ← np_index (shape1 m) c;
  match m !! r' with
  | Some row => Ok (<[r' := <[c' := v]> row]> m)
  | None => Err "IndexError"
  end.

(** [np.zeros((h, w), dtype=np.uint8)] *)
Definition np_zeros (h w : Z) : res (list (list Z)) :=
  if (h <? 0) || (w <? 0) then Err "ValueError"
  else Ok (replicate (Z.to_nat h) (replicate (Z.to_nat w) 0)).

(** The cell of a matrix at natural-number coordinates, for statements. *)
Definition cell {A} (m : list (list A)) (r c : nat) : option A :=
  m !! r ≫= (.!! c).

(** [m] has [h] rows of [w] cells each. *)
Definition rect {A} (h w : nat) (m : list (list A)) : Prop :=
  length m = h ∧ Forall (λ row, length row = w) m.

(** ** The engine's constants ([InvisibleWatermark.__init__]) *)

Definition self_wavelet : string := "haar".
Definition self_level : Z := 1.
Definition self_alpha : Z := 100.

(** ** Payload encoder: the text path of [_prepare_watermark_data] *)

(** A Python [str] given by its code points. *)
Definition text := list Z.

(** [ch.encode('utf-8')] on one code point; a surrogate cannot be encoded. *)
Definition utf8_encode_char (c : Z) : res (list Z) :=
  if (c <? 0) then Err "ValueError"
  else if c <? 0x80 then Ok [c]
  else if c <? 0x800 then
    Ok [Z.lor 0xC0 (Z.shiftr c 6); Z.lor 0x80 (Z.land c 0x3F)]
  else if (0xD800 <=? c) && (c <? 0xE000) then Err "UnicodeEncodeError"
  else if c <? 0x10000 then
    Ok [Z.lor 0xE0 (Z.shiftr c 12);
        Z.lor 0x80 (Z.land (Z.shiftr c 6) 0x3F);
        Z.lor 0x80 (Z.land c 0x3F)]
  else if c <? 0x110000 then
    Ok [Z.lor 0xF0 (Z.shiftr c 18);
        Z.lor 0x80 (Z.land (Z.shiftr c 12) 0x3F);
        Z.lor 0x80 (Z.land (Z.shiftr c 6) 0x3F);
        Z.lor 0x80 (Z.land c 0x3F)]
  else Err "ValueError".

(** [watermark_text.encode('utf-8')] *)
Fixpoint utf8_encode (t : text) : res (list Z) :=
  match t with
  | [] => Ok []
  | c :: t' =>
      bs ← utf8_encode_char c;
      rest ← utf8_encode t';
      Ok (bs ++ rest)
  end.

(** A [str] inside a [value] is kept as its UTF-8 bytes. *)
Definition string_of_bytes (bs : list Z) : string :=
  string_of_list_ascii (map (λ b, ascii_of_N (Z.to_N b)) bs).

(** Lines 131-145: the zero matrix and the diagonal fill. *)
Definition center_start (size text_len : Z) : Z :=
  if text_len <? size then (size - text_len) `div` 2 else 0.

Definition fill_diagonal (size : Z) (text_bytes : list Z) (watermark : list (list Z))
    : res (list (list Z)) :=
  let text_len := Z.of_nat (length text_bytes) in
  let center_start := center_start size text_len in
  for_range (Z.to_nat (Z.min text_len size)) (λ i watermark,
    let row := center_start + Z.of_nat i in
    if row <? size then
      b ← of_option (text_bytes !! i) "IndexError";
      mat_set watermark row row b
    else Ok watermark) watermark.

Definition text_matrix (watermark_text : text) (max_size : Z) : res (list (list Z)) :=
  text_bytes ← utf8_encode watermark_text;
  let size := Z.min max_size 32 in
  watermark ← np_zeros size size;
  fill_diagonal size text_bytes watermark.

(** ** Coefficient embedder: the loop of [embed_watermark] *)

(** Lines 237-243: the scale that makes the payload matrix fit the LL
    sub-band, and the shape it is resized to. *)
Definition fit_scale (wm_h wm_w ll_h ll_w : Z) : res Q :=
  ratio_h ← py_div (inject_Z ll_h) (inject_Z wm_h);
  let scale_h := py_min 1 ratio_h in
  ratio_w ← py_div (inject_Z ll_w) (inject_Z wm_w);
  let scale_w := py_min 1 ratio_w in
  Ok (py_min scale_h scale_w).

Definition scaled_side (wm_side : Z) (scale : Q) : Z :=
  Z.max 1 (py_int (inject_Z wm_side * scale)).

(** Lines 252-257: the centred window of the resized matrix. *)
Definition window_offset (ll_side resized_side : Z) : Z :=
  (ll_side - resized_side) `div` 2.

Definition window_end (ll_side offset resized_side : Z) : Z :=
  Z.min ll_side (offset + resized_side).

(** Line 260: [effective_alpha = self.alpha * 0.5]. *)
Definition effective_alpha : Q := inject_Z self_alpha * (1 # 2).

(** Lines 265-277 of the service, the body of the two loops: a positive
    cell of the resized matrix adds [min(effective_alpha * cell,
    0.2 * coefficient)] to the coefficient under it. *)
Definition embed_cell (watermark_resized : list (list Z))
    (h_offset w_offset h_end w_end : Z) (i j : nat) (ll_band : list (list Q))
    : res (list (list Q)) :=
  if (h_offset + Z.of_nat i <? h_end) && (w_offset + Z.of_nat j <? w_end) then
    wm_ij ← mat_get watermark_resized (Z.of_nat i) (Z.of_nat j);
    if 0 <? wm_ij then
      original_value ← mat_get ll_band (h_offset + Z.of_nat i) (w_offset + Z.of_nat j);
      let add_value :=
        py_min (effective_alpha * inject_Z wm_ij)%Q (original_value * (1 # 5))%Q in
      current ← mat_get ll_band (h_offset + Z.of_nat i) (w_offset + Z.of_nat j);
      mat_set ll_band (h_offset + Z.of_nat i) (w_offset + Z.of_nat j)
              (current + add_value)%Q
    else Ok ll_band
  else Ok ll_band.

(** Lines 263-264 of the service. *)
Definition embed_cells (ll_band : list (list Q)) (watermark_resized : list (list Z))
    (h_offset w_offset h_end w_end : Z) : res (list (list Q)) :=
  for_range (shape0 watermark_resized) (λ i ll_band,
    for_range (shape1 watermark_resized) (λ j ll_band,
      embed_cell watermark_resized h_offset w_offset h_end w_end i j ll_band)
      ll_band) ll_band.

(** How NumPy types the product of a Python [int] and a [np.uint8]
    scalar. Up to NumPy 1 the type follows the value of the Python operand
    and the product is computed in 64 bits; from NumPy 2 on the Python
    operand is weak, the product stays a [uint8] and wraps modulo 256. The
    repository pins no version of NumPy. *)
Inductive promotion : Type :=
  | value_based
  | weak_scalar.

(** [k * x] for a Python [int] [k] and a [np.uint8] [x]. *)
Definition int_times_uint8 (p : promotion) (k x : Z) : Z :=
  match p with
  | value_based => k * x
  | weak_scalar => (k * x) `mod` 256
  end.

(** Lines 212-215 of [invisible_watermark_fixed.py]: a positive cell adds
    [self.alpha * cell], the product of the Python [int] [self.alpha] and
    a cell of the [uint8] matrix. *)
Definition embed_cell_fixed (p : promotion) (watermark_resized : list (list Z))
    (h_offset w_offset h_end w_end : Z) (i j : nat) (ll_band : list (list Q))
    : res (list (list Q)) :=
  if (h_offset + Z.of_nat i <? h_end) && (w_offset + Z.of_nat j <? w_end) then
    wm_ij ← mat_get watermark_resized (Z.of_nat i) (Z.of_nat j);
    if 0 <? wm_ij then
      current ← mat_get ll_band (h_offset + Z.of_nat i) (w_offset + Z.of_nat j);
      mat_set ll_band (h_offset + Z.of_nat i) (w_offset + Z.of_nat j)
              (current + inject_Z (int_times_uint8 p self_alpha wm_ij))%Q
    else Ok ll_band
  else Ok ll_band.

(** Lines 210-211 of [invisible_watermark_fixed.py]. *)
Definition embed_cells_fixed (p : promotion)
    (ll_band : list (list Q)) (watermark_resized : list (list Z))
    (h_offset w_offset h_end w_end : Z) : res (list (list Q)) :=
  for_range (shape0 watermark_resized) (λ i ll_band,
    for_range (shape1 watermark_resized) (λ j ll_band,
      embed_cell_fixed p watermark_resized h_offset w_offset h_end w_end i j ll_band)
      ll_band) ll_band.

(** The loop with the window of lines 252-257 around it. *)
Definition embed_window
    (loop : list (list Q) → list (list Z) → Z → Z → Z → Z → res (list (list Q)))
    (ll_band : list (list Q)) (watermark_resized : list (list Z)) : res (list (list Q)) :=
  let ll_h := Z.of_nat (shape0 ll_band) in
  let ll_w := Z.of_nat (shape1 ll_band) in
  let h_offset := window_offset ll_h (Z.of_nat (shape0 watermark_resized)) in
  let w_offset := window_offset ll_w (Z.of_nat (shape1 watermark_resized)) in
  let h_end := window_end ll_h h_offset (Z.of_nat (shape0 watermark_resized)) in
  let w_end := window_end ll_w w_offset (Z.of_nat (shape1 watermark_resized)) in
  loop ll_band watermark_resized h_offset w_offset h_end w_end.

(** ** Signal-domain extractor: lines 559-590 and 636 of [extract_watermark] *)

(** Line 560: [min(32, ll_band.shape[0] // 2, ll_band.shape[1] // 2)]. *)
Definition estimate_wm_size (ll_band : list (list Q)) : Z :=
  Z.min 32 (Z.min (Z.of_nat (shape0 ll_band) `div` 2) (Z.of_nat (shape1 ll_band) `div` 2)).

(** Line 576: [max(0, min(255, int(extracted_value / self.alpha)))]. *)
Definition byte_of_coefficient (extracted_value : Q) : Z :=
  Z.max 0 (Z.min 255 (py_int (extracted_value / inject_Z self_alpha))).

(** Line 575: [extracted_value > self.alpha/2]. *)
Definition above_threshold (extracted_value : Q) : bool :=
  Qlt_bool (inject_Z self_alpha / 2) extracted_value.

(** Lines 572-577, the body of the two loops. *)
Definition extract_cell (ll_band : list (list Q)) (h_offset w_offset : Z)
    (i j : nat) (extracted_wm : list (list Z)) : res (list (list Z)) :=
  if (h_offset + Z.of_nat i <? Z.of_nat (shape0 ll_band))
     && (w_offset + Z.of_nat j <? Z.of_nat (shape1 ll_band)) then
    extracted_value ← mat_get ll_band (h_offset + Z.of_nat i) (w_offset + Z.of_nat j);
    if above_threshold extracted_value then
      let byte_val := byte_of_coefficient extracted_value in
      mat_set extracted_wm (Z.of_nat i) (Z.of_nat j) byte_val
    else Ok extracted_wm
  else Ok extracted_wm.

(** Lines 562-571. *)
Definition extract_cells (ll_band : list (list Q)) : res (list (list Z)) :=
  let wm_size := estimate_wm_size ll_band in
  let h_offset := (Z.of_nat (shape0 ll_band) - wm_size) `div` 2 in
  let w_offset := (Z.of_nat (shape1 ll_band) - wm_size) `div` 2 in
  extracted_wm ← np_zeros wm_size wm_size;
  for_range (Z.to_nat wm_size) (λ i extracted_wm,
    for_range (Z.to_nat wm_size) (λ j extracted_wm,
      extract_cell ll_band h_offset w_offset i j extracted_wm) extracted_wm)
    extracted_wm.

(** [np.count_nonzero(extracted_wm)] *)
Definition count_nonzero (m : list (list Z)) : Z :=
  Z.of_nat (length (filter (λ v, v ≠ 0) (concat m))).

(** [np.sum(np.square(extracted_wm))]: the square of a [uint8] array is a
    [uint8] array, so each square wraps modulo 256 before the sum. *)
Definition square_u8 (v : Z) : Z := (v * v) `mod` 256.

Definition signal_power (m : list (list Z)) : Z :=
  foldr Z.add 0 (map square_u8 (concat m)).

(** Lines 583-590: the two thresholds. *)
Definition average_signal (extracted_wm : list (list Z)) (wm_size : Z) : Q :=
  let total_pixels := wm_size * wm_size in
  if 0 <? total_pixels
  then (inject_Z (signal_power extracted_wm) / inject_Z total_pixels)%Q
  else 0%Q.

Definition signal_detected (extracted_wm : list (list Z)) (wm_size : Z) : bool :=
  let non_zero_pixels := count_nonzero extracted_wm in
  if Qlt_bool (inject_Z (wm_size * wm_size) * (1 # 4)) (inject_Z non_zero_pixels)
  then Qlt_bool 50 (average_signal extracted_wm wm_size)
  else false.

(** Line 636: [min(0.8, non_zero_pixels / (wm_size * wm_size))]. *)
Definition signal_confidence (extracted_wm : list (list Z)) (wm_size : Z) : Q :=
  py_min (8 # 10) (inject_Z (count_nonzero extracted_wm) / inject_Z (wm_size * wm_size))%Q.

(** ** Notions the statements use *)

(** The first diagonal index the text path writes, as a natural number. *)
Definition diag_start (size len : nat) : nat :=
  if decide (len < size)%nat then ((size - len) / 2)%nat else O.

(** Cells read with a default, for matrices known to be rectangular. *)
Definition coef (m : list (list Q)) (r c : nat) : Q := default 0%Q (cell m r c).
Definition wm_cell (m : list (list Z)) (r c : nat) : Z := default 0 (cell m r c).

(** A [uint8] matrix. *)
Definition uint8_matrix (m : list (list Z)) : Prop :=
  Forall (Forall (λ v, 0 ≤ v < 256)) m.

(** An image whose every component is a [uint8]. *)
Definition uint8_pixels (pixels : list (list (list Z))) : Prop :=
  Forall (Forall (Forall (λ v, 0 ≤ v < 256))) pixels.

(** The window of [rh] by [rw] cells whose corner is [(ho, wo)]. *)
Definition in_window (ho wo rh rw r c : nat) : Prop :=
  (ho ≤ r < ho + rh ∧ wo ≤ c < wo + rw)%nat.

#[global] Instance in_window_dec ho wo rh rw r c : Decision (in_window ho wo rh rw r c).
Proof. unfold in_window. apply _. Defined.

(** What one step of the service loop, and of the fixed loop, makes of a
    coefficient [o] under a cell [v]. *)
Definition embedded_value (o : Q) (v : Z) : Q :=
  if 0 <? v
  then (o + py_min (effective_alpha * inject_Z v) (o * (1 # 5)))%Q
  else o.

Definition embedded_value_fixed (p : promotion) (o : Q) (v : Z) : Q :=
  if 0 <? v then (o + inject_Z (int_times_uint8 p self_alpha v))%Q else o.


(** [clamp(x, lo, hi)] on rationals, for statements. *)
Definition clamp (x lo hi : Q) : Q := Qmax lo (Qmin hi x).


(** The sum of the squares of the cells, without the [uint8] wrap-around,
    and the mean squared cell over [total] cells. *)
Definition sum_squares (m : list (list Z)) : Z :=
  foldr Z.add 0 (map (λ v, v * v) (concat m)).

Definition mean_square (m : list (list Z)) (total : Z) : Q :=
  (inject_Z (sum_squares m) / inject_Z total)%Q.


(** ** Effects: state, early return and exceptions *)

Inductive outcome (A : Type) : Type :=
  | Next (a : A)
  | Returned
  | Raised (e : exn).
Arguments Next {A} a.
Arguments Returned {A}.
Arguments Raised {A} e.

(** A statement run from a state: the state it leaves, and whether control
    falls through with a value, the function returns, or an exception is
    in flight. *)
Definition M (S A : Type) : Type := S → S * outcome A.

#[global] Instance M_ret {S} : MRet (M S) := λ A a s, (s, Next a).
#[global] Instance M_bind {S} : MBind (M S) :=
  λ A B f m s,
    match m s with
    | (s', Next a) => f a s'
    | (s', Returned) => (s', Returned)
    | (s', Raised e) => (s', Raised e)
    end.

Definition raise {S A} (e : exn) : M S A := λ s, (s, Raised e).
Definition return_ {S A} : M S A := λ s, (s, Returned).
Definition gets {S A} (f : S → A) : M S A := λ s, (s, Next (f s)).
Definition modify {S} (f : S → S) : M S unit := λ s, (f s, Next tt).

Definition lift {S A} (r : res A) : M S A :=
  match r with Ok a => mret a | Err e => raise e end.

(** [try: body except Exception as e: handler(e)]; a [return] inside the
    body leaves the function. *)
Definition try_except {S A} (body : M S A) (handler : exn → M S A) : M S A :=
  λ s,
    match body s with
    | (s', Raised e) => handler e s'
    | other => other
    end.

(** ** The world outside the engine *)

(** How a system call that writes can fail: before it has written
    anything, or after [written] bytes have reached the file. *)
Inductive fault_kind : Type :=
  | Refused
  | Torn (written : nat).

(** [files] is the file system; [faults] is the schedule of the system
    calls that write (one entry is consumed by each, [Some] makes the call
    fail; an exhausted schedule never fails); [entropy] and [drawn] give
    the successive values of [uuid.uuid4()]; [now] is
    [datetime.now().isoformat()]. *)
Record World : Type := {
  files : gmap string string;
  faults : list (option fault_kind);
  entropy : nat → string;
  drawn : nat;
  now : string;
}.

Definition set_files (f : gmap string string → gmap string string) (w : World) : World :=
  {| files := f (files w); faults := faults w; entropy := entropy w;
     drawn := drawn w; now := now w |}.

(** [settings.STATIC_DIR] and [settings.PROCESSED_DIR]. *)
Record Settings : Type := {
  STATIC_DIR : string;
  PROCESSED_DIR : string;
}.

(** A decoded image: [len(shape) == 2], or rows of pixels of channels. *)
Inductive ndarray : Type :=
  | Gray (m : list (list Z))
  | Color (m : list (list (list Z))).

(** The libraries the engine calls: json, OpenCV and PyWavelets. A call
    that can raise returns [res] or [option]. *)
Class Lib : Type := {
  json_loads : string → option value;
  json_dump_indent : gmap string value → string;
  json_dumps : gmap string value → string;
  imdecode_color : string → option ndarray;
  imdecode_unchanged : string → option ndarray;
  imencode : string → ndarray → option string;
  cvtColor_gray2bgr : ndarray → res ndarray;
  cvtColor_bgr2gray : list (list (list Z)) → res (list (list Z));
  normalize_minmax : list (list Z) → res (list (list Z));
  resize_nearest : list (list Z) → Z → Z → res (list (list Z));
  resize_linear : list (list Q) → nat → nat → res (list (list Q));
  render_preview : list (list Z) → res ndarray;
  details : Type;
  wavedec2 : list (list Q) → res (list (list Q) * details);
  waverec2 : list (list Q) → details → res (list (list Q));
}.

Section world_ops.
Definition path_exists (path : string) : M World bool :=
  gets (λ w, bool_decide (is_Some (files w !! path))).

(** [open(path).read()] *)
Definition read_file (path : string) : M World string :=
  λ w, match files w !! path with
       | Some content => (w, Next content)
       | None => (w, Raised "FileNotFoundError")
       end.

(** The next entry of the fault schedule. *)
Definition fault : M World (option fault_kind) :=
  λ w, match faults w with
       | [] => (w, Next None)
       | b :: rest =>
           ({| files := files w; faults := rest; entropy := entropy w;
               drawn := drawn w; now := now w |}, Next b)
       end.

Definition store (path content : string) : M World unit :=
  modify (set_files (λ f, <[path := content]> f)).

(** The first [n] bytes of [s]. *)
Definition str_take (n : nat) (s : string) : string := String.substring 0 n s.

(** The bytes [content] written to the file [path], which holds [base]
    once it is open. A call that is refused leaves the file as it was; a
    call that is torn leaves [base] and the bytes that got through. *)
Definition write_file (path base content : string) : M World unit :=
  failed ← fault;
  match failed with
  | None => store path (base +:+ content)
  | Some Refused => raise "OSError"
  | Some (Torn written) =>
      store path (base +:+ str_take written content);;
      raise "OSError"
  end.

(** [with open(path, "w") as f: f.write(content)]: the file is created or
    truncated when it is opened. *)
Definition write_text (path content : string) : M World unit :=
  write_file path "" content.

(** [with open(path, "ab") as f: f.write(content)] *)
Definition append_bytes (path content : string) : M World unit :=
  old ← gets (λ w, default "" (files w !! path));
  write_file path old content.

(** [os.makedirs(path, exist_ok=True)] *)
Definition makedirs : M World unit :=
  failed ← fault;
  match failed with
  | None => mret tt
  | Some _ => raise "OSError"
  end.

(** [shutil.copy2(src, dst)] *)
Definition copy2 (src dst : string) : M World unit :=
  content ← read_file src;
  write_file dst "" content.

(** [str(uuid.uuid4())] *)
Definition uuid4 : M World string :=
  λ w, ({| files := files w; faults := faults w; entropy := entropy w;
           drawn := Datatypes.S (drawn w); now := now w |},
        Next (entropy w (drawn w))).
End world_ops.

Section engine.
Context {L : Lib} (settings : Settings).

(** [cv2.imread(path, flags)]: [None] for a missing or undecodable file. *)
Definition imread (decode : string → option ndarray) (path : string)
    : M World (option ndarray) :=
  gets (λ w, files w !! path ≫= decode).

(** [cv2.imwrite(path, img)]: [False] when the file cannot be written, an
    error when no encoder fits. *)
Definition imwrite (path : string) (img : ndarray) : M World bool :=
  match imencode path img with
  | None => raise "cv2.error"
  | Some content =>
      failed ← fault;
      match failed with
      | None => store path content;; mret true
      | Some Refused => mret false
      | Some (Torn written) => store path (str_take written content);; mret false
      end
  end.

(** *** Payload encoder: [_prepare_watermark_data] *)

Definition channels (m : list (list (list Z))) : nat :=
  match m with (px :: _) :: _ => length px | _ => O end.

(** Lines 81-91: the payload as a grey image, honouring an alpha channel. *)
Definition payload_gray (wm_img : ndarray) : res (list (list Z)) :=
  match wm_img with
  | Gray m => Ok m
  | Color m =>
      if (channels m =? 4)%nat then
        let alpha := map (map (λ px, default 0 (px !! 3%nat))) m in
        gray ← cvtColor_bgr2gray (map (map (take 3)) m);
        Ok (zip_with (zip_with (λ g a,
              py_int (inject_Z g * (inject_Z a / 255))%Q)) gray alpha)
      else cvtColor_bgr2gray m
  end.

(** Line 97: [cv2.threshold(wm_img, 127, 255, cv2.THRESH_BINARY)]. *)
Definition threshold_binary (m : list (list Z)) : list (list Z) :=
  map (map (λ v, if 127 <? v then 255 else 0)) m.

(** Lines 121-158: the text payload and the empty payload. *)
Definition prepare_text_or_none (watermark_text : option text) (max_size : Z)
    : res (list (list Z) * gmap string value) :=
  match watermark_text with
  | Some watermark_text =>
      text_bytes ← utf8_encode watermark_text;
      watermark ← text_matrix watermark_text max_size;
      let size := Z.min max_size 32 in
      let metadata : gmap string value :=
        <["matrix_size" := VInt size]>
        (<["text_length" := VInt (Z.of_nat (length text_bytes))]>
        (<["watermark_text" := VStr (string_of_bytes text_bytes)]>
        (<["watermark_type" := VStr "text"]> ∅))) in
      Ok (watermark, metadata)
  | None =>
      watermark ← np_zeros 1 1;
      Ok (watermark, <["watermark_type" := VStr "none"]> ∅)
  end.

(** Lines 49-158. The recursive call of line 59 passes no image path, so
    it runs the text path or the empty path at once. *)
Definition prepare_watermark_data (watermark_text : option text)
    (watermark_image_path : option string) (max_size : Z)
    : M World (list (list Z) * gmap string value) :=
  let path := default "" watermark_image_path in
  present ← (if negb (String.eqb path "") then path_exists path else mret false);
  if present : bool then
    wm_img ← imread imdecode_unchanged path;
    match wm_img with
    | None => lift (prepare_text_or_none watermark_text max_size)
    | Some wm_img =>
        makedirs;;
        wm_uuid ← uuid4;
        let original_wm_filename := "original_watermark_" +:+ wm_uuid +:+ ".png" in
        let original_wm_path := path_join (STATIC_DIR settings) original_wm_filename in
        imwrite original_wm_path wm_img;;
        let backup_wm_filename := "backup_watermark_" +:+ wm_uuid +:+ ".png" in
        let backup_wm_path := path_join (PROCESSED_DIR settings) backup_wm_filename in
        copy2 original_wm_path backup_wm_path;;
        gray ← lift (payload_gray wm_img);
        normalized ← lift (normalize_minmax gray);
        let binary_wm := threshold_binary normalized in
        let size := Z.min max_size 32 in
        watermark ←
          (if negb (Z.of_nat (shape0 binary_wm) =? size)
              || negb (Z.of_nat (shape1 binary_wm) =? size)
           then lift (resize_nearest binary_wm size size)
           else mret binary_wm);
        let metadata : gmap string value :=
          <["matrix_size" := VInt size]>
          (<["backup_image_url" := VStr ("/static/" +:+ backup_wm_filename)]>
          (<["watermark_image_url" := VStr ("/static/" +:+ original_wm_filename)]>
          (<["watermark_type" := VStr "image"]> ∅))) in
        mret (watermark, metadata)
    end
  else lift (prepare_text_or_none watermark_text max_size).

(** *** Coefficient embedder and redundancy writer: [embed_watermark] *)

(** Line 199: [len(img.shape) == 3 and img.shape[2] == 3]. *)
Definition is_bgr (img : ndarray) : bool :=
  match img with
  | Color m => (channels m =? 3)%nat
  | Gray _ => false
  end.

Definition pixels_of (img : ndarray) : res (list (list (list Z))) :=
  match img with
  | Color m => Ok m
  | Gray _ => Err "IndexError"
  end.

(** Line 221: [img[:, :, 0].astype(np.float32)]. *)
Definition blue_channel (pixels : list (list (list Z))) : list (list Q) :=
  map (map (λ px, inject_Z (default 0 (px !! 0%nat)))) pixels.

Definition same_shape {A B} (a : list (list A)) (b : list (list B)) : bool :=
  (length a =? length b)%nat
  && forallb (λ rows, (length rows.1 =? length rows.2)%nat) (zip a b).

(** Line 289: [np.clip(reconstructed, 0, 255)]. *)
Definition np_clip (m : list (list Q)) : list (list Q) :=
  map (map (λ x, if Qlt_bool x 0 then 0%Q
                 else if Qlt_bool 255 x then 255%Q else x)) m.

(** Lines 293-294: 85% of the reconstruction and 15% of the original
    channel, cast to [uint8]. *)
Definition blend_factor : Q := 85 # 100.

Definition blend (reconstructed blue : list (list Q)) : res (list (list Z)) :=
  if same_shape reconstructed blue
  then Ok (zip_with (zip_with (λ r o,
             py_int (blend_factor * r + (1 - blend_factor) * o)%Q))
             reconstructed blue)
  else Err "ValueError".

(** Line 295: [watermarked_img[:, :, 0] = blended_channel]. *)
Definition set_blue (pixels : list (list (list Z))) (channel : list (list Z))
    : res ndarray :=
  if same_shape pixels channel
  then Ok (Color (zip_with (zip_with (λ px v, <[0%nat := v]> px)) pixels channel))
  else Err "ValueError".

(** Lines 208-214: the payload kind of the metadata follows the arguments. *)
Definition confirm_type (watermark_type : string) (metadata : gmap string value)
    : gmap string value :=
  let tagged (kind : string) :=
    String.eqb watermark_type kind
    || (negb (bool_decide (metadata = ∅))
        && is_str (default VNone (metadata !! "watermark_type")) kind) in
  if tagged "image" then <["watermark_type" := VStr "image"]> metadata
  else if tagged "text" then <["watermark_type" := VStr "text"]> metadata
  else metadata.

(** Lines 183-295: the watermarked pixels, with the payload matrix and
    its metadata. The argument [alpha] of [embed_watermark] does not occur
    in them. *)
Definition watermarked_image (image_path : string) (watermark_text : option text)
    (watermark_image_path : option string)
    : M World (ndarray * list (list Z) * gmap string value) :=
  let path := default "" watermark_image_path in
  image_given ← (if negb (String.eqb path "") then path_exists path else mret false);
  let watermark_type : string :=
    if image_given : bool then "image"
    else match watermark_text with
         | Some (_ :: _) => "text"
         | _ => "unknown"
         end in
  img ← imread imdecode_color image_path;
  img ← match img with
        | None => raise "ValueError"
        | Some img => mret img
        end;
  img ← (if is_bgr img then mret img else lift (cvtColor_gray2bgr img));
  prepared ← prepare_watermark_data watermark_text watermark_image_path 32;
  let watermark := prepared.1 in
  let metadata := confirm_type watermark_type prepared.2 in
  pixels ← lift (pixels_of img);
  let blue := blue_channel pixels in
  coeffs ← lift (wavedec2 blue);
  let ll_band := coeffs.1 in
  let wm_h := Z.of_nat (shape0 watermark) in
  let wm_w := Z.of_nat (shape1 watermark) in
  let ll_h := Z.of_nat (shape0 ll_band) in
  let ll_w := Z.of_nat (shape1 ll_band) in
  scale ← lift (fit_scale wm_h wm_w ll_h ll_w);
  let new_h := scaled_side wm_h scale in
  let new_w := scaled_side wm_w scale in
  watermark_resized ←
    (if negb (new_h =? wm_h) || negb (new_w =? wm_w)
     then lift (resize_nearest watermark new_w new_h)
     else mret watermark);
  ll_band ← lift (embed_window embed_cells ll_band watermark_resized);
  reconstructed ← lift (waverec2 ll_band coeffs.2);
  reconstructed ← lift (resize_linear reconstructed (shape1 pixels) (shape0 pixels));
  let reconstructed := np_clip reconstructed in
  blended_channel ← lift (blend reconstructed blue);
  watermarked_img ← lift (set_blue pixels blended_channel);
  mret (watermarked_img, watermark, metadata).

(** Lines 298-300. *)
Definition choose_output (output_path : option string) : M World string :=
  match output_path with
  | None =>
      filename ← uuid4;
      mret (path_join (PROCESSED_DIR settings) (filename +:+ ".png"))
  | Some output_path => mret output_path
  end.

(** Lines 306-313. *)
Definition final_metadata (metadata : gmap string value) (watermark : list (list Z))
    (timestamp : string) : gmap string value :=
  <["timestamp" := VStr timestamp]>
  (<["watermark_size" := VList [VInt (Z.of_nat (shape0 watermark));
                                VInt (Z.of_nat (shape1 watermark))]]>
  (<["alpha" := VInt self_alpha]>
  (<["level" := VInt self_level]>
  (<["wavelet" := VStr self_wavelet]>
  (<["algorithm" := VStr "dwt"]> metadata))))).

Definition trailer_marker : string := "WATERMARK_METADATA:".

(** Lines 315-331: the sidecar file, then the trailer, whose failure is
    logged and passed over. *)
Definition persist_metadata (metadata : gmap string value) (output_path : string)
    : M World unit :=
  let metadata_path := output_path +:+ ".metadata" in
  write_text metadata_path (json_dump_indent metadata);;
  try_except
    (append_bytes output_path (trailer_marker +:+ json_dumps metadata))
    (λ e, mret tt).

(** Lines 160-335. The handler of line 333 logs and raises again. *)
Definition embed_watermark (image_path : string) (watermark_text : option text)
    (watermark_image_path : option string) (alpha : Q) (output_path : option string)
    : M World string :=
  try_except
    (computed ← watermarked_image image_path watermark_text watermark_image_path;
     output_path ← choose_output output_path;
     imwrite output_path computed.1.1;;
     timestamp ← gets now;
     let metadata := final_metadata computed.2 computed.1.2 timestamp in
     persist_metadata metadata output_path;;
     mret output_path)
    (λ e, raise e).

(** *** Recovery orchestrator: [extract_watermark] *)

(** The state of a recovery: the world and the [result] dictionary. *)
Record St : Type := {
  world : World;
  result : gmap string value;
}.

Definition in_world {A} (m : M World A) : M St A :=
  λ s, let (w, o) := m (world s) in ({| world := w; result := result s |}, o).

(** [result[key] = v] *)
Definition set_result (key : string) (v : value) : M St unit :=
  modify (λ s, {| world := world s; result := <[key := v]> (result s) |}).

(** [d.get(key, default)]; only a [dict] has the method. *)
Definition py_get {S} (d : value) (key : string) (default_ : value) : M S value :=
  match d with
  | VDict m => mret (default default_ (m !! key))
  | _ => raise "AttributeError"
  end.

(** [key in d] for a [dict]. *)
Definition py_in {S} (key : string) (d : value) : M S bool :=
  match d with
  | VDict m => mret (bool_decide (is_Some (m !! key)))
  | _ => raise "TypeError"
  end.

(** [d[key]] for a [dict]. *)
Definition py_item {S} (d : value) (key : string) : M S value :=
  match d with
  | VDict m =>
      match m !! key with
      | Some v => mret v
      | None => raise "KeyError"
      end
  | _ => raise "TypeError"
  end.

(** [url.replace("/static/", "")]; only a [str] has the method. *)
Definition strip_static {S} (url : value) : M S string :=
  match url with
  | VStr s => mret (str_replace s "/static/" "")
  | _ => raise "AttributeError"
  end.

(** Lines 347-355. *)
Definition initial_result : gmap string value :=
  <["message" := VStr ""]>
  (<["confidence" := VInt 0]>
  (<["watermark_image_url" := VNone]>
  (<["watermark_type" := VNone]>
  (<["watermark_text" := VStr ""]>
  (<["detected" := VBool false]>
  (<["success" := VBool false]> ∅)))))).

Definition msg_original : string := "成功提取到原始图像水印".
Definition msg_backup : string := "使用备份图像水印恢复成功".
Definition msg_image : string := "成功提取到图像水印".
Definition msg_unreadable : string := "无法读取图像: ".
Definition msg_none : string := "未检测到有效的隐式水印".
Definition msg_failed : string := "提取水印失败: ".

(** Lines 375-417 and, with the other two confidences, lines 450-492:
    the display copy named by the metadata, the original first and the
    backup second. *)
Definition resolve_image (metadata : value) (conf_original conf_backup : Q)
    : M St unit :=
  original_url ← py_get metadata "watermark_image_url" (VStr "");
  backup_url ← py_get metadata "backup_image_url" (VStr "");
  if truthy original_url then
    image_filename ← strip_static original_url;
    let image_path_check := path_join (STATIC_DIR settings) image_filename in
    found ← in_world (path_exists image_path_check);
    if found : bool then
      set_result "watermark_image_url" original_url;;
      set_result "detected" (VBool true);;
      set_result "success" (VBool true);;
      set_result "confidence" (VFloat conf_original);;
      set_result "message" (VStr msg_original);;
      return_
    else if truthy backup_url then
      backup_filename ← strip_static backup_url;
      let backup_static_path := path_join (STATIC_DIR settings) backup_filename in
      in_static ← in_world (path_exists backup_static_path);
      (if negb in_static then
         let backup_processed_path :=
           path_join (PROCESSED_DIR settings) backup_filename in
         in_processed ← in_world (path_exists backup_processed_path);
         if in_processed : bool then
           in_world makedirs;;
           in_world (copy2 backup_processed_path backup_static_path)
         else mret tt
       else mret tt);;
      found ← in_world (path_exists backup_static_path);
      if found : bool then
        set_result "watermark_image_url" backup_url;;
        set_result "detected" (VBool true);;
        set_result "success" (VBool true);;
        set_result "confidence" (VFloat conf_backup);;
        set_result "message" (VStr msg_backup);;
        return_
      else mret tt
    else mret tt
  else mret tt.

(** Lines 360-433: the sidecar file. *)
Definition sidecar_stage (image_path : string) : M St unit :=
  let metadata_path := image_path +:+ ".metadata" in
  present ← in_world (path_exists metadata_path);
  if present : bool then
    try_except
      (content ← in_world (read_file metadata_path);
       metadata ← lift (of_option (json_loads content) "JSONDecodeError");
       kind ← py_get metadata "watermark_type" VNone;
       if is_str kind "image" then
         set_result "watermark_type" (VStr "image");;
         resolve_image metadata (99 # 100) (95 # 100)
       else
         kind ← py_get metadata "watermark_type" VNone;
         if is_str kind "text" then
           recovered ← py_get metadata "watermark_text" (VStr "");
           set_result "watermark_text" recovered;;
           set_result "watermark_type" (VStr "text");;
           set_result "detected" (VBool true);;
           set_result "success" (VBool true);;
           set_result "confidence" (VFloat (99 # 100));;
           return_
         else mret tt)
      (λ e, mret tt)
  else mret tt.

(** Lines 505-533: trailer metadata of no known kind. *)
Definition untagged_trailer (embedded_metadata : value) : M St unit :=
  has_url ← py_in "watermark_image_url" embedded_metadata;
  if has_url : bool then
    set_result "watermark_type" (VStr "image");;
    url ← py_item embedded_metadata "watermark_image_url";
    set_result "watermark_image_url" url;;
    image_filename ← strip_static url;
    let image_path_check := path_join (STATIC_DIR settings) image_filename in
    found ← in_world (path_exists image_path_check);
    if found : bool then
      set_result "detected" (VBool true);;
      set_result "success" (VBool true);;
      set_result "confidence" (VFloat (9 # 10));;
      set_result "message" (VStr msg_image);;
      return_
    else mret tt
  else
    has_text ← py_in "watermark_text" embedded_metadata;
    recovered ← (if has_text : bool
                 then py_item embedded_metadata "watermark_text"
                 else mret VNone);
    if has_text && truthy recovered then
      set_result "watermark_text" recovered;;
      set_result "watermark_type" (VStr "text");;
      set_result "detected" (VBool true);;
      set_result "success" (VBool true);;
      set_result "confidence" (VFloat (9 # 10));;
      return_
    else mret tt.

(** Lines 435-535: the metadata appended to the image file. *)
Definition trailer_stage (image_path : string) : M St unit :=
  try_except
    (content ← in_world (read_file image_path);
     let marker := trailer_marker in
     let pos := bytes_find content marker in
     if 0 <? pos then
       let metadata_str :=
         str_drop (Z.to_nat (pos + Z.of_nat (String.length marker))) content in
       embedded_metadata ← lift (of_option (json_loads metadata_str) "JSONDecodeError");
       kind ← py_get embedded_metadata "watermark_type" VNone;
       if is_str kind "image" then
         set_result "watermark_type" (VStr "image");;
         resolve_image embedded_metadata (95 # 100) (9 # 10)
       else
         kind ← py_get embedded_metadata "watermark_type" VNone;
         if is_str kind "text" then
           recovered ← py_get embedded_metadata "watermark_text" (VStr "");
           set_result "watermark_text" recovered;;
           set_result "watermark_type" (VStr "text");;
           set_result "detected" (VBool true);;
           set_result "success" (VBool true);;
           set_result "confidence" (VFloat (95 # 100));;
           return_
         else untagged_trailer embedded_metadata
     else mret tt)
    (λ e, mret tt).

(** Lines 592-638: the preview of a positive blind detection is written
    and published, then the result is filled in. *)
Definition publish_signal (extracted_wm : list (list Z)) (wm_size : Z) : M St unit :=
  extracted_id ← in_world uuid4;
  let extracted_wm_filename := "extracted_watermark_" +:+ extracted_id +:+ ".png" in
  let extracted_wm_path := path_join (PROCESSED_DIR settings) extracted_wm_filename in
  colored_wm_with_border ← lift (render_preview extracted_wm);
  in_world (imwrite extracted_wm_path colored_wm_with_border);;
  let static_wm_path := path_join (STATIC_DIR settings) extracted_wm_filename in
  in_world makedirs;;
  in_world (copy2 extracted_wm_path static_wm_path);;
  set_result "watermark_image_url" (VStr ("/static/" +:+ extracted_wm_filename));;
  set_result "watermark_type" (VStr "image");;
  set_result "detected" (VBool true);;
  set_result "success" (VBool true);;
  set_result "confidence" (VFloat (signal_confidence extracted_wm wm_size));;
  return_.

(** Lines 546-577: the recovered matrix of a decoded image, with its
    side. *)
Definition signal_of (img : ndarray) : res (list (list Z) * Z) :=
  img ← (if is_bgr img then Ok img else cvtColor_gray2bgr img);
  pixels ← pixels_of img;
  let blue := blue_channel pixels in
  coeffs ← wavedec2 blue;
  let ll_band := coeffs.1 in
  let wm_size := estimate_wm_size ll_band in
  extracted_wm ← extract_cells ll_band;
  Ok (extracted_wm, wm_size).

(** Lines 537-649: blind extraction from the signal, and the negative
    answer when it finds nothing. *)
Definition blind_stage (image_path : string) : M St unit :=
  img ← in_world (imread imdecode_color image_path);
  match img with
  | None =>
      set_result "message" (VStr (msg_unreadable +:+ image_path));;
      return_
  | Some img =>
      signal ← lift (signal_of img);
      (if signal_detected signal.1 signal.2
       then publish_signal signal.1 signal.2
       else mret tt);;
      set_result "detected" (VBool false);;
      set_result "success" (VBool true);;
      set_result "message" (VStr msg_none);;
      return_
  end.

(** Lines 357-655: the three sources in order, under the handler of the
    last resort. *)
Definition extract_body (image_path : string) : M St unit :=
  try_except
    (sidecar_stage image_path;;
     trailer_stage image_path;;
     blind_stage image_path)
    (λ e,
       set_result "success" (VBool false);;
       set_result "message" (VStr (msg_failed +:+ e));;
       return_).

(** [extract_watermark(image_path)]: the dictionary the call returns, and
    the world it leaves. *)
Definition extract_watermark (image_path : string) (w : World)
    : World * gmap string value :=
  let s := (extract_body image_path {| world := w; result := initial_result |}).1 in
  (world s, result s).
End engine.


(** ** Notions the statements about effects use *)

(** The postcondition [Q] holds of the state and outcome of [m] run from [s]. *)
Definition wp {S A} (m : M S A) (Q : S → outcome A → Prop) (s : S) : Prop :=
  Q (m s).1 (m s).2.

Definition file_exists (w : World) (path : string) : Prop := is_Some (files w !! path).

(** The seven keys of the dictionary [extract_watermark] returns. *)
Definition result_keys : gset string :=
  {[ "success"; "detected"; "watermark_text"; "watermark_type";
     "watermark_image_url"; "confidence"; "message" ]}.

(** No source has answered yet. *)
Definition pending (r : gmap string value) : Prop :=
  dom r = result_keys ∧
  r !! "detected" = Some (VBool false) ∧
  r !! "success" = Some (VBool false) ∧
  r !! "confidence" = Some (VInt 0) ∧
  r !! "message" = Some (VStr "").

(** A positive answer of confidence [c]. *)
Definition detected_with (c : Q) (r : gmap string value) : Prop :=
  dom r = result_keys ∧
  r !! "detected" = Some (VBool true) ∧
  r !! "success" = Some (VBool true) ∧
  r !! "confidence" = Some (VFloat c).

Section hits.
Context {L : Lib} (settings : Settings).

(** Where the display copy named by [url] is served from, and where its
    backup is kept. *)
Definition static_path (url : string) : string :=
  path_join (STATIC_DIR settings) (str_replace url "/static/" "").
Definition processed_path (url : string) : string :=
  path_join (PROCESSED_DIR settings) (str_replace url "/static/" "").

(** The metadata the sidecar file and the trailer hold, if any. *)
Definition sidecar_metadata (w : World) (image_path : string) : option value :=
  files w !! (image_path +:+ ".metadata") ≫= json_loads.

Definition trailer_metadata (w : World) (image_path : string) : option value :=
  content ← files w !! image_path;
  let pos := bytes_find content trailer_marker in
  if 0 <? pos
  then json_loads
         (str_drop (Z.to_nat (pos + Z.of_nat (String.length trailer_marker))) content)
  else None.

(** How metadata of kind image ends a recovery started in world [w]: on
    the original display copy, or, that copy being absent, on the backup. *)
Inductive resolved (d : gmap string value) (conf_original conf_backup : Q)
    (w : World) (s' : St) : Prop :=
  | resolved_original (url : string) :
      d !! "watermark_image_url" = Some (VStr url) →
      file_exists w (static_path url) →
      detected_with conf_original (result s') →
      result s' !! "watermark_image_url" = Some (VStr url) →
      result s' !! "message" = Some (VStr msg_original) →
      resolved d conf_original conf_backup w s'
  | resolved_backup (url backup_url : string) :
      d !! "watermark_image_url" = Some (VStr url) →
      ¬ file_exists w (static_path url) →
      d !! "backup_image_url" = Some (VStr backup_url) →
      file_exists w (static_path backup_url)
        ∨ file_exists w (processed_path backup_url) →
      file_exists (world s') (static_path backup_url) →
      detected_with conf_backup (result s') →
      result s' !! "watermark_image_url" = Some (VStr backup_url) →
      result s' !! "message" = Some (VStr msg_backup) →
      resolved d conf_original conf_backup w s'.

(** How metadata tagged text or image ends a recovery. *)
Inductive tagged_hit (conf_text conf_original conf_backup : Q)
    (metadata : value) (w : World) (s' : St) : Prop :=
  | hit_text (d : gmap string value) :
      metadata = VDict d →
      d !! "watermark_type" = Some (VStr "text") →
      detected_with conf_text (result s') →
      result s' !! "watermark_type" = Some (VStr "text") →
      result s' !! "watermark_text" = Some (default (VStr "") (d !! "watermark_text")) →
      tagged_hit conf_text conf_original conf_backup metadata w s'
  | hit_image (d : gmap string value) :
      metadata = VDict d →
      d !! "watermark_type" = Some (VStr "image") →
      result s' !! "watermark_type" = Some (VStr "image") →
      resolved d conf_original conf_backup w s' →
      tagged_hit conf_text conf_original conf_backup metadata w s'.

(** How trailer metadata of no known kind ends a recovery (lines 505-533). *)
Inductive untagged_hit (metadata : value) (w : World) (s' : St) : Prop :=
  | untagged_image (d : gmap string value) (url : string) :
      metadata = VDict d →
      d !! "watermark_type" ≠ Some (VStr "image") →
      d !! "watermark_type" ≠ Some (VStr "text") →
      d !! "watermark_image_url" = Some (VStr url) →
      file_exists w (static_path url) →
      detected_with (9 # 10) (result s') →
      result s' !! "watermark_image_url" = Some (VStr url) →
      untagged_hit metadata w s'
  | untagged_text (d : gmap string value) (recovered : value) :
      metadata = VDict d →
      d !! "watermark_type" ≠ Some (VStr "image") →
      d !! "watermark_type" ≠ Some (VStr "text") →
      d !! "watermark_image_url" = None →
      d !! "watermark_text" = Some recovered →
      truthy recovered = true →
      detected_with (9 # 10) (result s') →
      result s' !! "watermark_text" = Some recovered →
      untagged_hit metadata w s'.

Definition sidecar_hit (image_path : string) (w : World) (s' : St) : Prop :=
  ∃ metadata,
    sidecar_metadata w image_path = Some metadata ∧
    tagged_hit (99 # 100) (99 # 100) (95 # 100) metadata w s'.

Definition trailer_hit (image_path : string) (w : World) (s' : St) : Prop :=
  ∃ metadata,
    trailer_metadata w image_path = Some metadata ∧
    (tagged_hit (95 # 100) (95 # 100) (9 # 10) metadata w s'
     ∨ untagged_hit metadata w s').
End hits.


Section answers.
Context {L : Lib} (settings : Settings).

(** How the blind stage ends a recovery whose result was [r] in world [w]. *)
Inductive blind_answer (image_path : string) (w : World) (r : gmap string value)
    (s' : St) : Prop :=
  | blind_unreadable :
      files w !! image_path ≫= imdecode_color = None →
      world s' = w →
      result s' = <["message" := VStr (msg_unreadable +:+ image_path)]> r →
      blind_answer image_path w r s'
  | blind_positive (img : ndarray) (extracted_wm : list (list Z)) (wm_size : Z) :
      files w !! image_path ≫= imdecode_color = Some img →
      signal_of img = Ok (extracted_wm, wm_size) →
      signal_detected extracted_wm wm_size = true →
      detected_with (signal_confidence extracted_wm wm_size) (result s') →
      result s' !! "watermark_type" = Some (VStr "image") →
      blind_answer image_path w r s'
  | blind_negative (img : ndarray) (extracted_wm : list (list Z)) (wm_size : Z) :
      files w !! image_path ≫= imdecode_color = Some img →
      signal_of img = Ok (extracted_wm, wm_size) →
      signal_detected extracted_wm wm_size = false →
      world s' = w →
      result s' = <["message" := VStr msg_none]>
                    (<["success" := VBool true]>
                    (<["detected" := VBool false]> r)) →
      blind_answer image_path w r s'.

(** How the blind stage fails: the image is decoded, and a call of the
    image libraries raises, or a signal is detected and the publication of
    its preview raises. *)
Inductive blind_failure (image_path : string) (w : World) : Prop :=
  | signal_failure (img : ndarray) (e : exn) :
      files w !! image_path ≫= imdecode_color = Some img →
      signal_of img = Err e →
      blind_failure image_path w
  | publish_failure (img : ndarray) (extracted_wm : list (list Z)) (wm_size : Z)
      (s : St) (e : exn) :
      files w !! image_path ≫= imdecode_color = Some img →
      signal_of img = Ok (extracted_wm, wm_size) →
      signal_detected extracted_wm wm_size = true →
      world s = w →
      (publish_signal settings extracted_wm wm_size s).2 = Raised e →
      blind_failure image_path w.
End answers.


Section orchestration.
Context {L : Lib} (settings : Settings).

(** The state in which a recovery starts, and the runs of its first two
    stages. *)
Definition start (w : World) : St := {| world := w; result := initial_result |}.

Definition after_sidecar (image_path : string) (w : World) : St * outcome unit :=
  sidecar_stage settings image_path (start w).

Definition after_trailer (image_path : string) (w : World) : St * outcome unit :=
  trailer_stage settings image_path (after_sidecar image_path w).1.

Definition after_blind (image_path : string) (w : World) : St * outcome unit :=
  blind_stage settings image_path (after_trailer image_path w).1.

(** The answer names the backup copy, the original display copy that the
    metadata names being absent. *)
Definition backup_only (metadata : value) (w : World) (s' : St) : Prop :=
  ∃ d url backup_url,
    metadata = VDict d ∧
    d !! "watermark_type" = Some (VStr "image") ∧
    d !! "watermark_image_url" = Some (VStr url) ∧
    ¬ file_exists w (static_path settings url) ∧
    d !! "backup_image_url" = Some (VStr backup_url) ∧
    file_exists (world s') (static_path settings backup_url) ∧
    result s' !! "watermark_image_url" = Some (VStr backup_url).

(** The metadata carries neither the tag image nor the tag text. *)
Definition untagged (metadata : value) : Prop :=
  ∃ d, metadata = VDict d ∧
       d !! "watermark_type" ≠ Some (VStr "image") ∧
       d !! "watermark_type" ≠ Some (VStr "text").

(** Metadata of kind image leads to a display copy in world [w]: the copy
    it names is in place, or the backup it names is, under [STATIC_DIR]
    or, where no system call fails, under [PROCESSED_DIR]. *)
Definition locates (d : gmap string value) (w : World) : Prop :=
  ∃ url,
    d !! "watermark_image_url" = Some (VStr url) ∧ url ≠ "" ∧
    (file_exists w (static_path settings url)
     ∨ ∃ backup_url,
         d !! "backup_image_url" = Some (VStr backup_url) ∧ backup_url ≠ "" ∧
         (file_exists w (static_path settings backup_url)
          ∨ (file_exists w (processed_path settings backup_url) ∧ faults w = []))).

(** Metadata a source can answer from: tagged text, or tagged image with a
    display copy to be found; and, for the trailer alone, metadata with no
    tag that holds a locator whose file is in place or, having no locator,
    a text that is not empty. *)
Definition tagged_usable (d : gmap string value) (w : World) : Prop :=
  d !! "watermark_type" = Some (VStr "text")
  ∨ (d !! "watermark_type" = Some (VStr "image") ∧ locates d w).

Definition untagged_usable (d : gmap string value) (w : World) : Prop :=
  d !! "watermark_type" ≠ Some (VStr "image") ∧
  d !! "watermark_type" ≠ Some (VStr "text") ∧
  ((∃ url, d !! "watermark_image_url" = Some (VStr url) ∧
           file_exists w (static_path settings url))
   ∨ (d !! "watermark_image_url" = None ∧
      ∃ recovered, d !! "watermark_text" = Some recovered ∧ truthy recovered = true)).

Definition sidecar_usable (image_path : string) (w : World) : Prop :=
  ∃ d, sidecar_metadata w image_path = Some (VDict d) ∧ tagged_usable d w.

Definition trailer_usable (image_path : string) (w : World) : Prop :=
  ∃ d, trailer_metadata w image_path = Some (VDict d) ∧
       (tagged_usable d w ∨ untagged_usable d w).
End orchestration.

(** ** A small library, to run the engine on examples *)

Module Toy.
(** JSON text of flat objects of strings. *)
Definition dq : string := String (ascii_of_nat 34) EmptyString.
Definition quoted (s : string) : string := dq +:+ s +:+ dq.

Fixpoint join_fields (fields : list string) : string :=
  match fields with
  | [] => ""
  | [field] => field
  | field :: rest => field +:+ ", " +:+ join_fields rest
  end.

Definition json_object (fields : list (string * string)) : string :=
  "{" +:+ join_fields (map (λ kv, quoted kv.1 +:+ ": " +:+ quoted kv.2) fields) +:+ "}".

Definition dict_of (fields : list (string * string)) : gmap string value :=
  list_to_map (map (λ kv, (kv.1, VStr kv.2)) fields).

(** The documents the parser knows. *)
Definition text_document : list (string * string) :=
  [("watermark_type", "text"); ("watermark_text", "hi")].
Definition untagged_document : list (string * string) :=
  [("watermark_text", "hi")].
Definition image_document : list (string * string) :=
  [("watermark_type", "image");
   ("watermark_image_url", "/static/original_watermark_u0.png");
   ("backup_image_url", "/static/backup_watermark_u0.png")].

Definition loads (s : string) : option value :=
  (λ doc, VDict (dict_of doc)) <$>
    List.find (λ doc, String.eqb s (json_object doc))
      [text_document; untagged_document; image_document].

(** The serialiser writes the string fields the recovery reads. *)
Definition dumps (metadata : gmap string value) : string :=
  json_object
    (omap (λ key, match metadata !! key with
                  | Some (VStr s) => Some (key, s)
                  | _ => None
                  end)
       ["watermark_type"; "watermark_text"; "watermark_image_url"; "backup_image_url"]).

(** Every file that starts with the signature decodes to one 4 by 4
    carrier, and every image is encoded as the signature. *)
Definition carrier : list (list (list Z)) :=
  replicate 4 (replicate 4 [120; 130; 140]).

Definition decode (content : string) : option ndarray :=
  if String.prefix "PNG" content then Some (Color carrier) else None.

Definition gray2bgr (img : ndarray) : res ndarray :=
  match img with
  | Gray m => Ok (Color (map (map (λ v, [v; v; v])) m))
  | Color m => Ok (Color m)
  end.

Definition bgr2gray (m : list (list (list Z))) : res (list (list Z)) :=
  Ok (map (map (λ px,
        (114 * default 0 (px !! 0%nat) + 587 * default 0 (px !! 1%nat)
         + 299 * default 0 (px !! 2%nat) + 500) `div` 1000)) m).

Definition nearest (m : list (list Z)) (w h : Z) : res (list (list Z)) :=
  if (w <=? 0) || (h <=? 0) then Err "cv2.error"
  else
    let rows := shape0 m in
    let cols := shape1 m in
    Ok (map (λ y, map (λ x,
              wm_cell m (y * rows / Z.to_nat h) (x * cols / Z.to_nat w))
              (seq 0 (Z.to_nat w)))
          (seq 0 (Z.to_nat h))).

Definition linear (m : list (list Q)) (w h : nat) : res (list (list Q)) :=
  if (shape0 m =? h)%nat && (shape1 m =? w)%nat then Ok m else Err "cv2.error".

(** One level of the Haar transform on an even-sized channel: the
    approximation band, and the channel as the detail. *)
Fixpoint haar_pairs (upper lower : list Q) : list Q :=
  match upper, lower with
  | a :: b :: upper', c :: d :: lower' =>
      ((a + b + c + d) / 2)%Q :: haar_pairs upper' lower'
  | _, _ => []
  end.

Fixpoint haar_ll (m : list (list Q)) : list (list Q) :=
  match m with
  | upper :: lower :: m' => haar_pairs upper lower :: haar_ll m'
  | _ => []
  end.

Definition dec (m : list (list Q)) : res (list (list Q) * (list (list Q) * list (list Q))) :=
  Ok (haar_ll m, (m, haar_ll m)).

Definition rec (ll_band : list (list Q)) (detail : list (list Q) * list (list Q))
    : res (list (list Q)) :=
  Ok (imap (λ r row,
        imap (λ c x,
          (x + (coef ll_band (r / 2) (c / 2) - coef detail.2 (r / 2) (c / 2)) / 2)%Q)
          row) detail.1).

#[global] Instance lib : Lib := {|
  json_loads := loads;
  json_dump_indent := dumps;
  json_dumps := dumps;
  imdecode_color := decode;
  imdecode_unchanged := decode;
  imencode := λ path img, Some "PNG";
  cvtColor_gray2bgr := gray2bgr;
  cvtColor_bgr2gray := bgr2gray;
  normalize_minmax := Ok;
  resize_nearest := nearest;
  resize_linear := linear;
  render_preview := λ m, Ok (Gray m);
  details := list (list Q) * list (list Q);
  wavedec2 := dec;
  waverec2 := rec;
|}.

Definition settings : Settings :=
  {| STATIC_DIR := "/srv/static"; PROCESSED_DIR := "/srv/processed" |}.

Definition world (fs : list (string * string)) (schedule : list (option fault_kind))
    : World :=
  {| files := list_to_map fs;
     faults := schedule;
     entropy := λ n, "u" +:+ String (ascii_of_nat (48 + n mod 10)) EmptyString;
     drawn := O;
     now := "2024-01-01T00:00:00" |}.
End Toy.


(** A well-formed answer: exactly the seven keys, booleans under [detected]
    and [success] with [detected] implying [success], and a confidence
    between 0 and 1. *)
Definition well_formed (r : gmap string value) : Prop :=
  dom r = result_keys ∧
  (∃ detected success : bool,
     r !! "detected" = Some (VBool detected) ∧
     r !! "success" = Some (VBool success) ∧
     (detected = true → success = true)) ∧
  (∃ (v : value) (q : Q),
     r !! "confidence" = Some v ∧ num_of v = Some q ∧ (0 <= q <= 1)%Q).


(** The payload encoder encoded the image [wm_img]: the metadata is of kind
    image, names the display copy and carries no text, and the matrix is
    the binarised grey image, resized to the side when it has another. *)
Definition encodes_image {L : Lib} (wm_img : ndarray) (max_size : Z)
    (prepared : list (list Z) * gmap string value) : Prop :=
  prepared.2 !! "watermark_type" = Some (VStr "image") ∧
  prepared.2 !! "watermark_text" = None ∧
  (∃ url, prepared.2 !! "watermark_image_url" = Some (VStr url)) ∧
  ∃ gray normalized,
    payload_gray wm_img = Ok gray ∧
    normalize_minmax gray = Ok normalized ∧
    (prepared.1 = threshold_binary normalized ∨
     resize_nearest (threshold_binary normalized) (Z.min max_size 32) (Z.min max_size 32)
       = Ok prepared.1).

(** ** The image-only recovery: [extract_watermark_image] *)

Fixpoint has_slash (p : string) : bool :=
  match p with
  | EmptyString => false
  | String c p' => Ascii.eqb c "/" || has_slash p'
  end.

(** [os.path.basename(p)] on a POSIX system: what follows the last slash. *)
Fixpoint basename (p : string) : string :=
  match p with
  | EmptyString => EmptyString
  | String _ p' => if has_slash p then basename p' else p
  end.

Section image_recovery.
Context {L : Lib} (settings : Settings).

(** Lines 661-668: the dictionary has no [watermark_text], and its kind is
    image from the start. *)
Definition initial_image_result : gmap string value :=
  <["message" := VStr ""]>
  (<["confidence" := VInt 0]>
  (<["watermark_image_url" := VNone]>
  (<["watermark_type" := VStr "image"]>
  (<["detected" := VBool false]>
  (<["success" := VBool false]> ∅))))).

Definition msg_too_few : string := "提取的图像水印像素太少，可能不包含有效水印".
Definition msg_from_signal : string := "使用DWT系数提取出的图像水印".
Definition msg_image_failed : string := "提取图像水印失败: ".

(** Lines 682-722 and, with the other two confidences, lines 735-777: the
    display copy the metadata names, then its backup. Every assignment of
    [original_watermark_found] is followed by [return result], so the flag
    is false wherever it is tested, and the backup is tried whenever
    [backup_url] is set, also when [original_url] is not. *)
Definition resolve_display (metadata : value) (conf_original conf_backup : Q)
    : M St unit :=
  original_url ← py_get metadata "watermark_image_url" (VStr "");
  backup_url ← py_get metadata "backup_image_url" (VStr "");
  (if truthy original_url then
     image_filename ← strip_static original_url;
     let image_path_check := path_join (STATIC_DIR settings) image_filename in
     found ← in_world (path_exists image_path_check);
     if found : bool then
       set_result "detected" (VBool true);;
       set_result "success" (VBool true);;
       set_result "watermark_type" (VStr "image");;
       set_result "watermark_image_url" original_url;;
       set_result "confidence" (VFloat conf_original);;
       set_result "message" (VStr msg_original);;
       return_
     else mret tt
   else mret tt);;
  if truthy backup_url then
    backup_filename ← strip_static backup_url;
    let backup_static_path := path_join (STATIC_DIR settings) backup_filename in
    in_static ← in_world (path_exists backup_static_path);
    (if negb in_static then
       let backup_processed_path :=
         path_join (PROCESSED_DIR settings) backup_filename in
       in_processed ← in_world (path_exists backup_processed_path);
       if in_processed : bool then
         in_world makedirs;;
         in_world (copy2 backup_processed_path backup_static_path)
       else mret tt
     else mret tt);;
    found ← in_world (path_exists backup_static_path);
    if found : bool then
      set_result "watermark_image_url" backup_url;;
      set_result "detected" (VBool true);;
      set_result "success" (VBool true);;
      set_result "watermark_type" (VStr "image");;
      set_result "confidence" (VFloat conf_backup);;
      set_result "message" (VStr msg_backup);;
      return_
    else mret tt
  else mret tt.

(** Lines 677-722: the sidecar file. *)
Definition image_sidecar_part (image_path : string) : M St unit :=
  let metadata_path := image_path +:+ ".metadata" in
  present ← in_world (path_exists metadata_path);
  if present : bool then
    content ← in_world (read_file metadata_path);
    metadata ← lift (of_option (json_loads content) "JSONDecodeError");
    resolve_display metadata (98 # 100) (95 # 100)
  else mret tt.

(** Lines 725-777: the trailer; a marker at offset 0 counts here. *)
Definition image_trailer_part (image_path : string) : M St unit :=
  content ← in_world (read_file image_path);
  let metadata_start := bytes_find content trailer_marker in
  if negb (metadata_start =? -1) then
    let metadata_json :=
      str_drop (Z.to_nat (metadata_start + Z.of_nat (String.length trailer_marker)))
               content in
    embedded_metadata ← lift (of_option (json_loads metadata_json) "JSONDecodeError");
    resolve_display embedded_metadata (95 # 100) (9 # 10)
  else mret tt.

(** Lines 675-779: both under one handler, so that an exception in the
    first skips the second. *)
Definition image_metadata_stage (image_path : string) : M St unit :=
  try_except
    (image_sidecar_part image_path;;
     image_trailer_part image_path)
    (λ e, mret tt).

(** Line 839: [non_zero_pixels < wm_size * wm_size * 0.05]. *)
Definition too_few_pixels (extracted_wm : list (list Z)) (wm_size : Z) : bool :=
  Qlt_bool (inject_Z (count_nonzero extracted_wm))
           (inject_Z (wm_size * wm_size) * (5 # 100)).

(** Lines 782-870: extraction from the signal. *)
Definition image_signal_stage (image_path : string) : M St unit :=
  img ← in_world (imread imdecode_color image_path);
  match img with
  | None =>
      set_result "message" (VStr (msg_unreadable +:+ image_path));;
      return_
  | Some img =>
      signal ← lift (signal_of img);
      let extracted_wm := signal.1 in
      let wm_size := signal.2 in
      if too_few_pixels extracted_wm wm_size then
        set_result "message" (VStr msg_too_few);;
        return_
      else
        extracted_id ← in_world uuid4;
        let extracted_wm_filename := "extracted_wm_" +:+ extracted_id +:+ ".png" in
        let extracted_wm_path :=
          path_join (PROCESSED_DIR settings) extracted_wm_filename in
        display_wm ← lift (resize_nearest extracted_wm 256 256);
        normalized_wm ← lift (normalize_minmax display_wm);
        in_world (imwrite extracted_wm_path (Gray normalized_wm));;
        in_world makedirs;;
        let static_filename := basename extracted_wm_path in
        let static_path := path_join (STATIC_DIR settings) static_filename in
        in_world (copy2 extracted_wm_path static_path);;
        set_result "detected" (VBool true);;
        set_result "success" (VBool true);;
        set_result "watermark_type" (VStr "image");;
        set_result "watermark_image_url" (VStr ("/static/" +:+ static_filename));;
        set_result "confidence" (VFloat (7 # 10));;
        set_result "message" (VStr msg_from_signal);;
        return_
  end.

(** Lines 670-876. *)
Definition extract_image_body (image_path : string) : M St unit :=
  try_except
    (image_metadata_stage image_path;;
     image_signal_stage image_path)
    (λ e,
       set_result "message" (VStr (msg_image_failed +:+ e));;
       return_).

Definition extract_watermark_image (image_path : string) (w : World)
    : World * gmap string value :=
  let s := (extract_image_body image_path
              {| world := w; result := initial_image_result |}).1 in
  (world s, result s).

(** Lines 878-899: the entry points kept for the DCT routes. *)
Definition embed_dct_watermark (image_path : string) (watermark_text : option text)
    (watermark_image_path : option string) (alpha : Q) (output_path : option string)
    : M World string :=
  embed_watermark settings image_path watermark_text watermark_image_path alpha
    output_path.

Definition extract_dct_watermark (image_path : string) (w : World)
    : World * gmap string value :=
  extract_watermark settings image_path w.
End image_recovery.

(** The six keys of the dictionary [extract_watermark_image] returns. *)
Definition image_result_keys : gset string :=
  {[ "success"; "detected"; "watermark_type"; "watermark_image_url";
     "confidence"; "message" ]}.

(** ** Notions the statements about the image-only recovery use *)

(** No source has answered yet: the dictionary is the initial one, up to
    its message. *)
Definition image_pending (r : gmap string value) : Prop :=
  dom r = image_result_keys ∧
  r !! "detected" = Some (VBool false) ∧
  r !! "success" = Some (VBool false) ∧
  r !! "confidence" = Some (VInt 0) ∧
  r !! "watermark_type" = Some (VStr "image") ∧
  r !! "watermark_image_url" = Some VNone.

(** A positive answer of confidence [c] that names [url]. *)
Definition image_found (c : Q) (url : string) (r : gmap string value) : Prop :=
  dom r = image_result_keys ∧
  r !! "detected" = Some (VBool true) ∧
  r !! "success" = Some (VBool true) ∧
  r !! "confidence" = Some (VFloat c) ∧
  r !! "watermark_type" = Some (VStr "image") ∧
  r !! "watermark_image_url" = Some (VStr url).

Section image_hits.
Context {L : Lib} (settings : Settings).

(** How a metadata dictionary ends an image-only recovery started in world
    [w]: on the display copy it names, or on the backup it names. *)
Inductive display_resolved (d : gmap string value) (conf_original conf_backup : Q)
    (w : World) (s' : St) : Prop :=
  | display_original (url : string) :
      d !! "watermark_image_url" = Some (VStr url) →
      file_exists w (static_path settings url) →
      world s' = w →
      image_found conf_original url (result s') →
      result s' !! "message" = Some (VStr msg_original) →
      display_resolved d conf_original conf_backup w s'
  | display_backup (backup_url : string) :
      d !! "backup_image_url" = Some (VStr backup_url) →
      (∀ url, d !! "watermark_image_url" = Some (VStr url) →
         url = "" ∨ ¬ file_exists w (static_path settings url)) →
      file_exists w (static_path settings backup_url)
        ∨ file_exists w (processed_path settings backup_url) →
      file_exists (world s') (static_path settings backup_url) →
      image_found conf_backup backup_url (result s') →
      result s' !! "message" = Some (VStr msg_backup) →
      display_resolved d conf_original conf_backup w s'.

(** The metadata of the trailer as [extract_watermark_image] reads it: a
    marker at offset 0 counts. *)
Definition image_trailer_metadata (w : World) (image_path : string) : option value :=
  content ← files w !! image_path;
  let pos := bytes_find content trailer_marker in
  if negb (pos =? -1)
  then json_loads
         (str_drop (Z.to_nat (pos + Z.of_nat (String.length trailer_marker))) content)
  else None.

(** How the metadata stage ends an image-only recovery. *)
Inductive image_metadata_hit (image_path : string) (w : World) (s' : St) : Prop :=
  | image_sidecar_hit (d : gmap string value) :
      sidecar_metadata w image_path = Some (VDict d) →
      display_resolved d (98 # 100) (95 # 100) w s' →
      image_metadata_hit image_path w s'
  | image_trailer_hit (d : gmap string value) :
      (∀ content, files w !! (image_path +:+ ".metadata") = Some content →
         ∃ d0, json_loads content = Some (VDict d0)) →
      image_trailer_metadata w image_path = Some (VDict d) →
      display_resolved d (95 # 100) (9 # 10) w s' →
      image_metadata_hit image_path w s'.

(** How the signal stage ends an image-only recovery whose result was [r]. *)
Inductive image_signal_answer (image_path : string) (w : World)
    (r : gmap string value) (s' : St) : Prop :=
  | image_unreadable :
      files w !! image_path ≫= imdecode_color = None →
      world s' = w →
      result s' = <["message" := VStr (msg_unreadable +:+ image_path)]> r →
      image_signal_answer image_path w r s'
  | image_too_few (img : ndarray) (extracted_wm : list (list Z)) (wm_size : Z) :
      files w !! image_path ≫= imdecode_color = Some img →
      signal_of img = Ok (extracted_wm, wm_size) →
      too_few_pixels extracted_wm wm_size = true →
      world s' = w →
      result s' = <["message" := VStr msg_too_few]> r →
      image_signal_answer image_path w r s'
  | image_from_signal (img : ndarray) (extracted_wm : list (list Z)) (wm_size : Z)
      (static_filename : string) :
      files w !! image_path ≫= imdecode_color = Some img →
      signal_of img = Ok (extracted_wm, wm_size) →
      too_few_pixels extracted_wm wm_size = false →
      has_slash static_filename = false →
      file_exists (world s') (path_join (STATIC_DIR settings) static_filename) →
      image_found (7 # 10) ("/static/" +:+ static_filename) (result s') →
      result s' !! "message" = Some (VStr msg_from_signal) →
      image_signal_answer image_path w r s'.
End image_hits.

Section image_orchestration.
Context {L : Lib} (settings : Settings).

(** The state in which an image-only recovery starts, and the runs of its
    two stages. *)
Definition start_image (w : World) : St :=
  {| world := w; result := initial_image_result |}.

Definition after_image_metadata (image_path : string) (w : World) : St * outcome unit :=
  image_metadata_stage settings image_path (start_image w).

Definition after_image_signal (image_path : string) (w : World) : St * outcome unit :=
  image_signal_stage settings image_path (after_image_metadata image_path w).1.
End image_orchestration.

(** ** The sibling engine: blind recovery of a text

    [backend/invisible_watermark_fixed.py] reads the diagonal of the band
    back into bytes. Its text path of [_prepare_watermark_data] is that of
    the service ([text_matrix]), and its embedding loop is
    [embed_cells_fixed]. *)










(** ** The API's locator of a result: [get_file_url] *)

Section api.
Context (settings : Settings).

(** Lines 119-143 of [app/api/watermark_api.py]. [base_url] is computed
    and not used, and neither is the identifier drawn for the timestamp. *)
Definition get_file_url (file_path : string) : M World string :=
  if String.eqb file_path "" then mret ""
  else
    let filename := basename file_path in
    timestamp ← uuid4;
    if String.prefix (PROCESSED_DIR settings) file_path
    then mret ("/static/" +:+ filename)
    else mret ("/images/" +:+ filename).
End api.

(** The identifiers a run can draw are those of the world it starts in. *)
Definition keeps_entropy {A} (m : M World A) : Prop :=
  ∀ w, entropy (m w).1 = entropy w.

(** A library whose parser also knows a document that names a backup copy
    and no original, and one of kind image that holds a text and no
    locator. *)
Module ToyBackup.
Definition backup_document : list (string * string) :=
  [("watermark_type", "image");
   ("backup_image_url", "/static/backup_watermark_u0.png")].
Definition retagged_document : list (string * string) :=
  [("watermark_type", "image"); ("watermark_text", "hi")].

Definition loads (s : string) : option value :=
  if String.eqb s (Toy.json_object backup_document)
  then Some (VDict (Toy.dict_of backup_document))
  else if String.eqb s (Toy.json_object retagged_document)
  then Some (VDict (Toy.dict_of retagged_document))
  else Toy.loads s.

Definition lib : Lib := {|
  json_loads := loads;
  json_dump_indent := Toy.dumps;
  json_dumps := Toy.dumps;
  imdecode_color := Toy.decode;
  imdecode_unchanged := Toy.decode;
  imencode := λ path img, Some "PNG";
  cvtColor_gray2bgr := Toy.gray2bgr;
  cvtColor_bgr2gray := Toy.bgr2gray;
  normalize_minmax := Ok;
  resize_nearest := Toy.nearest;
  resize_linear := Toy.linear;
  render_preview := λ m, Ok (Gray m);
  details := list (list Q) * list (list Q);
  wavedec2 := Toy.dec;
  waverec2 := Toy.rec;
|}.
End ToyBackup.

(** A library whose transform gives a band of loud coefficients, as no
    8-bit image does with one Haar level. *)
Module ToyLoud.
Definition dec (m : list (list Q))
    : res (list (list Q) * (list (list Q) * list (list Q))) :=
  Ok (replicate 4 (replicate 4 1000%Q), (m, Toy.haar_ll m)).

Definition lib : Lib := {|
  json_loads := Toy.loads;
  json_dump_indent := Toy.dumps;
  json_dumps := Toy.dumps;
  imdecode_color := Toy.decode;
  imdecode_unchanged := Toy.decode;
  imencode := λ path img, Some "PNG";
  cvtColor_gray2bgr := Toy.gray2bgr;
  cvtColor_bgr2gray := Toy.bgr2gray;
  normalize_minmax := Ok;
  resize_nearest := Toy.nearest;
  resize_linear := Toy.linear;
  render_preview := λ m, Ok (Gray m);
  details := list (list Q) * list (list Q);
  wavedec2 := dec;
  waverec2 := Toy.rec;
|}.
End ToyLoud.

(** ** Notions the statements about the copies of a reference image use *)

(** The metadata names the two copies made of a reference image in world
    [w], one identifier in both names, and carries no text. *)
Definition names_copies (w : World) (metadata : gmap string value) : Prop :=
  metadata !! "watermark_type" = Some (VStr "image") ∧
  metadata !! "watermark_image_url"
    = Some (VStr ("/static/" +:+ "original_watermark_" +:+ entropy w (drawn w) +:+ ".png")) ∧
  metadata !! "backup_image_url"
    = Some (VStr ("/static/" +:+ "backup_watermark_" +:+ entropy w (drawn w) +:+ ".png")) ∧
  metadata !! "watermark_text" = None.

(** The display copy and the backup made in world [w] exist in world [w']. *)
Definition copies_exist (settings : Settings) (w w' : World) : Prop :=
  file_exists w' (path_join (STATIC_DIR settings)
                    ("original_watermark_" +:+ entropy w (drawn w) +:+ ".png")) ∧
  file_exists w' (path_join (PROCESSED_DIR settings)
                    ("backup_watermark_" +:+ entropy w (drawn w) +:+ ".png")).

(* ===================================================================== *)
(** * Properties *)
(* ===================================================================== *)

Example utf8_ascii : utf8_encode [104; 105] = Ok [104; 105].
Proof. reflexivity. Qed.

Example utf8_cjk : utf8_encode [0x6C34] = Ok [0xE6; 0xB0; 0xB4].
Proof. reflexivity. Qed.

Example str_replace_static :
  str_replace "/static/original_watermark_1.png" "/static/" "" = "original_watermark_1.png".
Proof. reflexivity. Qed.

Example bytes_find_hit : bytes_find "xxWATERMARK_METADATA:{}" "WATERMARK_METADATA:" = 2.
Proof. reflexivity. Qed.

Example path_join_rel : path_join "/srv/static" "a.png" = "/srv/static/a.png".
Proof. reflexivity. Qed.

Example text_matrix_hi :
  text_matrix [104; 105] 4 = Ok [[0;0;0;0]; [0;104;0;0]; [0;0;105;0]; [0;0;0;0]].
Proof. reflexivity. Qed.

(** ** Loops and arrays *)

Lemma for_range_from_inv {S : Type} (I : nat → S → Prop) (body : nat → S → res S) :
  ∀ n start s,
    I start s →
    (∀ i t, (start ≤ i < start + n)%nat → I i t →
       ∃ t', body i t = Ok t' ∧ I (Datatypes.S i) t') →
    ∃ s', for_range_from start n body s = Ok s' ∧ I (start + n)%nat s'.
Proof.
  induction n as [|n IH]; intros start s Hs Hbody; simpl.
  - exists s. by rewrite Nat.add_0_r.
  - destruct (Hbody start s) as (t' & -> & Ht'); [lia|done|].
    destruct (IH (Datatypes.S start) t') as (s' & -> & Hs'); [done| |].
    + intros i t Hi Ht. apply Hbody; [lia|done].
    + exists s'. split; [done|]. by replace (start + Datatypes.S n)%nat
        with (Datatypes.S start + n)%nat by lia.
Qed.

Lemma for_range_inv {S : Type} (I : nat → S → Prop) (body : nat → S → res S) n s :
  I O s →
  (∀ i t, (i < n)%nat → I i t → ∃ t', body i t = Ok t' ∧ I (Datatypes.S i) t') →
  ∃ s', for_range n body s = Ok s' ∧ I n s'.
Proof.
  intros Hs Hbody.
  destruct (for_range_from_inv I body n O s) as (s' & Hrun & Hs'); [done| |by exists s'].
  intros i t Hi. apply Hbody. lia.
Qed.

Lemma np_index_nat n k : (k < n)%nat → np_index n (Z.of_nat k) = Ok k.
Proof.
  intros Hk. unfold np_index.
  replace (0 <=? Z.of_nat k) with true by (symmetry; apply Z.leb_le; lia).
  replace (Z.of_nat k <? Z.of_nat n) with true by (symmetry; apply Z.ltb_lt; lia).
  simpl. by rewrite Nat2Z.id.
Qed.

Section matrix_facts.
Context {A : Type}.
Implicit Types (m : list (list A)) (row : list A).

Lemma rect_shape0 h w m : rect h w m → shape0 m = h.
Proof. by intros [? _]. Qed.

Lemma rect_row h w m r :
  rect h w m → (r < h)%nat → ∃ row, m !! r = Some row ∧ length row = w.
Proof.
  intros [Hlen Hrows] Hr.
  destruct (lookup_lt_is_Some_2 m r) as [row Hrow]; [lia|].
  exists row. split; [done|].
  rewrite Forall_forall in Hrows. apply Hrows.
  apply list_elem_of_lookup. by exists r.
Qed.

Lemma rect_shape1 h w m : rect h w m → (0 < h)%nat → shape1 m = w.
Proof.
  intros Hm Hh. destruct (rect_row h w m O Hm Hh) as (row & Hrow & Hlen).
  destruct m; simplify_eq/=. done.
Qed.

Lemma rect_cell h w m r c :
  rect h w m → (r < h)%nat → (c < w)%nat → is_Some (cell m r c).
Proof.
  intros Hm Hr Hc. destruct (rect_row h w m r Hm Hr) as (row & Hrow & Hlen).
  unfold cell. rewrite Hrow. simpl. apply lookup_lt_is_Some_2. lia.
Qed.

Lemma mat_get_cell h w m r c :
  rect h w m → (r < h)%nat → (c < w)%nat →
  ∃ v, cell m r c = Some v ∧ mat_get m (Z.of_nat r) (Z.of_nat c) = Ok v.
Proof.
  intros Hm Hr Hc. destruct (rect_cell h w m r c Hm Hr Hc) as [v Hv].
  exists v. split; [done|]. unfold mat_get.
  rewrite (rect_shape0 h w m Hm), (rect_shape1 h w m Hm) by lia.
  rewrite !np_index_nat by done. simpl.
  unfold cell in Hv. by rewrite Hv.
Qed.

Lemma mat_set_cell h w m r c v :
  rect h w m → (r < h)%nat → (c < w)%nat →
  ∃ m', mat_set m (Z.of_nat r) (Z.of_nat c) v = Ok m' ∧ rect h w m' ∧
        ∀ r' c', cell m' r' c' =
                 if decide (r' = r ∧ c' = c) then Some v else cell m r' c'.
Proof.
  intros Hm Hr Hc. destruct (rect_row h w m r Hm Hr) as (row & Hrow & Hlen).
  exists (<[r := <[c := v]> row]> m). split; [|split].
  - unfold mat_set.
    rewrite (rect_shape0 h w m Hm), (rect_shape1 h w m Hm) by lia.
    rewrite !np_index_nat by done. simpl. by rewrite Hrow.
  - destruct Hm as [Hh Hrows]. split; [by rewrite length_insert|].
    apply Forall_insert; [done|]. by rewrite length_insert.
  - intros r' c'. unfold cell.
    destruct (decide (r' = r)) as [->|Hne].
    + rewrite list_lookup_insert_eq by (destruct Hm; lia). simpl.
      destruct (decide (c' = c)) as [->|Hnc].
      * rewrite list_lookup_insert_eq by lia.
        rewrite decide_True; done.
      * rewrite list_lookup_insert_ne by done.
        rewrite decide_False by (intros [_ ?]; congruence). by rewrite Hrow.
    + rewrite list_lookup_insert_ne by done.
      rewrite decide_False; [done|]. intros [? _]; congruence.
Qed.

(** Two rectangular matrices with the same cells are the same matrix. *)
Lemma rect_ext h w m1 m2 :
  rect h w m1 → rect h w m2 →
  (∀ r c, (r < h)%nat → (c < w)%nat → cell m1 r c = cell m2 r c) →
  m1 = m2.
Proof.
  intros H1 H2 Hcells. apply list_eq. intros r.
  destruct (decide (r < h)%nat) as [Hr|Hr].
  - destruct (rect_row h w m1 r H1 Hr) as (row1 & Hrow1 & Hl1).
    destruct (rect_row h w m2 r H2 Hr) as (row2 & Hrow2 & Hl2).
    rewrite Hrow1, Hrow2. f_equal. apply list_eq. intros c.
    destruct (decide (c < w)%nat) as [Hc|Hc].
    + specialize (Hcells r c Hr Hc). unfold cell in Hcells.
      by rewrite Hrow1, Hrow2 in Hcells.
    + rewrite !lookup_ge_None_2 by lia. done.
  - destruct H1 as [Hh1 _], H2 as [Hh2 _].
    rewrite !lookup_ge_None_2 by lia. done.
Qed.
End matrix_facts.

Lemma np_zeros_rect h w :
  0 ≤ h → 0 ≤ w →
  ∃ m, np_zeros h w = Ok m ∧ rect (Z.to_nat h) (Z.to_nat w) m ∧
       ∀ r c, (r < Z.to_nat h)%nat → (c < Z.to_nat w)%nat → cell m r c = Some 0.
Proof.
  intros Hh Hw. unfold np_zeros.
  replace (h <? 0) with false by (symmetry; apply Z.ltb_ge; lia).
  replace (w <? 0) with false by (symmetry; apply Z.ltb_ge; lia).
  simpl. eexists. split; [done|]. split.
  - split; [by rewrite length_replicate|].
    apply Forall_replicate. by rewrite length_replicate.
  - intros r c Hr Hc. unfold cell.
    rewrite lookup_replicate_2 by done. simpl. by rewrite lookup_replicate_2.
Qed.

(** ** The text path of the payload encoder *)

Lemma center_start_nat (size : Z) (len : nat) :
  0 ≤ size →
  center_start size (Z.of_nat len) = Z.of_nat (diag_start (Z.to_nat size) len).
Proof.
  intros Hsize. unfold center_start, diag_start.
  destruct (Z.ltb_spec (Z.of_nat len) size); case_decide; try lia.
  rewrite Nat2Z.inj_div, Nat2Z.inj_sub by lia. f_equal. lia.
Qed.

Lemma diag_start_fits size len i :
  (i < len)%nat → (i < size)%nat → (diag_start size len + i < size)%nat.
Proof.
  intros Hi Hs. unfold diag_start. case_decide; [|lia].
  assert ((size - len) / 2 ≤ size - len)%nat by (apply Nat.Div0.div_le_upper_bound; lia).
  lia.
Qed.

Lemma fill_diagonal_cells (size : Z) (text_bytes : list Z) (zeros : list (list Z)) :
  0 ≤ size →
  let n := Z.to_nat size in
  let len := length text_bytes in
  let start := diag_start n len in
  rect n n zeros →
  (∀ r c, (r < n)%nat → (c < n)%nat → cell zeros r c = Some 0) →
  ∃ watermark,
    fill_diagonal size text_bytes zeros = Ok watermark ∧
    rect n n watermark ∧
    ∀ r c, (r < n)%nat → (c < n)%nat →
      cell watermark r c =
        Some (if decide (r = c ∧ start ≤ r < start + Nat.min len n)%nat
              then default 0 (text_bytes !! (r - start)%nat) else 0).
Proof.
  intros Hsize n len start Hrect Hzero. unfold fill_diagonal.
  replace (Z.to_nat (Z.min (Z.of_nat (length text_bytes)) size))
    with (Nat.min len n) by (subst len n; lia).
  set (I := λ (k : nat) (m : list (list Z)),
    rect n n m ∧
    ∀ r c, (r < n)%nat → (c < n)%nat →
      cell m r c = Some (if decide (r = c ∧ start ≤ r < start + k)%nat
                         then default 0 (text_bytes !! (r - start)%nat) else 0)).
  destruct (for_range_inv I
    (λ i watermark,
       let row := center_start size (Z.of_nat (length text_bytes)) + Z.of_nat i in
       if row <? size
       then b ← of_option (text_bytes !! i) "IndexError"; mat_set watermark row row b
       else Ok watermark) (Nat.min len n) zeros) as (m & Hrun & Hm & Hcells).
  - split; [done|]. intros r c Hr Hc. rewrite Hzero by done.
    by rewrite decide_False by lia.
  - intros i m Hi [Hm Hcells]. simpl.
    rewrite center_start_nat by done. fold n len start.
    assert (start + i < n)%nat as Hfit by (apply diag_start_fits; lia).
    rewrite <- Nat2Z.inj_add.
    replace (Z.of_nat (start + i) <? size) with true
      by (symmetry; apply Z.ltb_lt; lia).
    destruct (lookup_lt_is_Some_2 text_bytes i) as [b Hb]; [lia|].
    rewrite Hb. simpl.
    destruct (mat_set_cell n n m (start + i) (start + i) b Hm Hfit Hfit)
      as (m' & -> & Hm' & Hset).
    exists m'. split; [done|]. split; [done|].
    intros r c Hr Hc. rewrite Hset, Hcells by done.
    destruct (decide (r = (start + i)%nat ∧ c = (start + i)%nat)) as [[-> ->]|Hne].
    + rewrite decide_True by lia.
      replace (start + i - start)%nat with i by lia. by rewrite Hb.
    + destruct (decide (r = c ∧ (start ≤ r < start + i)%nat)) as [[-> ?]|Hout].
      * by rewrite decide_True by lia.
      * by rewrite decide_False by lia.
  - exists m. done.
Qed.

(** C8. The text path UTF-8-encodes the string and puts byte [i] on the
    diagonal at offset [(size - byteLength)/2 + i] when the bytes are fewer
    than the matrix side (at offset [i] otherwise); bytes at index [size]
    and beyond are dropped; every other cell is zero; and encoding the same
    text again gives the same matrix. *)
Theorem text_matrix_diagonal (watermark_text : text) (max_size : Z) (text_bytes : list Z) :
  utf8_encode watermark_text = Ok text_bytes →
  0 ≤ max_size →
  let size := Z.to_nat (Z.min max_size 32) in
  let len := length text_bytes in
  ∃ watermark,
    text_matrix watermark_text max_size = Ok watermark ∧
    rect size size watermark ∧
    (* shorter than the side: centred on the diagonal *)
    ((len < size)%nat → ∀ i, (i < len)%nat →
       cell watermark ((size - len) / 2 + i) ((size - len) / 2 + i) = text_bytes !! i) ∧
    (* otherwise from the corner, truncated at the side *)
    ((size ≤ len)%nat → ∀ i, (i < size)%nat → cell watermark i i = text_bytes !! i) ∧
    (* every other cell is zero *)
    (∀ r c, (r < size)%nat → (c < size)%nat →
       ¬ (r = c ∧ diag_start size len ≤ r < diag_start size len + Nat.min len size)%nat →
       cell watermark r c = Some 0) ∧
    (* the dropped bytes have no influence on the matrix *)
    (∀ other other_bytes,
       utf8_encode other = Ok other_bytes →
       (size ≤ len)%nat → (size ≤ length other_bytes)%nat →
       take size other_bytes = take size text_bytes →
       text_matrix other max_size = Ok watermark) ∧
    (* a second encode of the same text *)
    (∀ again, text_matrix watermark_text max_size = Ok again → again = watermark).
Proof.
  intros Henc Hmax size len.
  assert (0 ≤ Z.min max_size 32) as Hsize by lia.
  destruct (np_zeros_rect _ _ Hsize Hsize) as (zeros & Hz & Hzrect & Hzcells).
  destruct (fill_diagonal_cells _ text_bytes zeros Hsize Hzrect Hzcells)
    as (watermark & Hfill & Hrect & Hcells).
  fold size len in Hrect, Hcells, Hzrect, Hzcells.
  assert (text_matrix watermark_text max_size = Ok watermark) as Hrun.
  { unfold text_matrix. rewrite Henc. simpl. rewrite Hz. simpl. done. }
  exists watermark. split; [done|]. split; [done|].
  split; [|split; [|split; [|split]]].
  - intros Hshort i Hi.
    assert (diag_start size len = ((size - len) / 2)%nat) as Hstart
      by (unfold diag_start; by rewrite decide_True).
    pose proof (diag_start_fits size len i Hi ltac:(lia)) as Hfit.
    rewrite Hstart in Hfit. rewrite Hcells, Hstart by done.
    rewrite decide_True by lia.
    replace ((size - len) / 2 + i - (size - len) / 2)%nat with i by lia.
    destruct (lookup_lt_is_Some_2 text_bytes i) as [b Hb]; [done|]. by rewrite Hb.
  - intros Hlong i Hi.
    assert (diag_start size len = O) as Hstart
      by (unfold diag_start; by rewrite decide_False by lia).
    rewrite Hcells, Hstart by done. rewrite decide_True by lia.
    replace (i - 0)%nat with i by lia.
    destruct (lookup_lt_is_Some_2 text_bytes i) as [b Hb]; [lia|]. by rewrite Hb.
  - intros r c Hr Hc Hout. rewrite Hcells by done. by rewrite decide_False.
  - intros other other_bytes Hother Hlong Hlong' Htake.
    destruct (fill_diagonal_cells _ other_bytes zeros Hsize Hzrect Hzcells)
      as (watermark' & Hfill' & Hrect' & Hcells').
    fold size in Hrect', Hcells'.
    unfold text_matrix. rewrite Hother. simpl. rewrite Hz. simpl.
    rewrite Hfill'. f_equal.
    apply (rect_ext size size); [done|done|].
    intros r c Hr Hc. rewrite Hcells, Hcells' by done. f_equal.
    assert (diag_start size len = O) as ->
      by (unfold diag_start; by rewrite decide_False by lia).
    assert (diag_start size (length other_bytes) = O) as ->
      by (unfold diag_start; by rewrite decide_False by lia).
    replace (Nat.min (length other_bytes) size) with size by lia.
    replace (Nat.min len size) with size by lia.
    case_decide; [|done].
    replace (r - 0)%nat with r by lia.
    rewrite <- (lookup_take_lt other_bytes size r) by lia.
    rewrite <- (lookup_take_lt text_bytes size r) by lia.
    by rewrite Htake.
  - intros again Hagain. congruence.
Qed.

Lemma text_matrix_diagonal_witness :
  ∃ watermark,
    text_matrix [104; 105] 32 = Ok watermark ∧
    cell watermark 15 15 = Some 104 ∧ cell watermark 16 16 = Some 105 ∧
    cell watermark 15 16 = Some 0.
Proof.
  destruct (text_matrix_diagonal [104; 105] 32 [104; 105] eq_refl ltac:(lia))
    as (watermark & Hrun & _ & Hshort & _ & Hzero & _).
  exists watermark. split; [exact Hrun|].
  split; [exact (Hshort ltac:(simpl; lia) O ltac:(simpl; lia))|].
  split; [exact (Hshort ltac:(simpl; lia) 1%nat ltac:(simpl; lia))|].
  apply Hzero; simpl; lia.
Defined.

(** ** Nested loops over a window of a matrix *)

Lemma for_grid_inv {S : Type} (I : nat → nat → S → Prop)
    (body : nat → nat → S → res S) (h w : nat) (s : S) :
  I O O s →
  (∀ i j t, (i < h)%nat → (j < w)%nat → I i j t →
     ∃ t', body i j t = Ok t' ∧ I i (Datatypes.S j) t') →
  (∀ i t, (i < h)%nat → I i w t → I (Datatypes.S i) O t) →
  ∃ s', for_range h (λ i t, for_range w (λ j t, body i j t) t) s = Ok s' ∧ I h O s'.
Proof.
  intros Hs Hcell Hrow.
  apply (for_range_inv (λ i t, I i O t)); [done|].
  intros i t Hi Ht.
  destruct (for_range_inv (λ j t, I i j t) (λ j t, body i j t) w t)
    as (t' & Hrun & Ht'); [done| |].
  - intros j u Hj Hu. by apply Hcell.
  - exists t'. split; [done|]. by apply Hrow.
Qed.

(** A loop whose body rewrites the cell of the state under [(i, j)] with
    [upd i j] rewrites exactly the window, each cell once. *)
Lemma window_loop_cells {A : Type} (d : A) (upd : nat → nat → A → A)
    (body : nat → nat → list (list A) → res (list (list A)))
    (H W rh rw ho wo : nat) (m : list (list A)) :
  rect H W m →
  (ho + rh ≤ H)%nat → (wo + rw ≤ W)%nat →
  (∀ i j t, (i < rh)%nat → (j < rw)%nat → rect H W t →
     ∃ t', body i j t = Ok t' ∧ rect H W t' ∧
       ∀ r c, cell t' r c =
         if decide (r = (ho + i)%nat ∧ c = (wo + j)%nat)
         then Some (upd i j (default d (cell t r c))) else cell t r c) →
  ∃ m',
    for_range rh (λ i t, for_range rw (λ j t, body i j t) t) m = Ok m' ∧
    rect H W m' ∧
    ∀ r c, (r < H)%nat → (c < W)%nat →
      cell m' r c =
        Some (if decide (in_window ho wo rh rw r c)
              then upd (r - ho)%nat (c - wo)%nat (default d (cell m r c))
              else default d (cell m r c)).
Proof.
  intros Hm Hh Hw Hbody.
  set (done_ := λ (i j r c : nat),
    (in_window ho wo rh rw r c ∧ (r - ho < i ∨ (r - ho = i ∧ c - wo < j)))%nat).
  set (I := λ (i j : nat) (t : list (list A)),
    rect H W t ∧
    ∀ r c, (r < H)%nat → (c < W)%nat →
      cell t r c =
        Some (if decide (done_ i j r c)
              then upd (r - ho)%nat (c - wo)%nat (default d (cell m r c))
              else default d (cell m r c))).
  destruct (for_grid_inv I body rh rw m) as (m' & Hrun & Hrect & Hcells).
  - split; [done|]. intros r c Hr Hc.
    rewrite decide_False by (unfold done_; lia).
    by destruct (rect_cell H W m r c Hm Hr Hc) as [v ->].
  - intros i j t Hi Hj [Ht Hcells].
    destruct (Hbody i j t Hi Hj Ht) as (t' & Hrun & Ht' & Hset).
    exists t'. split; [done|]. split; [done|].
    intros r c Hr Hc. rewrite Hset.
    destruct (decide (r = (ho + i)%nat ∧ c = (wo + j)%nat)) as [[-> ->]|Hne].
    + rewrite decide_True by (unfold done_, in_window; lia).
      rewrite Hcells by lia.
      rewrite decide_False by (unfold done_; lia). simpl.
      by replace (ho + i - ho)%nat with i by lia;
         replace (wo + j - wo)%nat with j by lia.
    + rewrite Hcells by done.
      destruct (decide (done_ i j r c)) as [Hd|Hd].
      * by rewrite decide_True by (unfold done_, in_window in *; lia).
      * by rewrite decide_False by (unfold done_, in_window in *; lia).
  - intros i t Hi [Ht Hcells]. split; [done|].
    intros r c Hr Hc. rewrite Hcells by done.
    destruct (decide (done_ i rw r c)) as [Hd|Hd].
    + by rewrite decide_True by (unfold done_, in_window in *; lia).
    + by rewrite decide_False by (unfold done_, in_window in *; lia).
  - exists m'. split; [done|]. split; [done|].
    intros r c Hr Hc. rewrite Hcells by done.
    destruct (decide (in_window ho wo rh rw r c)) as [Hd|Hd].
    + by rewrite decide_True by (unfold done_, in_window in *; lia).
    + by rewrite decide_False by (unfold done_; tauto).
Qed.

(** ** The embedding loops *)

Lemma window_offset_nat (side inner : nat) :
  (inner ≤ side)%nat →
  window_offset (Z.of_nat side) (Z.of_nat inner) = Z.of_nat ((side - inner) / 2).
Proof.
  intros Hle. unfold window_offset.
  rewrite Nat2Z.inj_div, Nat2Z.inj_sub by lia. done.
Qed.

Lemma window_fits (side inner : nat) :
  (inner ≤ side)%nat → ((side - inner) / 2 + inner ≤ side)%nat.
Proof.
  intros Hle.
  assert ((side - inner) / 2 ≤ side - inner)%nat
    by (apply Nat.Div0.div_le_upper_bound; lia).
  lia.
Qed.

Lemma window_end_nat (side inner : nat) :
  (inner ≤ side)%nat →
  window_end (Z.of_nat side) (Z.of_nat ((side - inner) / 2)) (Z.of_nat inner)
  = Z.of_nat ((side - inner) / 2 + inner).
Proof.
  intros Hle. unfold window_end. pose proof (window_fits side inner Hle). lia.
Qed.

Lemma Qlt_bool_true (a b : Q) : Qlt_bool a b = true ↔ (a < b)%Q.
Proof.
  unfold Qlt_bool. rewrite negb_true_iff. split.
  - intros Hf. apply Qnot_le_lt. intros Hle.
    apply Qle_bool_iff in Hle. congruence.
  - intros Hlt. destruct (Qle_bool b a) eqn:Hle; [|done].
    apply Qle_bool_iff in Hle. lra.
Qed.

Lemma Qlt_bool_false (a b : Q) : Qlt_bool a b = false ↔ (b <= a)%Q.
Proof.
  unfold Qlt_bool. rewrite negb_false_iff. apply Qle_bool_iff.
Qed.

Lemma py_min_spec (a b : Q) :
  ((b < a)%Q ∧ py_min a b = b) ∨ ((a <= b)%Q ∧ py_min a b = a).
Proof.
  unfold py_min. destruct (Qlt_bool b a) eqn:Hlt.
  - left. by apply Qlt_bool_true in Hlt.
  - right. by apply Qlt_bool_false in Hlt.
Qed.





Section embed_loop.
Context (H W rh rw ho wo : nat).
Context (watermark_resized : list (list Z)).
Hypothesis wm_rect : rect rh rw watermark_resized.
Hypothesis fits_h : (ho + rh ≤ H)%nat.
Hypothesis fits_w : (wo + rw ≤ W)%nat.

Lemma embed_cell_step i j (t : list (list Q)) :
  (i < rh)%nat → (j < rw)%nat → rect H W t →
  ∃ t',
    embed_cell watermark_resized (Z.of_nat ho) (Z.of_nat wo)
      (Z.of_nat (ho + rh)) (Z.of_nat (wo + rw)) i j t = Ok t' ∧
    rect H W t' ∧
    ∀ r c, cell t' r c =
      if decide (r = (ho + i)%nat ∧ c = (wo + j)%nat)
      then Some (embedded_value (coef t r c) (wm_cell watermark_resized i j))
      else cell t r c.
Proof.
  intros Hi Hj Ht. unfold embed_cell.
  replace (Z.of_nat ho + Z.of_nat i <? Z.of_nat (ho + rh)) with true
    by (symmetry; apply Z.ltb_lt; lia).
  replace (Z.of_nat wo + Z.of_nat j <? Z.of_nat (wo + rw)) with true
    by (symmetry; apply Z.ltb_lt; lia).
  simpl.
  destruct (mat_get_cell rh rw watermark_resized i j wm_rect Hi Hj) as (v & Hv & ->).
  simpl. rewrite <- !Nat2Z.inj_add.
  destruct (mat_get_cell H W t (ho + i) (wo + j) Ht) as (o & Ho & Hget); [lia..|].
  unfold embedded_value, wm_cell. rewrite Hv. simpl.
  destruct (0 <? v).
  - rewrite Hget. simpl.
    destruct (mat_set_cell H W t (ho + i) (wo + j)
      (o + py_min (effective_alpha * inject_Z v) (o * (1 # 5)))%Q Ht)
      as (t' & -> & Ht' & Hset); [lia..|].
    exists t'. split; [done|]. split; [done|].
    intros r c. rewrite Hset. case_decide as Hrc; [|done].
    destruct Hrc as [-> ->]. unfold coef. by rewrite Ho.
  - exists t. split; [done|]. split; [done|].
    intros r c. case_decide as Hrc; [|done].
    destruct Hrc as [-> ->]. unfold coef. by rewrite Ho.
Qed.

Lemma embed_cell_fixed_step (p : promotion) i j (t : list (list Q)) :
  (i < rh)%nat → (j < rw)%nat → rect H W t →
  ∃ t',
    embed_cell_fixed p watermark_resized (Z.of_nat ho) (Z.of_nat wo)
      (Z.of_nat (ho + rh)) (Z.of_nat (wo + rw)) i j t = Ok t' ∧
    rect H W t' ∧
    ∀ r c, cell t' r c =
      if decide (r = (ho + i)%nat ∧ c = (wo + j)%nat)
      then Some (embedded_value_fixed p (coef t r c) (wm_cell watermark_resized i j))
      else cell t r c.
Proof.
  intros Hi Hj Ht. unfold embed_cell_fixed.
  replace (Z.of_nat ho + Z.of_nat i <? Z.of_nat (ho + rh)) with true
    by (symmetry; apply Z.ltb_lt; lia).
  replace (Z.of_nat wo + Z.of_nat j <? Z.of_nat (wo + rw)) with true
    by (symmetry; apply Z.ltb_lt; lia).
  simpl.
  destruct (mat_get_cell rh rw watermark_resized i j wm_rect Hi Hj) as (v & Hv & ->).
  simpl. rewrite <- !Nat2Z.inj_add.
  destruct (mat_get_cell H W t (ho + i) (wo + j) Ht) as (o & Ho & Hget); [lia..|].
  unfold embedded_value_fixed, wm_cell. rewrite Hv. simpl.
  destruct (0 <? v).
  - rewrite Hget. simpl.
    destruct (mat_set_cell H W t (ho + i) (wo + j)
      (o + inject_Z (int_times_uint8 p self_alpha v))%Q Ht)
      as (t' & -> & Ht' & Hset); [lia..|].
    exists t'. split; [done|]. split; [done|].
    intros r c. rewrite Hset. case_decide as Hrc; [|done].
    destruct Hrc as [-> ->]. unfold coef. by rewrite Ho.
  - exists t. split; [done|]. split; [done|].
    intros r c. case_decide as Hrc; [|done].
    destruct Hrc as [-> ->]. unfold coef. by rewrite Ho.
Qed.
End embed_loop.

(** The service loop and the fixed loop, run on their centred window. *)
Lemma embed_window_cells (p : promotion) (H W rh rw : nat)
    (ll_band : list (list Q)) (watermark_resized : list (list Z)) :
  rect H W ll_band → rect rh rw watermark_resized →
  (0 < rh ≤ H)%nat → (rw ≤ W)%nat →
  let ho := ((H - rh) / 2)%nat in
  let wo := ((W - rw) / 2)%nat in
  ∃ service fixed,
    embed_window embed_cells ll_band watermark_resized = Ok service ∧
    embed_window (embed_cells_fixed p) ll_band watermark_resized = Ok fixed ∧
    rect H W service ∧ rect H W fixed ∧
    ∀ r c, (r < H)%nat → (c < W)%nat →
      cell service r c =
        Some (if decide (in_window ho wo rh rw r c)
              then embedded_value (coef ll_band r c)
                     (wm_cell watermark_resized (r - ho) (c - wo))
              else coef ll_band r c) ∧
      cell fixed r c =
        Some (if decide (in_window ho wo rh rw r c)
              then embedded_value_fixed p (coef ll_band r c)
                     (wm_cell watermark_resized (r - ho) (c - wo))
              else coef ll_band r c).
Proof.
  intros Hll Hwm Hrh Hrw ho wo.
  pose proof (window_fits H rh ltac:(lia)) as Hfh.
  pose proof (window_fits W rw Hrw) as Hfw.
  unfold embed_window, embed_cells, embed_cells_fixed.
  rewrite (rect_shape0 H W ll_band Hll), (rect_shape1 H W ll_band Hll) by lia.
  rewrite (rect_shape0 rh rw _ Hwm), (rect_shape1 rh rw _ Hwm) by lia.
  rewrite !window_offset_nat, !window_end_nat by lia. fold ho wo.
  destruct (window_loop_cells 0%Q
    (λ i j o, embedded_value o (wm_cell watermark_resized i j))
    (embed_cell watermark_resized (Z.of_nat ho) (Z.of_nat wo)
       (Z.of_nat (ho + rh)) (Z.of_nat (wo + rw)))
    H W rh rw ho wo ll_band Hll Hfh Hfw)
    as (service & Hs & Hsr & Hsc).
  { intros i j t Hi Hj Ht. by apply (embed_cell_step H W rh rw ho wo). }
  destruct (window_loop_cells 0%Q
    (λ i j o, embedded_value_fixed p o (wm_cell watermark_resized i j))
    (embed_cell_fixed p watermark_resized (Z.of_nat ho) (Z.of_nat wo)
       (Z.of_nat (ho + rh)) (Z.of_nat (wo + rw)))
    H W rh rw ho wo ll_band Hll Hfh Hfw)
    as (fixed & Hf & Hfr & Hfc).
  { intros i j t Hi Hj Ht. by apply (embed_cell_fixed_step H W rh rw ho wo). }
  exists service, fixed. do 4 (split; [done|]).
  intros r c Hr Hc. split; [by apply Hsc|by apply Hfc].
Qed.





(** ** The blind extraction loops *)

Lemma py_int_floor (q : Q) : (0 <= q)%Q → py_int q = Qfloor q.
Proof.
  destruct q as [n d]. unfold Qle, py_int, Qfloor. simpl. intros Hn.
  apply Z.quot_div_nonneg; lia.
Qed.

Lemma py_int_nonpos (q : Q) : (q <= 0)%Q → py_int q ≤ 0.
Proof.
  destruct q as [n d]. unfold Qle, py_int. simpl. intros Hn.
  apply Z.quot_le_upper_bound; lia.
Qed.

(** The byte the source computes is the clamped quotient, rounded down. *)
Lemma byte_of_coefficient_clamp (c : Q) :
  byte_of_coefficient c = Qfloor (clamp (c / inject_Z self_alpha) 0 255).
Proof.
  unfold byte_of_coefficient, clamp.
  generalize (c / inject_Z self_alpha)%Q. intros x.
  destruct (Qlt_le_dec x 0) as [Hneg|Hpos].
  - pose proof (py_int_nonpos x ltac:(lra)) as Hle.
    assert (Qfloor (Qmax 0 (Qmin 255 x)) = Qfloor 0) as ->.
    { apply Qfloor_comp. rewrite Q.max_l; [reflexivity|].
      apply Q.min_le_iff. right. lra. }
    change (Qfloor 0) with 0. lia.
  - rewrite py_int_floor by done.
    assert (0 ≤ Qfloor x) as H0.
    { change 0 with (Qfloor 0). by apply Qfloor_resp_le. }
    destruct (Qlt_le_dec x 255) as [Hlt|Hge].
    + assert (Qfloor (Qmax 0 (Qmin 255 x)) = Qfloor x) as ->.
      { apply Qfloor_comp. rewrite Q.min_r by lra. by apply Q.max_r. }
      assert (Qfloor x ≤ 255); [|lia].
      change 255 with (Qfloor 255). apply Qfloor_resp_le. lra.
    + assert (Qfloor (Qmax 0 (Qmin 255 x)) = Qfloor 255) as ->.
      { apply Qfloor_comp. rewrite Q.min_l by lra. apply Q.max_r. lra. }
      assert (255 ≤ Qfloor x); [|change (Qfloor 255) with 255; lia].
      change 255 with (Qfloor 255). by apply Qfloor_resp_le.
Qed.

Lemma above_threshold_spec (c : Q) :
  above_threshold c = true ↔ (inject_Z self_alpha / 2 < c)%Q.
Proof. unfold above_threshold. apply Qlt_bool_true. Qed.

Lemma estimate_wm_size_rect (H W : nat) (ll_band : list (list Q)) :
  rect H W ll_band → (0 < H)%nat →
  estimate_wm_size ll_band =
    Z.of_nat (Nat.min 32 (Nat.min (H / 2) (W / 2))).
Proof.
  intros Hll HH. unfold estimate_wm_size.
  rewrite (rect_shape0 H W _ Hll), (rect_shape1 H W _ Hll) by done.
  rewrite !Nat2Z.inj_min, !Nat2Z.inj_div. done.
Qed.

Lemma extract_cell_step (H W side ho wo : nat) (ll_band : list (list Q))
    i j (t : list (list Z)) :
  rect H W ll_band → (0 < H)%nat →
  (ho + side ≤ H)%nat → (wo + side ≤ W)%nat →
  (i < side)%nat → (j < side)%nat → rect side side t →
  ∃ t',
    extract_cell ll_band (Z.of_nat ho) (Z.of_nat wo) i j t = Ok t' ∧
    rect side side t' ∧
    ∀ r c, cell t' r c =
      if decide (r = (0 + i)%nat ∧ c = (0 + j)%nat)
      then Some (let x := coef ll_band (ho + i) (wo + j) in
                 if above_threshold x then byte_of_coefficient x
                 else default 0 (cell t r c))
      else cell t r c.
Proof.
  intros Hll HH Hfh Hfw Hi Hj Ht. unfold extract_cell.
  rewrite (rect_shape0 H W _ Hll), (rect_shape1 H W _ Hll) by done.
  replace (Z.of_nat ho + Z.of_nat i <? Z.of_nat H) with true
    by (symmetry; apply Z.ltb_lt; lia).
  replace (Z.of_nat wo + Z.of_nat j <? Z.of_nat W) with true
    by (symmetry; apply Z.ltb_lt; lia).
  simpl. rewrite <- !Nat2Z.inj_add.
  destruct (mat_get_cell H W ll_band (ho + i) (wo + j) Hll) as (x & Hx & ->); [lia..|].
  simpl. unfold coef. rewrite Hx. simpl.
  destruct (above_threshold x).
  - destruct (mat_set_cell side side t i j (byte_of_coefficient x) Ht Hi Hj)
      as (t' & -> & Ht' & Hset).
    exists t'. split; [done|]. split; [done|]. intros r c. by rewrite Hset.
  - exists t. split; [done|]. split; [done|].
    intros r c. case_decide as Hrc; [|done]. destruct Hrc as [-> ->]. simpl.
    by destruct (rect_cell side side t i j Ht Hi Hj) as [v ->].
Qed.

(** What [extract_cells] returns, cell by cell. *)
Lemma extract_cells_cells (H W : nat) (ll_band : list (list Q)) :
  rect H W ll_band → (0 < H)%nat →
  let side := Nat.min 32 (Nat.min (H / 2) (W / 2)) in
  let ho := ((H - side) / 2)%nat in
  let wo := ((W - side) / 2)%nat in
  ∃ extracted,
    extract_cells ll_band = Ok extracted ∧
    rect side side extracted ∧
    ∀ i j, (i < side)%nat → (j < side)%nat →
      cell extracted i j =
        Some (let x := coef ll_band (ho + i) (wo + j) in
              if above_threshold x then byte_of_coefficient x else 0).
Proof.
  intros Hll HH side ho wo. unfold extract_cells.
  rewrite (estimate_wm_size_rect H W _ Hll HH). fold side.
  rewrite (rect_shape0 H W _ Hll), (rect_shape1 H W _ Hll) by done.
  assert (side ≤ H / 2)%nat as HsH by (subst side; lia).
  assert (side ≤ W / 2)%nat as HsW by (subst side; lia).
  assert (H / 2 ≤ H)%nat by (apply Nat.Div0.div_le_upper_bound; lia).
  assert (W / 2 ≤ W)%nat by (apply Nat.Div0.div_le_upper_bound; lia).
  change ((Z.of_nat H - Z.of_nat side) `div` 2)
    with (window_offset (Z.of_nat H) (Z.of_nat side)).
  change ((Z.of_nat W - Z.of_nat side) `div` 2)
    with (window_offset (Z.of_nat W) (Z.of_nat side)).
  rewrite !window_offset_nat by lia. fold ho wo.
  pose proof (window_fits H side ltac:(lia)) as Hfh.
  pose proof (window_fits W side ltac:(lia)) as Hfw. fold ho in Hfh. fold wo in Hfw.
  destruct (np_zeros_rect (Z.of_nat side) (Z.of_nat side)) as (zeros & -> & Hz & Hzc);
    [lia..|].
  rewrite Nat2Z.id in *. simpl.
  destruct (window_loop_cells 0
    (λ i j old, let x := coef ll_band (ho + i) (wo + j) in
                if above_threshold x then byte_of_coefficient x else old)
    (extract_cell ll_band (Z.of_nat ho) (Z.of_nat wo))
    side side side side O O zeros Hz) as (extracted & Hrun & Hrect & Hcells); [lia..| |].
  { intros i j t Hi Hj Ht.
    by apply (extract_cell_step H W side ho wo). }
  exists extracted. split; [done|]. split; [done|].
  intros i j Hi Hj. rewrite Hcells by done.
  rewrite decide_True by (unfold in_window; lia).
  rewrite !Nat.sub_0_r. rewrite Hzc by done. done.
Qed.

Lemma py_int_below_one (q : Q) : (q < 1)%Q → py_int q ≤ 0.
Proof.
  destruct q as [n d]. unfold Qlt, py_int. simpl. intros Hn.
  destruct (Z_lt_le_dec n 0).
  - apply Z.quot_le_upper_bound; lia.
  - rewrite Z.quot_small; lia.
Qed.

(** At or below the threshold the quotient truncates to zero, so the test
    of line 575 never changes the byte that is stored. *)
Lemma byte_of_coefficient_below (x : Q) :
  above_threshold x = false → byte_of_coefficient x = 0.
Proof.
  unfold above_threshold. rewrite Qlt_bool_false. intros Hle.
  assert (inject_Z self_alpha / 2 == 50)%Q as H50 by reflexivity.
  rewrite H50 in Hle.
  unfold byte_of_coefficient. change (inject_Z self_alpha) with 100%Q.
  assert (x / 100 < 1)%Q as Hlt by (apply Qlt_shift_div_r; lra).
  pose proof (py_int_below_one (x / 100) Hlt). lia.
Qed.

(** C4. In blind extraction a cell of the recovered matrix is nonzero only
    if the coefficient under it exceeds [strength/2] (hence so does its
    magnitude); for every coefficient whose magnitude exceeds [strength/2]
    the recovered byte is [clamp(coefficient/strength, 0, 255)], rounded
    down to an integer as a byte is; every other cell is zero. The
    matrix side is [min(32, subbandHeight/2, subbandWidth/2)] and the read
    window is centred in the sub-band. *)
Theorem blind_matrix_thresholded (H W : nat) (ll_band : list (list Q)) :
  rect H W ll_band → (0 < H)%nat →
  let side := Z.to_nat (estimate_wm_size ll_band) in
  let ho := ((H - side) / 2)%nat in
  let wo := ((W - side) / 2)%nat in
  estimate_wm_size ll_band
    = Z.min 32 (Z.min (Z.of_nat H `div` 2) (Z.of_nat W `div` 2)) ∧
  (ho + side ≤ H ∧ wo + side ≤ W ∧
   ho ≤ H - (ho + side) ≤ ho + 1 ∧ wo ≤ W - (wo + side) ≤ wo + 1)%nat ∧
  ∃ extracted,
    extract_cells ll_band = Ok extracted ∧
    rect side side extracted ∧
    ∀ i j, (i < side)%nat → (j < side)%nat →
      let x := coef ll_band (ho + i) (wo + j) in
      let b := wm_cell extracted i j in
      (b ≠ 0 → (inject_Z self_alpha / 2 < x)%Q ∧ (inject_Z self_alpha / 2 < Qabs x)%Q) ∧
      ((inject_Z self_alpha / 2 < Qabs x)%Q →
         b = Qfloor (clamp (x / inject_Z self_alpha) 0 255)) ∧
      (¬ (inject_Z self_alpha / 2 < Qabs x)%Q → b = 0).
Proof.
  intros Hll HH side ho wo.
  pose proof (estimate_wm_size_rect H W ll_band Hll HH) as Hest.
  assert (side = Nat.min 32 (Nat.min (H / 2) (W / 2))) as Hside
    by (subst side; rewrite Hest; apply Nat2Z.id).
  split.
  { rewrite Hest, !Nat2Z.inj_min, !Nat2Z.inj_div. done. }
  assert (H / 2 ≤ H)%nat by (apply Nat.Div0.div_le_upper_bound; lia).
  assert (W / 2 ≤ W)%nat by (apply Nat.Div0.div_le_upper_bound; lia).
  split.
  { pose proof (window_fits H side ltac:(lia)) as Hfh.
    pose proof (window_fits W side ltac:(lia)) as Hfw.
    fold ho in Hfh. fold wo in Hfw.
    assert (2 * ho ≤ H - side ∧ H - side < 2 * ho + 2)%nat.
    { subst ho. pose proof (Nat.div_mod_eq (H - side) 2) as Hd.
      pose proof (Nat.mod_upper_bound (H - side) 2 ltac:(lia)). lia. }
    assert (2 * wo ≤ W - side ∧ W - side < 2 * wo + 2)%nat.
    { subst wo. pose proof (Nat.div_mod_eq (W - side) 2) as Hd.
      pose proof (Nat.mod_upper_bound (W - side) 2 ltac:(lia)). lia. }
    lia. }
  destruct (extract_cells_cells H W ll_band Hll HH) as (extracted & Hrun & Hrect & Hcells).
  rewrite <- Hside in Hrect, Hcells. fold ho wo in Hcells.
  exists extracted. split; [done|]. split; [done|].
  intros i j Hi Hj x b.
  assert (b = if above_threshold x then byte_of_coefficient x else 0) as Hb.
  { subst b. unfold wm_cell. by rewrite Hcells. }
  assert (b = byte_of_coefficient x) as Hbyte.
  { rewrite Hb. destruct (above_threshold x) eqn:Hth; [done|].
    by rewrite byte_of_coefficient_below. }
  split; [|split].
  - intros Hnz. destruct (above_threshold x) eqn:Hth; [|done].
    apply above_threshold_spec in Hth. split; [done|].
    eapply Qlt_le_trans; [exact Hth|apply Qle_Qabs].
  - intros _. rewrite Hbyte. apply byte_of_coefficient_clamp.
  - intros Hsmall. destruct (above_threshold x) eqn:Hth; [|done].
    apply above_threshold_spec in Hth. exfalso. apply Hsmall.
    eapply Qlt_le_trans; [exact Hth|apply Qle_Qabs].
Qed.

Lemma blind_matrix_thresholded_witness :
  ∃ extracted,
    extract_cells [[0; 0; 0; 0]; [0; 260; 30; 0]; [0; 70; 1000; 0]; [0; 0; 0; 0]]%Q
      = Ok extracted ∧
    rect 2 2 extracted ∧
    wm_cell extracted 0 0 = Qfloor (clamp (260 / inject_Z self_alpha) 0 255).
Proof.
  destruct (blind_matrix_thresholded 4 4
    [[0; 0; 0; 0]; [0; 260; 30; 0]; [0; 70; 1000; 0]; [0; 0; 0; 0]]%Q)
    as (_ & _ & extracted & Hrun & Hrect & Hcells).
  - split; [reflexivity|]. repeat constructor.
  - lia.
  - exists extracted. split; [exact Hrun|]. split; [exact Hrect|].
    destruct (Hcells O O ltac:(vm_compute; lia) ltac:(vm_compute; lia)) as (_ & Hbig & _).
    apply Hbig. vm_compute. reflexivity.
Defined.

(** ** The detection decision *)

Lemma signal_power_le_sum_squares (m : list (list Z)) :
  0 ≤ signal_power m ≤ sum_squares m.
Proof.
  unfold signal_power, sum_squares.
  induction (concat m) as [|v l IH]; simpl; [lia|].
  unfold square_u8 at 1 3.
  pose proof (Z.mod_pos_bound (v * v) 256 ltac:(lia)).
  pose proof (Z.mod_le (v * v) 256 ltac:(nia) ltac:(lia)).
  lia.
Qed.

Lemma count_nonzero_nonneg (m : list (list Z)) : 0 ≤ count_nonzero m.
Proof. unfold count_nonzero. lia. Qed.

Lemma Qdiv_le_compat_r (a b c : Q) : (0 < c)%Q → (a <= b)%Q → (a / c <= b / c)%Q.
Proof.
  intros Hc Hab. apply Qle_shift_div_l; [done|].
  unfold Qdiv. rewrite <- Qmult_assoc, (Qmult_comm (/ c)), Qmult_inv_r by lra.
  lra.
Qed.

Lemma inject_Z_le (a b : Z) : a ≤ b → (inject_Z a <= inject_Z b)%Q.
Proof. intros Hab. by rewrite <- Zle_Qle. Qed.

Lemma signal_confidence_bounds (extracted_wm : list (list Z)) (wm_size : Z) :
  (0 <= signal_confidence extracted_wm wm_size <= 8 # 10)%Q.
Proof.
  unfold signal_confidence.
  set (r := (inject_Z (count_nonzero extracted_wm) / inject_Z (wm_size * wm_size))%Q).
  assert (0 <= r)%Q as Hr.
  { subst r. pose proof (count_nonzero_nonneg extracted_wm) as Hc.
    assert (0 ≤ wm_size * wm_size) as Ht by nia.
    apply inject_Z_le in Hc, Ht. change (inject_Z 0) with 0%Q in Hc, Ht.
    unfold Qdiv. apply Qmult_le_0_compat; [done|].
    by apply Qinv_le_0_compat. }
  destruct (py_min_spec (8 # 10) r) as [[Hlt ->]|[Hle ->]]; lra.
Qed.

(** A positive decision needs both thresholds, and the mean squared cell
    is above the floor also without the wrap-around of the squares. *)
Lemma signal_detected_thresholds (extracted_wm : list (list Z)) (wm_size : Z) :
  signal_detected extracted_wm wm_size = true →
  wm_size * wm_size < 4 * count_nonzero extracted_wm ∧
  0 < wm_size * wm_size ∧
  (50 < average_signal extracted_wm wm_size)%Q ∧
  (50 < mean_square extracted_wm (wm_size * wm_size))%Q.
Proof.
  unfold signal_detected.
  destruct (Qlt_bool (inject_Z (wm_size * wm_size) * (1 # 4))
              (inject_Z (count_nonzero extracted_wm))) eqn:Hcount; [|done].
  intros Havg. apply Qlt_bool_true in Hcount, Havg.
  assert (wm_size * wm_size < 4 * count_nonzero extracted_wm) as Hc.
  { rewrite Zlt_Qlt, (inject_Z_mult 4). change (inject_Z 4) with 4%Q. lra. }
  split; [done|].
  unfold average_signal in *.
  destruct (Z.ltb_spec 0 (wm_size * wm_size)) as [Hpos|Hzero]; [|lra].
  split; [done|]. split; [done|].
  eapply Qlt_le_trans; [exact Havg|]. unfold mean_square.
  apply Qdiv_le_compat_r.
  - change 0%Q with (inject_Z 0). by rewrite <- Zlt_Qlt.
  - apply inject_Z_le, signal_power_le_sum_squares.
Qed.

(** ** Rules for running statements *)

Section wp_rules.
Context {S : Type}.

Lemma wp_ret {A} (a : A) (Q : S → outcome A → Prop) s :
  Q s (Next a) → wp (mret a) Q s.
Proof. done. Qed.

Lemma wp_bind {A B} (m : M S A) (f : A → M S B) (Q : S → outcome B → Prop) s :
  wp m (λ s' o, match o with
                | Next a => wp (f a) Q s'
                | Returned => Q s' Returned
                | Raised e => Q s' (Raised e)
                end) s →
  wp (m ≫= f) Q s.
Proof. unfold wp, mbind, M_bind. by destruct (m s) as [s' [a| |e]]. Qed.

Lemma wp_raise {A} e (Q : S → outcome A → Prop) s :
  Q s (Raised e) → wp (raise e) Q s.
Proof. done. Qed.

Lemma wp_return {A} (Q : S → outcome A → Prop) s :
  Q s Returned → wp return_ Q s.
Proof. done. Qed.

Lemma wp_gets {A} (f : S → A) (Q : S → outcome A → Prop) s :
  Q s (Next (f s)) → wp (gets f) Q s.
Proof. done. Qed.

Lemma wp_modify (f : S → S) (Q : S → outcome unit → Prop) s :
  Q (f s) (Next tt) → wp (modify f) Q s.
Proof. done. Qed.

Lemma wp_lift {A} (r : res A) (Q : S → outcome A → Prop) s :
  match r with Ok a => Q s (Next a) | Err e => Q s (Raised e) end →
  wp (lift r) Q s.
Proof. by destruct r. Qed.

Lemma wp_try {A} (body : M S A) handler (Q : S → outcome A → Prop) s :
  wp body (λ s' o, match o with
                   | Raised e => wp (handler e) Q s'
                   | _ => Q s' o
                   end) s →
  wp (try_except body handler) Q s.
Proof. unfold wp, try_except. by destruct (body s) as [s' [a| |e]]. Qed.

Lemma wp_mono {A} (m : M S A) (Q Q' : S → outcome A → Prop) s :
  wp m Q s → (∀ s' o, Q s' o → Q' s' o) → wp m Q' s.
Proof. unfold wp. auto. Qed.

Lemma wp_run {A} (m : M S A) (Q : S → outcome A → Prop) s s' o :
  wp m Q s → m s = (s', o) → Q s' o.
Proof. unfold wp. intros HQ Hrun. by rewrite Hrun in HQ. Qed.
End wp_rules.

Lemma wp_read_file path (Q : World → outcome string → Prop) w :
  match files w !! path with
  | Some content => Q w (Next content)
  | None => Q w (Raised "FileNotFoundError")
  end →
  wp (read_file path) Q w.
Proof. unfold wp, read_file. by destruct (files w !! path). Qed.

Lemma wp_fault (Q : World → outcome (option fault_kind) → Prop) w :
  match faults w with
  | [] => Q w (Next None)
  | b :: rest =>
      Q {| files := files w; faults := rest; entropy := entropy w;
           drawn := drawn w; now := now w |} (Next b)
  end →
  wp fault Q w.
Proof. unfold wp, fault. by destruct (faults w). Qed.

Lemma wp_uuid4 (Q : World → outcome string → Prop) w :
  Q {| files := files w; faults := faults w; entropy := entropy w;
       drawn := Datatypes.S (drawn w); now := now w |} (Next (entropy w (drawn w))) →
  wp uuid4 Q w.
Proof. done. Qed.

Lemma wp_in_world {L : Lib} {A} (m : M World A) (Q : St → outcome A → Prop) s :
  wp m (λ w o, Q {| world := w; result := result s |} o) (world s) →
  wp (in_world m) Q s.
Proof. unfold wp, in_world. by destruct (m (world s)). Qed.

Lemma wp_set_result {L : Lib} key v (Q : St → outcome unit → Prop) s :
  Q {| world := world s; result := <[key := v]> (result s) |} (Next tt) →
  wp (set_result key v) Q s.
Proof. done. Qed.

#[global] Arguments path_join : simpl never.
#[global] Arguments str_replace : simpl never.
#[global] Arguments str_drop : simpl never.
#[global] Arguments bytes_find : simpl never.
#[global] Arguments String.append : simpl never.

(** One step of symbolic execution. *)
Ltac wp_step :=
  lazymatch goal with
  | |- wp (mbind _ _) _ _ => apply wp_bind
  | |- wp (mret _) _ _ => apply wp_ret
  | |- wp (raise _) _ _ => apply wp_raise
  | |- wp return_ _ _ => apply wp_return
  | |- wp (gets _) _ _ => apply wp_gets
  | |- wp (modify _) _ _ => apply wp_modify
  | |- wp (lift _) _ _ => apply wp_lift
  | |- wp (try_except _ _) _ _ => apply wp_try
  | |- wp (in_world _) _ _ => apply wp_in_world
  | |- wp (set_result _ _) _ _ => apply wp_set_result
  | |- wp (read_file _) _ _ => apply wp_read_file
  | |- wp fault _ _ => apply wp_fault
  | |- wp uuid4 _ _ => apply wp_uuid4
  | |- wp (path_exists _) _ _ => unfold path_exists
  | |- wp (store _ _) _ _ => unfold store
  | |- wp makedirs _ _ => unfold makedirs
  | |- wp (copy2 _ _) _ _ => unfold copy2
  | |- wp (write_text _ _) _ _ => unfold write_text
  | |- wp (write_file _ _ _) _ _ => unfold write_file
  | |- wp (append_bytes _ _) _ _ => unfold append_bytes
  | |- wp (imread _ _) _ _ => unfold imread
  | |- wp (imwrite _ _) _ _ => unfold imwrite
  | |- wp (py_get ?d _ _) _ _ => unfold py_get; destruct d eqn:?
  | |- wp (py_in _ ?d) _ _ => unfold py_in; destruct d eqn:?
  | |- wp (py_item ?d _) _ _ => unfold py_item; destruct d eqn:?
  | |- wp (strip_static ?d) _ _ => unfold strip_static; destruct d eqn:?
  | |- wp (if ?b then _ else _) _ _ => destruct b eqn:?
  | |- wp (match ?x with _ => _ end) _ _ => destruct x eqn:?
  | |- match ?x with _ => _ end => destruct x eqn:?
  end.

Ltac wp_run :=
  repeat (wp_step; lazy beta iota);
  cbn [result world files faults entropy drawn now set_files] in *.

(** ** The result dictionary *)

Lemma in_result_keys (key : string) :
  key ∈ result_keys ↔
  key = "success" ∨ key = "detected" ∨ key = "watermark_text" ∨
  key = "watermark_type" ∨ key = "watermark_image_url" ∨
  key = "confidence" ∨ key = "message".
Proof. unfold result_keys. set_solver. Qed.

Ltac disj_refl := first [reflexivity | left; reflexivity | right; disj_refl].

Lemma result_key_dom (r : gmap string value) (key : string) (v : value) :
  dom r = result_keys → key ∈ result_keys → dom (<[key := v]> r) = result_keys.
Proof. intros Hdom Hkey. rewrite dom_insert_L, Hdom. set_solver. Qed.

Ltac result_keys_solver :=
  repeat (apply result_key_dom; [|apply in_result_keys; disj_refl]); assumption.

Lemma initial_result_pending {L : Lib} : pending initial_result.
Proof.
  unfold pending, initial_result. split; [|by simplify_map_eq].
  rewrite !dom_insert_L, dom_empty_L. unfold result_keys. set_solver.
Qed.

Lemma pending_insert (r : gmap string value) (key : string) (v : value) :
  key = "watermark_type" ∨ key = "watermark_image_url" ∨ key = "watermark_text" →
  pending r → pending (<[key := v]> r).
Proof.
  intros Hkey (Hdom & Hd & Hs & Hc & Hm).
  split; [|destruct Hkey as [->|[->| ->]]; by simplify_map_eq].
  apply result_key_dom; [done|].
  apply in_result_keys. destruct Hkey as [->|[->| ->]]; disj_refl.
Qed.

Ltac pending_solver :=
  repeat (apply pending_insert; [disj_refl|]); assumption.

Ltac detected_solver :=
  lazymatch goal with
  | H : pending _ |- detected_with _ _ =>
      let Hdom := fresh "Hdom" in
      destruct H as (Hdom & _);
      split; [result_keys_solver|by simplify_map_eq]
  end.

Lemma of_option_ok {A} (o : option A) (e : exn) (a : A) :
  of_option o e = Ok a → o = Some a.
Proof. destruct o; simpl; congruence. Qed.

Lemma of_option_err {A} (o : option A) (e e' : exn) :
  of_option o e = Err e' → o = None.
Proof. destruct o; simpl; congruence. Qed.

Lemma is_str_eq (v : value) (s : string) : is_str v s = true ↔ v = VStr s.
Proof.
  destruct v; simpl; try (split; [done|intros; discriminate]).
  rewrite String.eqb_eq. split; [by intros ->|by intros [=]].
Qed.

Lemma is_str_false_ne (d : gmap string value) (key kind : string) :
  is_str (default VNone (d !! key)) kind = false → d !! key ≠ Some (VStr kind).
Proof.
  intros Hf Heq. rewrite Heq in Hf. simpl in Hf.
  by rewrite String.eqb_refl in Hf.
Qed.

Lemma is_str_true_eq (d : gmap string value) (key kind : string) :
  is_str (default VNone (d !! key)) kind = true → d !! key = Some (VStr kind).
Proof.
  intros Ht. apply is_str_eq in Ht. destruct (d !! key); simpl in Ht; by subst.
Qed.

Lemma truthy_default_str (d : gmap string value) (key : string) (v : value) :
  default (VStr "") (d !! key) = v → truthy v = true → d !! key = Some v.
Proof. destruct (d !! key); simpl; [by intros ->|intros <-; done]. Qed.

Lemma file_exists_decide (w : World) (path : string) :
  bool_decide (is_Some (files w !! path)) = true ↔ file_exists w path.
Proof. apply bool_decide_eq_true. Qed.

Lemma file_absent_decide (w : World) (path : string) :
  bool_decide (is_Some (files w !! path)) = false ↔ ¬ file_exists w path.
Proof. apply bool_decide_eq_false. Qed.

(** The facts the branch conditions of a path give. *)
Ltac path_facts :=
  repeat match goal with
  | H : bool_decide (is_Some _) = true |- _ => apply file_exists_decide in H
  | H : bool_decide (is_Some _) = false |- _ => apply file_absent_decide in H
  | H : default (VStr "") (?d !! ?k) = ?v, Ht : truthy ?v = true |- _ =>
      apply truthy_default_str in H; [|exact Ht]
  | H : is_str (default VNone (_ !! _)) _ = true |- _ => apply is_str_true_eq in H
  | H : is_str (default VNone (_ !! _)) _ = false |- _ => apply is_str_false_ne in H
  | H : is_str _ _ = true |- _ => apply is_str_eq in H
  | H : of_option _ _ = Ok _ |- _ => apply of_option_ok in H
  | H : of_option _ _ = Err _ |- _ => apply of_option_err in H
  | H : bool_decide (is_Some _) = false |- _ =>
      apply bool_decide_eq_false, eq_None_not_Some in H
  | H : _ && _ = true |- _ => apply andb_true_iff in H as [? ?]
  | H : negb _ = true |- _ => apply negb_true_iff in H
  | H : negb _ = false |- _ => apply negb_false_iff in H
  end.


(** ** The stages of the recovery *)

Section stages.
Context {L : Lib} (settings : Settings).

Lemma resolve_image_spec (d : gmap string value) (c1 c2 : Q) (s : St) :
  pending (result s) →
  wp (resolve_image settings (VDict d) c1 c2)
     (λ s' o, match o with
              | Returned =>
                  resolved settings d c1 c2 (world s) s' ∧
                  result s' !! "watermark_type" = result s !! "watermark_type"
              | _ => pending (result s')
              end) s.
Proof.
  intros Hp. unfold resolve_image.
  wp_run; try done; simplify_eq; path_facts.
  all: try (split; [|by simplify_map_eq]).
  all: try (eapply resolved_original; cbn [result world];
            [eassumption|eassumption|detected_solver|by simplify_map_eq..]).
  all: try (eapply resolved_backup; cbn [result world files set_files];
            [eassumption|eassumption|eassumption|eauto|
             first [eassumption
                   |unfold file_exists, static_path; cbn [files set_files world];
                    rewrite lookup_insert_eq; by eexists]|
             detected_solver|by simplify_map_eq..]).
Qed.

Lemma sidecar_stage_spec (image_path : string) (s : St) :
  pending (result s) →
  wp (sidecar_stage settings image_path)
     (λ s' o, match o with
              | Returned => sidecar_hit settings image_path (world s) s'
              | Next _ => pending (result s')
              | Raised _ => False
              end) s.
Proof.
  intros Hp. unfold sidecar_stage.
  wp_run; try done; try pending_solver; path_facts.
  - (* kind image *)
    eapply wp_mono; [apply resolve_image_spec; cbn [result]; pending_solver|].
    cbn [result world]. intros s' [[]| |e]; lazy beta iota; try done.
    intros [Hres Htype].
    exists (VDict d). split.
    { unfold sidecar_metadata. rewrite Heqo. simpl. done. }
    eapply hit_image; [done|done| |done].
    rewrite Htype. by simplify_map_eq.
  - (* kind text *)
    exists (VDict d). split.
    { unfold sidecar_metadata. rewrite Heqo. simpl. done. }
    eapply hit_text; cbn [result];
      [done|done|detected_solver|by simplify_map_eq..].
Qed.

Lemma untagged_trailer_spec (d : gmap string value) (s : St) :
  pending (result s) →
  d !! "watermark_type" ≠ Some (VStr "image") →
  d !! "watermark_type" ≠ Some (VStr "text") →
  wp (untagged_trailer settings (VDict d))
     (λ s' o, match o with
              | Returned => untagged_hit settings (VDict d) (world s) s'
              | _ => pending (result s')
              end) s.
Proof.
  intros Hp Hni Hnt. unfold untagged_trailer.
  wp_run; try done; try pending_solver; simplify_eq; path_facts.
  - eapply untagged_image; cbn [result world];
      [done|done|done|eassumption|eassumption|detected_solver|by simplify_map_eq].
  - eapply untagged_text; cbn [result world];
      [done|done|done|eassumption|eassumption|eassumption|detected_solver
      |by simplify_map_eq].
Qed.

Lemma trailer_stage_spec (image_path : string) (s : St) :
  pending (result s) →
  wp (trailer_stage settings image_path)
     (λ s' o, match o with
              | Returned => trailer_hit settings image_path (world s) s'
              | Next _ => pending (result s')
              | Raised _ => False
              end) s.
Proof.
  intros Hp. unfold trailer_stage.
  wp_run; try done; try pending_solver; path_facts.
  all: assert (trailer_metadata (world s) image_path = Some (VDict d))
    as Hmeta by (unfold trailer_metadata; rewrite Heqo; simpl; by rewrite Heqb).
  - eapply wp_mono; [apply resolve_image_spec; cbn [result]; pending_solver|].
    cbn [result world]. intros s' [[]| |e]; lazy beta iota; try done.
    intros [Hres Htype].
    exists (VDict d). split; [done|]. left.
    eapply hit_image; [done|done| |done].
    rewrite Htype. by simplify_map_eq.
  - exists (VDict d). split; [done|]. left.
    eapply hit_text; cbn [result];
      [done|done|detected_solver|by simplify_map_eq..].
  - eapply wp_mono; [by apply untagged_trailer_spec|].
    cbn [result world]. intros s' [[]| |e]; lazy beta iota; try done.
    intros Hhit. exists (VDict d). split; [done|]. by right.
Qed.

Lemma publish_signal_spec (extracted_wm : list (list Z)) (wm_size : Z) (s : St) :
  pending (result s) →
  wp (publish_signal settings extracted_wm wm_size)
     (λ s' o, match o with
              | Returned =>
                  detected_with (signal_confidence extracted_wm wm_size) (result s') ∧
                  result s' !! "watermark_type" = Some (VStr "image")
              | Next _ => False
              | Raised _ => result s' = result s
              end) s.
Proof.
  intros Hp. unfold publish_signal.
  wp_run; try done.
  all: split; [detected_solver|by simplify_map_eq].
Qed.

Lemma blind_stage_spec (image_path : string) (s : St) :
  pending (result s) →
  wp (blind_stage settings image_path)
     (λ s' o, match o with
              | Returned => blind_answer image_path (world s) (result s) s'
              | Next _ => False
              | Raised _ =>
                  result s' = result s ∧ blind_failure settings image_path (world s)
              end) s.
Proof.
  intros Hp. unfold blind_stage.
  wp_run; try done.
  - destruct a as [extracted_wm wm_size]. cbn [fst snd] in *.
    lazymatch goal with
    | |- wp _ _ ?s0 =>
        pose proof (publish_signal_spec extracted_wm wm_size s0 Hp) as Hspec;
        pose proof (publish_failure settings image_path (world s) n extracted_wm
                      wm_size s0) as Hfail;
        unfold wp in Hspec |- *;
        destruct (publish_signal settings extracted_wm wm_size s0)
          as [s' [[]| |e]] eqn:Hrun
    end; cbn [fst snd result world] in *; try done.
    + destruct Hspec as [Hdet Htype]. by eapply blind_positive.
    + split; [done|]. by apply (Hfail e).
  - destruct a as [extracted_wm wm_size]. cbn [fst snd] in *.
    by eapply blind_negative.
  - split; [done|]. by eapply signal_failure.
  - by eapply blind_unreadable.
Qed.

(** The three stages in order. *)
Lemma extract_body_spec (image_path : string) (w : World) :
  let s0 := {| world := w; result := initial_result |} in
  wp (extract_body settings image_path)
     (λ s' o,
        o = Returned ∧
        ∀ s1 o1, sidecar_stage settings image_path s0 = (s1, o1) →
          match o1 with
          | Returned => s' = s1 ∧ sidecar_hit settings image_path w s1
          | _ =>
              pending (result s1) ∧
              ∀ s2 o2, trailer_stage settings image_path s1 = (s2, o2) →
                match o2 with
                | Returned => s' = s2 ∧ trailer_hit settings image_path (world s1) s2
                | _ =>
                    pending (result s2) ∧
                    ∀ s3 o3, blind_stage settings image_path s2 = (s3, o3) →
                      match o3 with
                      | Returned =>
                          s' = s3 ∧
                          blind_answer image_path (world s2) (result s2) s3
                      | Raised e =>
                          blind_failure settings image_path (world s2) ∧
                          world s' = world s3 ∧
                          result s' = <["message" := VStr (msg_failed +:+ e)]>
                                        (<["success" := VBool false]> (result s2))
                      | Next _ => False
                      end
                end
          end) {| world := w; result := initial_result |}.
Proof.
  intros s0. unfold extract_body.
  pose proof (sidecar_stage_spec image_path s0 initial_result_pending) as H1.
  subst s0. unfold wp in *. unfold try_except, mbind, M_bind.
  destruct (sidecar_stage settings image_path _) as [s1 o1] eqn:E1.
  cbn [fst snd] in H1.
  destruct o1 as [[]| |e1]; [|cbn [fst snd]|done].
  2: { split; [done|]. intros ? ? Hrun. by simplify_eq. }
  pose proof (trailer_stage_spec image_path s1 H1) as H2. unfold wp in H2.
  destruct (trailer_stage settings image_path s1) as [s2 o2] eqn:E2.
  cbn [fst snd] in H2.
  destruct o2 as [[]| |e2]; [|cbn [fst snd]|done].
  2: { split; [done|]. intros ? ? Hrun. simplify_eq. split; [done|].
       intros ? ? Hrun. rewrite E2 in Hrun. by simplify_eq. }
  pose proof (blind_stage_spec image_path s2 H2) as H3. unfold wp in H3.
  destruct (blind_stage settings image_path s2) as [s3 o3] eqn:E3.
  cbn [fst snd] in H3.
  destruct o3 as [[]| |e3]; [done| |]; cbn [fst snd].
  - split; [done|]. intros ? ? Hrun. simplify_eq. split; [done|].
    intros ? ? Hrun. rewrite E2 in Hrun. simplify_eq. split; [done|].
    intros ? ? Hrun. rewrite E3 in Hrun. by simplify_eq.
  - split; [done|]. intros ? ? Hrun. simplify_eq. split; [done|].
    intros ? ? Hrun. rewrite E2 in Hrun. simplify_eq. split; [done|].
    intros ? ? Hrun. rewrite E3 in Hrun. simplify_eq.
    destruct H3 as [Hres Hfail]. split; [done|]. split; [done|].
    unfold set_result, modify, return_. cbn [fst snd result]. by rewrite Hres.
Qed.
End stages.

(** ** The recovery as a whole *)

Section recovery.
Context {L : Lib} (settings : Settings).

Lemma tagged_hit_cases (ct co cb : Q) (metadata : value) (w : World) (s' : St) :
  tagged_hit settings ct co cb metadata w s' →
  detected_with ct (result s') ∨ detected_with co (result s') ∨
  (detected_with cb (result s') ∧ backup_only settings metadata w s').
Proof.
  intros [d -> Hkind Hdet _ _|d -> Hkind Htype Hres].
  - by left.
  - destruct Hres as [url Hurl Hfile Hdet _ _
                     |url backup_url Hurl Hmissing Hbackup _ Hfile Hdet Hanswer _].
    + right. by left.
    + right. right. split; [done|]. by exists d, url, backup_url.
Qed.

Lemma untagged_hit_cases (metadata : value) (w : World) (s' : St) :
  untagged_hit settings metadata w s' →
  detected_with (9 # 10) (result s') ∧ untagged metadata.
Proof.
  intros [d url -> Hni Hnt _ _ Hdet _|d v -> Hni Hnt _ _ _ Hdet _];
    (split; [done|by exists d]).
Qed.

(** What [extract_watermark] returns, by the first stage that answers. *)
Lemma extract_watermark_cases (image_path : string) (w : World) :
  let run1 := after_sidecar settings image_path w in
  let run2 := after_trailer settings image_path w in
  let run3 := after_blind settings image_path w in
  let answer := extract_watermark settings image_path w in
  (extract_body settings image_path (start w)).2 = Returned ∧
  match run1.2 with
  | Returned =>
      answer = (world run1.1, result run1.1) ∧
      sidecar_hit settings image_path w run1.1
  | _ =>
      pending (result run1.1) ∧
      match run2.2 with
      | Returned =>
          answer = (world run2.1, result run2.1) ∧
          trailer_hit settings image_path (world run1.1) run2.1
      | _ =>
          pending (result run2.1) ∧
          match run3.2 with
          | Returned =>
              answer = (world run3.1, result run3.1) ∧
              blind_answer image_path (world run2.1) (result run2.1) run3.1
          | Raised e =>
              answer = (world run3.1,
                        <["message" := VStr (msg_failed +:+ e)]>
                          (<["success" := VBool false]> (result run2.1))) ∧
              blind_failure settings image_path (world run2.1)
          | Next _ => False
          end
      end
  end.
Proof.
  intros run1 run2 run3 answer.
  pose proof (extract_body_spec settings image_path w) as Hspec.
  unfold wp in Hspec. cbn zeta in Hspec. destruct Hspec as [Hret Hspec].
  split; [done|].
  specialize (Hspec run1.1 run1.2 (surjective_pairing _)).
  subst answer. unfold extract_watermark, start.
  destruct (run1.2) as [[]| |e1].
  - destruct Hspec as [Hp1 Hspec]. split; [done|].
    specialize (Hspec run2.1 run2.2 (surjective_pairing _)).
    destruct (run2.2) as [[]| |e2].
    + destruct Hspec as [Hp2 Hspec]. split; [done|].
      specialize (Hspec run3.1 run3.2 (surjective_pairing _)).
      destruct (run3.2) as [[]| |e3]; [done| |].
      * destruct Hspec as [-> Hans]. done.
      * destruct Hspec as (Hfail & Hw & Hr). split; [|done].
        by rewrite Hw, Hr.
    + destruct Hspec as [-> Hhit]. done.
    + destruct Hspec as [Hp2 Hspec]. split; [done|].
      specialize (Hspec run3.1 run3.2 (surjective_pairing _)).
      destruct (run3.2) as [[]| |e3]; [done| |].
      * destruct Hspec as [-> Hans]. done.
      * destruct Hspec as (Hfail & Hw & Hr). split; [|done].
        by rewrite Hw, Hr.
  - destruct Hspec as [-> Hhit]. done.
  - destruct Hspec as [Hp1 Hspec]. split; [done|].
    specialize (Hspec run2.1 run2.2 (surjective_pairing _)).
    destruct (run2.2) as [[]| |e2].
    + destruct Hspec as [Hp2 Hspec]. split; [done|].
      specialize (Hspec run3.1 run3.2 (surjective_pairing _)).
      destruct (run3.2) as [[]| |e3]; [done| |].
      * destruct Hspec as [-> Hans]. done.
      * destruct Hspec as (Hfail & Hw & Hr). split; [|done].
        by rewrite Hw, Hr.
    + destruct Hspec as [-> Hhit]. done.
    + destruct Hspec as [Hp2 Hspec]. split; [done|].
      specialize (Hspec run3.1 run3.2 (surjective_pairing _)).
      destruct (run3.2) as [[]| |e3]; [done| |].
      * destruct Hspec as [-> Hans]. done.
      * destruct Hspec as (Hfail & Hw & Hr). split; [|done].
        by rewrite Hw, Hr.
Qed.

Lemma detected_well_formed (c : Q) (r : gmap string value) :
  detected_with c r → (0 <= c <= 1)%Q → well_formed r.
Proof.
  intros (Hdom & Hd & Hs & Hc) Hrange. split; [done|]. split.
  - by exists true, true.
  - by exists (VFloat c), c.
Qed.

Lemma undetected_well_formed (r : gmap string value) (success : bool) :
  dom r = result_keys →
  r !! "detected" = Some (VBool false) →
  r !! "success" = Some (VBool success) →
  r !! "confidence" = Some (VInt 0) →
  well_formed r.
Proof.
  intros Hdom Hd Hs Hc. split; [done|]. split.
  - by exists false, success.
  - exists (VInt 0), 0%Q. split; [done|]. split; [done|]. lra.
Qed.

Lemma sidecar_hit_detected (image_path : string) (w : World) (s' : St) :
  sidecar_hit settings image_path w s' →
  ∃ c, detected_with c (result s') ∧ (0 <= c <= 1)%Q.
Proof.
  intros (md & _ & Hhit).
  destruct (tagged_hit_cases _ _ _ _ _ _ Hhit) as [Hd|[Hd|[Hd _]]];
    eexists; (split; [exact Hd|lra]).
Qed.

Lemma trailer_hit_detected (image_path : string) (w : World) (s' : St) :
  trailer_hit settings image_path w s' →
  ∃ c, detected_with c (result s') ∧ (0 <= c <= 1)%Q.
Proof.
  intros (md & _ & [Hhit|Hhit]).
  - destruct (tagged_hit_cases _ _ _ _ _ _ Hhit) as [Hd|[Hd|[Hd _]]];
      eexists; (split; [exact Hd|lra]).
  - destruct (untagged_hit_cases _ _ _ Hhit) as [Hd _].
    eexists; (split; [exact Hd|lra]).
Qed.

Lemma blind_answer_well_formed (image_path : string) (w : World)
    (r : gmap string value) (s' : St) :
  pending r → blind_answer image_path w r s' → well_formed (result s').
Proof.
  intros Hp [Hun _ ->|img ex size _ _ _ Hd _|img ex size _ _ _ _ ->].
  - pose proof Hp as (Hdom & Hd & Hs & Hc & Hm).
    apply (undetected_well_formed _ false);
      [result_keys_solver|by simplify_map_eq..].
  - apply (detected_well_formed _ _ Hd).
    pose proof (signal_confidence_bounds ex size). lra.
  - pose proof Hp as (Hdom & Hd & Hs & Hc & Hm).
    apply (undetected_well_formed _ true);
      [result_keys_solver|by simplify_map_eq..].
Qed.

Lemma failed_well_formed (r : gmap string value) (e : exn) :
  pending r →
  well_formed (<["message" := VStr (msg_failed +:+ e)]> (<["success" := VBool false]> r)).
Proof.
  intros (Hdom & Hd & Hs & Hc & Hm).
  apply (undetected_well_formed _ false);
    [result_keys_solver|by simplify_map_eq..].
Qed.

(** C9. [extract_watermark] is total at its interface: for every path
    and every world the call returns its dictionary and lets no exception
    out; the dictionary has exactly the seven keys [success], [detected],
    [watermark_text], [watermark_type], [watermark_image_url],
    [confidence] and [message]; and in it [detected] implies [success]
    and the confidence lies in [0, 1]. *)
Theorem extract_watermark_total (image_path : string) (w : World) :
  (extract_body settings image_path (start w)).2 = Returned ∧
  well_formed (extract_watermark settings image_path w).2.
Proof.
  pose proof (extract_watermark_cases image_path w) as [Hret Hcases].
  split; [done|]. cbn zeta in *.
  destruct ((after_sidecar settings image_path w).2) as [[]| |e1].
  2: { destruct Hcases as [-> Hhit]. cbn [snd].
       destruct (sidecar_hit_detected _ _ _ Hhit) as (c & Hd & Hc).
       by apply (detected_well_formed c). }
  all: destruct Hcases as [Hp1 Hcases];
    destruct ((after_trailer settings image_path w).2) as [[]| |e2].
  all: try (destruct Hcases as [-> Hhit]; cbn [snd];
            destruct (trailer_hit_detected _ _ _ Hhit) as (c & Hd & Hc);
            by apply (detected_well_formed c)).
  all: destruct Hcases as [Hp2 Hcases];
    destruct ((after_blind settings image_path w).2) as [[]| |e3]; try done.
  all: destruct Hcases as [-> Hans]; cbn [snd].
  all: try by apply (blind_answer_well_formed _ _ _ _ Hp2 Hans).
  all: by apply failed_well_formed.
Qed.

(** C6. When no source yields a positive detection, [extract_watermark]
    returns [detected = False] and confidence 0, with [success = True]
    and the no-watermark message on a readable image whose blind
    extraction ran; [success = False] is returned only when the image
    cannot be read or decoded or when a call of the blind extraction
    raises, never for the absence of a watermark. *)
Theorem absence_is_success (image_path : string) (w : World) :
  let r := (extract_watermark settings image_path w).2 in
  let before := (after_trailer settings image_path w).1 in
  let readable :=
    is_Some (files (world before) !! image_path ≫= imdecode_color) in
  (r !! "success" = Some (VBool false) →
     ¬ readable ∨ blind_failure settings image_path (world before)) ∧
  (r !! "detected" ≠ Some (VBool true) →
     r !! "detected" = Some (VBool false) ∧
     r !! "confidence" = Some (VInt 0) ∧
     ((r !! "success" = Some (VBool true) ∧
       r !! "message" = Some (VStr msg_none) ∧ readable)
      ∨ (r !! "success" = Some (VBool false) ∧
         (¬ readable ∨ blind_failure settings image_path (world before))))).
Proof.
  pose proof (extract_watermark_cases image_path w) as [_ Hcases].
  cbn zeta in *.
  assert (∀ c (r : gmap string value), detected_with c r →
    (r !! "success" = Some (VBool false) → False) ∧
    (r !! "detected" ≠ Some (VBool true) → False)) as Hdet.
  { intros c r (_ & Hd & Hs & _). split; intros H; congruence. }
  destruct ((after_sidecar settings image_path w).2) as [[]| |e1].
  2: { destruct Hcases as [-> Hhit]. cbn [snd].
       destruct (sidecar_hit_detected _ _ _ Hhit) as (c & Hd & _).
       destruct (Hdet _ _ Hd). split; intros; exfalso; auto. }
  all: destruct Hcases as [Hp1 Hcases];
    destruct ((after_trailer settings image_path w).2) as [[]| |e2].
  all: try (destruct Hcases as [-> Hhit]; cbn [snd];
            destruct (trailer_hit_detected _ _ _ Hhit) as (c & Hd & _);
            destruct (Hdet _ _ Hd); split; intros; exfalso; by auto).
  all: destruct Hcases as [Hp2 Hcases];
    destruct ((after_blind settings image_path w).2) as [[]| |e3]; try done.
  all: destruct Hcases as [-> Hans]; cbn [snd].
  all: pose proof Hp2 as (Hdom & Hd & Hs & Hc & Hm).
  all: try (split; [intros _; by right|intros _];
            split; [by simplify_map_eq|]; split; [by simplify_map_eq|];
            right; split; [by simplify_map_eq|by right]).
  all: destruct Hans as [Hun _ ->|img ex size _ _ _ Hdw _|img ex size Hread _ _ _ ->].
  all: try (destruct (Hdet _ _ Hdw); split; intros; exfalso; by auto).
  all: try (split; [intros _; left; rewrite Hun; by intros [? ?]|intros _];
            split; [by simplify_map_eq|]; split; [by simplify_map_eq|];
            right; split; [by simplify_map_eq|];
            left; rewrite Hun; by intros [? ?]).
  all: split; [intros Hf; by simplify_map_eq|intros _];
    split; [by simplify_map_eq|]; split; [by simplify_map_eq|];
    left; split; [by simplify_map_eq|]; split; [by simplify_map_eq|];
    rewrite Hread; by eexists.
Qed.
End recovery.

(** C3. [extract_watermark] declares a positive detection from the signal
    only if more than a quarter, hence at least 25%, of the recovered cells
    are nonzero and the mean squared recovered value exceeds the floor 50:
    whenever neither the sidecar file nor the trailer has answered and the
    dictionary returned says detected, the image decoded, its recovered
    matrix passes both thresholds, and the confidence in the dictionary
    is [min(0.8, nonzeroCount / totalCells)], which never exceeds 0.8. *)
Theorem blind_detection_thresholds {L : Lib} (settings : Settings)
    (image_path : string) (w : World) :
  let before := (after_trailer settings image_path w).1 in
  let answer := (extract_watermark settings image_path w).2 in
  (after_sidecar settings image_path w).2 ≠ Returned →
  (after_trailer settings image_path w).2 ≠ Returned →
  answer !! "detected" = Some (VBool true) →
  ∃ img extracted_wm wm_size,
    files (world before) !! image_path ≫= imdecode_color = Some img ∧
    signal_of img = Ok (extracted_wm, wm_size) ∧
    let non_zero := count_nonzero extracted_wm in
    let total := wm_size * wm_size in
    0 < total ∧
    total < 4 * non_zero ∧
    (50 < mean_square extracted_wm total)%Q ∧
    answer !! "confidence"
      = Some (VFloat (py_min (8 # 10) (inject_Z non_zero / inject_Z total)%Q)) ∧
    (py_min (8 # 10) (inject_Z non_zero / inject_Z total) <= 8 # 10)%Q.
Proof.
  intros before answer H1 H2 Hdet.
  pose proof (extract_watermark_cases settings image_path w) as [_ Hcases].
  cbn zeta in Hcases. subst before answer.
  destruct ((after_sidecar settings image_path w).2) as [[]| |e1]; [|done|].
  all: destruct Hcases as [Hp1 Hcases];
    destruct ((after_trailer settings image_path w).2) as [[]| |e2]; try done.
  all: destruct Hcases as [Hp2 Hcases];
    destruct ((after_blind settings image_path w).2) as [[]| |e3]; try done.
  all: destruct Hcases as [Hans Hblind]; rewrite Hans in Hdet |- *;
    cbn [snd] in Hdet |- *.
  all: pose proof Hp2 as (_ & Hd & _).
  all: try (exfalso; by simplify_map_eq).
  all: destruct Hblind as [_ _ Hr|img ex size Hdec Hsig Hpos Hdw _|_ _ _ _ _ _ _ Hr];
    try (exfalso; rewrite Hr in Hdet; by simplify_map_eq).
  all: exists img, ex, size; split; [done|]; split; [done|].
  all: destruct (signal_detected_thresholds _ _ Hpos) as (Hcount & Htotal & _ & Hmean).
  all: cbn zeta; split; [done|]; split; [done|]; split; [done|].
  all: split; [by destruct Hdw as (_ & _ & _ & Hc)|].
  all: apply (signal_confidence_bounds ex size).
Qed.

Lemma blind_detection_thresholds_witness :
  let w := Toy.world [("/in.png", "PNG")] [] in
  ∃ extracted_wm wm_size,
    signal_of (L := ToyLoud.lib) (Color Toy.carrier) = Ok (extracted_wm, wm_size) ∧
    wm_size * wm_size < 4 * count_nonzero extracted_wm ∧
    (50 < mean_square extracted_wm (wm_size * wm_size))%Q ∧
    (@extract_watermark ToyLoud.lib Toy.settings "/in.png" w).2 !! "confidence"
      = Some (VFloat (8 # 10)).
Proof.
  intros w.
  destruct (@blind_detection_thresholds ToyLoud.lib Toy.settings "/in.png" w)
    as (img & ex & size & Hdec & Hsig & _ & Hcount & Hmean & Hconf & _).
  - vm_compute. discriminate.
  - vm_compute. discriminate.
  - vm_compute. reflexivity.
  - injection Hdec as <-. exists ex, size.
    split; [exact Hsig|]. split; [exact Hcount|]. split; [exact Hmean|].
    rewrite Hconf. vm_compute in Hsig. injection Hsig as <- <-. reflexivity.
Defined.

(** C2, as the claim states it, fails on a trailer whose metadata carries
    no tag: with no sidecar file and a trailer document that holds only the
    text field, the trailer answers with confidence 0.9, although no display
    copy, and so no backup copy, is involved. *)
Lemma trailer_confidence_counterexample :
  let w := Toy.world
    [("/in.png", "PNG" +:+ trailer_marker +:+ Toy.json_object Toy.untagged_document)] [] in
  let r := (extract_watermark Toy.settings "/in.png" w).2 in
  (after_sidecar Toy.settings "/in.png" w).2 = Next tt ∧
  (after_trailer Toy.settings "/in.png" w).2 = Returned ∧
  trailer_metadata w "/in.png" = Some (VDict (Toy.dict_of Toy.untagged_document)) ∧
  r !! "detected" = Some (VBool true) ∧
  r !! "watermark_text" = Some (VStr "hi") ∧
  r !! "watermark_image_url" = Some VNone ∧
  r !! "confidence" = Some (VFloat (9 # 10)) ∧
  r !! "confidence" ≠ Some (VFloat (95 # 100)).
Proof. vm_compute. repeat split; discriminate. Qed.

Lemma absence_is_success_witness :
  let w := Toy.world [("/in.png", "PNG")] [] in
  let r := (extract_watermark Toy.settings "/in.png" w).2 in
  r !! "detected" = Some (VBool false) ∧
  r !! "confidence" = Some (VInt 0) ∧
  r !! "success" = Some (VBool true).
Proof.
  destruct (absence_is_success Toy.settings "/in.png" (Toy.world [("/in.png", "PNG")] []))
    as [_ Habsent].
  destruct (Habsent ltac:(vm_compute; discriminate)) as (Hd & Hc & Hs).
  split; [exact Hd|]. split; [exact Hc|]. vm_compute. reflexivity.
Defined.

Example sidecar_text_answer :
  let w := Toy.world
    [("/in.png", "PNG"); ("/in.png.metadata", Toy.json_object Toy.text_document)] [] in
  let r := (extract_watermark Toy.settings "/in.png" w).2 in
  r !! "detected" = Some (VBool true) ∧
  r !! "watermark_text" = Some (VStr "hi") ∧
  r !! "confidence" = Some (VFloat (99 # 100)).
Proof. vm_compute. done. Qed.

Example unreadable_image_answer :
  let r := (extract_watermark Toy.settings "/in.png" (Toy.world [("/in.png", "GIF")] [])).2 in
  r !! "detected" = Some (VBool false) ∧
  r !! "success" = Some (VBool false) ∧
  r !! "confidence" = Some (VInt 0).
Proof. vm_compute. done. Qed.

(** ** The embed operation *)

Lemma wp_any {S A} (m : M S A) (Q : S → outcome A → Prop) (s : S) :
  (∀ s' o, Q s' o) → wp m Q s.
Proof. unfold wp. auto. Qed.

Lemma length_append (a b : string) :
  String.length (a +:+ b) = (String.length a + String.length b)%nat.
Proof. induction a as [|c a IH]; simpl; [done|]. by rewrite IH. Qed.

Lemma sidecar_path_ne (path : string) : path +:+ ".metadata" ≠ path.
Proof.
  intros Heq. apply (f_equal String.length) in Heq.
  rewrite length_append in Heq. simpl in Heq. lia.
Qed.

Section embed.
Context {L : Lib} (settings : Settings).

(** What the redundancy writer leaves, by the two entries of the fault
    schedule it consumes. *)
Lemma persist_metadata_runs (metadata : gmap string value) (output_path : string)
    (w : World) :
  let sidecar := output_path +:+ ".metadata" in
  let saved := default "" (files w !! output_path) in
  let trailer := trailer_marker +:+ json_dumps metadata in
  match faults w with
  | Some f :: _ =>
      ∃ w', persist_metadata metadata output_path w = (w', Raised "OSError") ∧
            files w' = match f with
                       | Refused => files w
                       | Torn written =>
                           <[sidecar := str_take written (json_dump_indent metadata)]>
                             (files w)
                       end
  | _ :: Some f :: _ =>
      ∃ w', persist_metadata metadata output_path w = (w', Next tt) ∧
            files w' = match f with
                       | Refused => <[sidecar := json_dump_indent metadata]> (files w)
                       | Torn written =>
                           <[output_path := saved +:+ str_take written trailer]>
                             (<[sidecar := json_dump_indent metadata]> (files w))
                       end ∧
            now w' = now w
  | _ =>
      ∃ w', persist_metadata metadata output_path w = (w', Next tt) ∧
            files w' =
              <[output_path := saved +:+ trailer]>
                (<[sidecar := json_dump_indent metadata]> (files w)) ∧
            now w' = now w
  end.
Proof.
  intros sidecar saved trailer.
  unfold persist_metadata, write_text, append_bytes, write_file, try_except,
    store, fault, mbind, M_bind, modify, gets, raise, mret, M_ret.
  destruct (faults w) as [|[[|k]|] [|[[|k']|] rest]] eqn:Hf;
    repeat (cbn [faults files set_files entropy drawn now]; rewrite ?Hf);
    eexists; (split; [reflexivity|]); cbn [files set_files now]; try done.
  all: rewrite lookup_insert_ne by apply sidecar_path_ne; done.
Qed.

(** Embed after the watermarked image is saved: what is left is the
    redundancy writer. *)
Lemma embed_watermark_persists (image_path : string) (watermark_text : option text)
    (watermark_image_path : option string) (alpha : Q) (output_path : option string)
    (w w1 w2 w3 : World) (computed : ndarray * list (list Z) * gmap string value)
    (path : string) (saved : bool) :
  watermarked_image settings image_path watermark_text watermark_image_path w
    = (w1, Next computed) →
  choose_output settings output_path w1 = (w2, Next path) →
  imwrite path computed.1.1 w2 = (w3, Next saved) →
  embed_watermark settings image_path watermark_text watermark_image_path alpha
    output_path w
  = match persist_metadata (final_metadata computed.2 computed.1.2 (now w3)) path w3 with
    | (w4, Next _) => (w4, Next path)
    | (w4, Returned) => (w4, Returned)
    | (w4, Raised e) => (w4, Raised e)
    end.
Proof.
  intros Himg Hout Hsave.
  unfold embed_watermark, try_except, mbind, M_bind.
  rewrite Himg, Hout, Hsave. unfold gets.
  by destruct (persist_metadata _ path w3) as [w4 [[]| |e]].
Qed.



(** C10. The argument [alpha] of [embed_watermark] is ignored: two
    invocations that differ only in it leave the same world, hence the
    same watermarked pixels, and return the same; and the metadata an
    embed persists records the engine strength 100, whatever the
    argument. *)
Theorem alpha_is_ignored (image_path : string) (watermark_text : option text)
    (watermark_image_path : option string) (alpha alpha' : Q)
    (output_path : option string) (w : World) :
  embed_watermark settings image_path watermark_text watermark_image_path alpha
    output_path w
  = embed_watermark settings image_path watermark_text watermark_image_path alpha'
      output_path w ∧
  ∀ w' path,
    embed_watermark settings image_path watermark_text watermark_image_path alpha
      output_path w = (w', Next path) →
    ∃ metadata,
      files w' !! (path +:+ ".metadata") = Some (json_dump_indent metadata) ∧
      metadata !! "alpha" = Some (VInt 100).
Proof.
  split; [reflexivity|]. intros w' path.
  unfold embed_watermark, try_except, mbind, M_bind.
  destruct (watermarked_image _ _ _ _ w) as [w1 [computed| |e]]; [|done..].
  destruct (choose_output _ _ w1) as [w2 [out| |e]]; [|done..].
  destruct (imwrite _ _ w2) as [w3 [saved| |e]]; [|done..].
  unfold gets.
  set (metadata := final_metadata computed.2 computed.1.2 (now w3)).
  pose proof (persist_metadata_runs metadata out w3) as Hpersist.
  cbn zeta in Hpersist.
  assert (metadata !! "alpha" = Some (VInt 100)) as Halpha
    by (subst metadata; unfold final_metadata; by simplify_map_eq).
  destruct (faults w3) as [|[[|k]|] [|[[|k']|] rest]];
    destruct Hpersist as (w4 & -> & Hfiles); unfold mret, M_ret;
    intros Hrun; simplify_eq; exists metadata; (split; [|done]).
  all: destruct Hfiles as [-> _].
  all: rewrite ?(lookup_insert_ne _ path (path +:+ ".metadata"))
      by (intros Heq; by apply (sidecar_path_ne path));
    by rewrite lookup_insert_eq.
Qed.
End embed.

(** The watermarked image of the text payload [hi] on the toy carrier,
    whatever the fault schedule. *)
Lemma toy_text_image :
  ∃ computed, ∀ schedule,
    watermarked_image Toy.settings "/in.png" (Some [104; 105]) None
      (Toy.world [("/in.png", "PNG")] schedule)
    = (Toy.world [("/in.png", "PNG")] schedule, Next computed).
Proof. eexists. intros schedule. vm_compute. reflexivity. Qed.



Lemma alpha_is_ignored_witness :
  let w := Toy.world [("/in.png", "PNG")] [] in
  ∃ w' metadata,
    embed_watermark Toy.settings "/in.png" (Some [104; 105]) None (1 # 10)
      (Some "/out.png") w = (w', Next "/out.png") ∧
    files w' !! "/out.png.metadata" = Some (Toy.dumps metadata) ∧
    metadata !! "alpha" = Some (VInt 100).
Proof.
  intros w. destruct toy_text_image as [computed Himg].
  pose proof (embed_watermark_persists Toy.settings "/in.png" (Some [104; 105]) None
                (1 # 10) (Some "/out.png") w w w _ computed "/out.png" true
                (Himg _) eq_refl eq_refl) as Hrun.
  cbv [persist_metadata write_text append_bytes try_except store fault mbind M_bind
       modify gets raise mret M_ret faults w Toy.world] in Hrun.
  destruct (alpha_is_ignored Toy.settings "/in.png" (Some [104; 105]) None (1 # 10) (5 # 10)
              (Some "/out.png") w) as [_ Hmeta].
  destruct (Hmeta _ _ Hrun) as (metadata & Hfile & Halpha).
  eexists _, metadata. split; [exact Hrun|]. split; [exact Hfile|exact Halpha].
Defined.

(** ** The payload encoder *)

Lemma text_matrix_ok (watermark_text : text) (max_size : Z) (text_bytes : list Z) :
  utf8_encode watermark_text = Ok text_bytes → 0 ≤ max_size →
  ∃ watermark, text_matrix watermark_text max_size = Ok watermark.
Proof.
  intros Henc Hmax.
  assert (0 ≤ Z.min max_size 32) as Hsize by lia.
  destruct (np_zeros_rect _ _ Hsize Hsize) as (zeros & Hz & Hzrect & Hzcells).
  destruct (fill_diagonal_cells _ text_bytes zeros Hsize Hzrect Hzcells)
    as (watermark & Hfill & _).
  exists watermark. unfold text_matrix. rewrite Henc. simpl. rewrite Hz. simpl. done.
Qed.

Section encoder.
Context {L : Lib} (settings : Settings).

Lemma prepare_image_spec (watermark_text : option text) (path content : string)
    (max_size : Z) (wm_img : ndarray) (w : World) :
  path ≠ "" → files w !! path = Some content →
  imdecode_unchanged content = Some wm_img →
  wp (prepare_watermark_data settings watermark_text (Some path) max_size)
     (λ w' o, match o with
              | Next prepared => encodes_image wm_img max_size prepared
              | Returned => False
              | Raised _ => True
              end) w.
Proof.
  intros Hpath Hfile Hdec. unfold prepare_watermark_data. cbv zeta. cbn [default from_option id].
  apply String.eqb_neq in Hpath. rewrite Hpath. cbn [negb].
  apply wp_bind, wp_gets. rewrite Hfile.
  rewrite bool_decide_eq_true_2 by by eexists.
  apply wp_bind. unfold imread. apply wp_gets. rewrite Hfile. cbn [mbind option_bind].
  rewrite Hdec.
  wp_run; try done.
  all: unfold encodes_image; cbn [fst snd].
  all: split; [by simplify_map_eq|]; split; [by simplify_map_eq|].
  all: split; [eexists; do 2 (rewrite lookup_insert_ne by done);
               rewrite lookup_insert_eq; reflexivity|].
  all: eexists _, _; split; [eassumption|]; split; [eassumption|]; auto.
Qed.

Lemma prepare_fallback (watermark_text : option text) (path content : string)
    (max_size : Z) (w : World) :
  path ≠ "" → files w !! path = Some content →
  imdecode_unchanged content = None →
  prepare_watermark_data settings watermark_text (Some path) max_size w
  = lift (prepare_text_or_none watermark_text max_size) w.
Proof.
  intros Hpath Hfile Hdec. unfold prepare_watermark_data. cbv zeta.
  cbn [default from_option id].
  apply String.eqb_neq in Hpath. rewrite Hpath. cbn [negb].
  unfold mbind at 1, M_bind at 1, path_exists at 1, gets at 1. rewrite Hfile.
  rewrite bool_decide_eq_true_2 by by eexists.
  unfold mbind at 1, M_bind at 1, imread at 1, gets at 1. rewrite Hfile.
  cbn [mbind option_bind]. by rewrite Hdec.
Qed.

Lemma confirm_type_image (metadata : gmap string value) :
  confirm_type "image" metadata = <["watermark_type" := VStr "image"]> metadata.
Proof. reflexivity. Qed.

Lemma final_metadata_kind (metadata : gmap string value) (watermark : list (list Z))
    (timestamp : string) :
  final_metadata metadata watermark timestamp !! "watermark_type"
  = metadata !! "watermark_type".
Proof. unfold final_metadata. by simplify_map_eq. Qed.

Lemma watermarked_image_kind (image_path : string) (watermark_text : option text)
    (path content : string) (w : World) :
  path ≠ "" → files w !! path = Some content →
  wp (watermarked_image settings image_path watermark_text (Some path))
     (λ w' o, match o with
              | Next computed => computed.2 !! "watermark_type" = Some (VStr "image")
              | _ => True
              end) w.
Proof.
  intros Hpath Hfile. unfold watermarked_image. cbv zeta.
  cbn [default from_option id].
  apply String.eqb_neq in Hpath. rewrite Hpath. cbn [negb].
  apply wp_bind, wp_gets. rewrite Hfile.
  rewrite bool_decide_eq_true_2 by by eexists.
  lazy beta iota.
  repeat (first [wp_step | apply wp_any; intros ? [?| |?]]; lazy beta iota).
  all: try done.
  all: cbn [fst snd]; rewrite confirm_type_image; by simplify_map_eq.
Qed.

(** What the encoder makes of a reference image that decodes when no call
    fails: the binarised image, resized where its shape asks for it, and
    the two copies on disk. *)
Lemma prepare_image_runs (watermark_text : option text) (path content : string)
    (max_size : Z) (wm_img : ndarray) (encoded : string)
    (gray normalized watermark : list (list Z)) (w : World) :
  let original :=
    path_join (STATIC_DIR settings)
              ("original_watermark_" +:+ entropy w (drawn w) +:+ ".png") in
  let backup :=
    path_join (PROCESSED_DIR settings)
              ("backup_watermark_" +:+ entropy w (drawn w) +:+ ".png") in
  let size := Z.min max_size 32 in
  let binary_wm := threshold_binary normalized in
  path ≠ "" → files w !! path = Some content →
  imdecode_unchanged content = Some wm_img →
  faults w = [] →
  imencode original wm_img = Some encoded →
  payload_gray wm_img = Ok gray →
  normalize_minmax gray = Ok normalized →
  (if negb (Z.of_nat (shape0 binary_wm) =? size)
      || negb (Z.of_nat (shape1 binary_wm) =? size)
   then resize_nearest binary_wm size size
   else Ok binary_wm) = Ok watermark →
  ∃ w' metadata,
    prepare_watermark_data settings watermark_text (Some path) max_size w
      = (w', Next (watermark, metadata)) ∧
    files w' = <[backup := encoded]> (<[original := encoded]> (files w)).
Proof.
  intros original backup size binary_wm Hpath Hfile Hdec Hfaults Henc Hgray Hnorm Hsize.
  subst original backup size binary_wm.
  unfold prepare_watermark_data. cbv zeta. cbn [default from_option id].
  apply String.eqb_neq in Hpath. rewrite Hpath. cbn [negb].
  unfold imread, makedirs, imwrite, copy2, write_file, read_file, path_exists,
    uuid4, fault, store, modify, set_files, gets, raise.
  unfold mbind, M_bind, mret, M_ret.
  rewrite Hfile. rewrite bool_decide_eq_true_2 by by eexists.
  repeat first [progress rewrite Hfile | progress rewrite Hdec
               | progress rewrite Hfaults | progress rewrite Henc
               | progress rewrite Hgray | progress rewrite Hnorm
               | progress rewrite lookup_insert_eq
               | progress unfold lift, mret, M_ret
               | progress cbn beta iota delta
                   [files faults entropy drawn now mbind option_bind]].
  destruct (negb _ || negb _);
    [rewrite Hsize|injection Hsize as <-];
    eexists _, _; (split; reflexivity).
Qed.

(** C7. A reference image that exists and decodes is the payload, whatever
    the text: the encoder cannot return the text matrix or the text
    metadata (it returns the binarised image with metadata of kind image,
    or raises), the metadata [embed_watermark] writes is of kind image,
    and when no call of the file system or of the image library fails the
    encoder does return, with the binarised image and the two copies on
    disk. A reference image that exists and does not decode sends the
    encoder to the text path: the diagonal matrix and metadata of kind
    text when a text is given, the 1 by 1 zero matrix and kind none when
    it is not. *)
Theorem image_payload_takes_priority (watermark_text : option text)
    (path content : string) (max_size : Z) (w : World) :
  path ≠ "" → files w !! path = Some content →
  let run := prepare_watermark_data settings watermark_text (Some path) max_size w in
  match imdecode_unchanged content with
  | Some wm_img =>
      match run.2 with
      | Next prepared => encodes_image wm_img max_size prepared
      | Returned => False
      | Raised _ => True
      end ∧
      (∀ image_path,
        match (watermarked_image settings image_path watermark_text (Some path) w).2 with
        | Next computed =>
            ∀ timestamp,
              final_metadata computed.2 computed.1.2 timestamp !! "watermark_type"
              = Some (VStr "image")
        | _ => True
        end) ∧
      (∀ encoded gray normalized watermark,
         let original :=
           path_join (STATIC_DIR settings)
                     ("original_watermark_" +:+ entropy w (drawn w) +:+ ".png") in
         let backup :=
           path_join (PROCESSED_DIR settings)
                     ("backup_watermark_" +:+ entropy w (drawn w) +:+ ".png") in
         let size := Z.min max_size 32 in
         let binary_wm := threshold_binary normalized in
         faults w = [] →
         imencode original wm_img = Some encoded →
         payload_gray wm_img = Ok gray →
         normalize_minmax gray = Ok normalized →
         (if negb (Z.of_nat (shape0 binary_wm) =? size)
             || negb (Z.of_nat (shape1 binary_wm) =? size)
          then resize_nearest binary_wm size size
          else Ok binary_wm) = Ok watermark →
         ∃ w' metadata,
           run = (w', Next (watermark, metadata)) ∧
           encodes_image wm_img max_size (watermark, metadata) ∧
           files w' = <[backup := encoded]> (<[original := encoded]> (files w)))
  | None =>
      match watermark_text with
      | Some t =>
          ∀ text_bytes, utf8_encode t = Ok text_bytes → 0 ≤ max_size →
            ∃ watermark metadata,
              text_matrix t max_size = Ok watermark ∧
              run = (w, Next (watermark, metadata)) ∧
              metadata !! "watermark_type" = Some (VStr "text") ∧
              metadata !! "watermark_text" = Some (VStr (string_of_bytes text_bytes)) ∧
              metadata !! "watermark_image_url" = None
      | None =>
          ∃ metadata,
            run = (w, Next ([[0]], metadata)) ∧
            metadata !! "watermark_type" = Some (VStr "none") ∧
            metadata !! "watermark_text" = None ∧
            metadata !! "watermark_image_url" = None
      end
  end.
Proof.
  intros Hpath Hfile run.
  destruct (imdecode_unchanged content) as [wm_img|] eqn:Hdec.
  - pose proof (prepare_image_spec watermark_text path content max_size wm_img w
                  Hpath Hfile Hdec) as Hspec.
    split; [exact Hspec|]. split.
    + intros image_path.
      pose proof (watermarked_image_kind image_path watermark_text path content w
                    Hpath Hfile) as Hkind.
      unfold wp in Hkind.
      destruct (watermarked_image _ _ _ _ w) as [w' [computed| |e]]; [|done..].
      intros timestamp. by rewrite final_metadata_kind.
    + intros encoded gray normalized watermark original backup size binary_wm
        Hfaults Henc Hgray Hnorm Hsize.
      destruct (prepare_image_runs watermark_text path content max_size wm_img encoded
                  gray normalized watermark w Hpath Hfile Hdec Hfaults Henc Hgray Hnorm
                  Hsize) as (w' & metadata & Hrun & Hfiles).
      exists w', metadata. fold run in Hrun. split; [done|]. split; [|done].
      unfold wp in Hspec. fold run in Hspec. by rewrite Hrun in Hspec.
  - subst run. rewrite (prepare_fallback _ _ _ _ _ Hpath Hfile Hdec).
    destruct watermark_text as [t|].
    + intros text_bytes Henc Hmax.
      destruct (text_matrix_ok t max_size text_bytes Henc Hmax) as [watermark Hm].
      eexists watermark, _. split; [done|].
      unfold prepare_text_or_none. rewrite Henc, Hm. cbn [mbind res_bind lift].
      split; [reflexivity|]. by simplify_map_eq.
    + eexists. split; [reflexivity|]. by simplify_map_eq.
Qed.
End encoder.

Lemma image_payload_takes_priority_witness :
  let w := Toy.world [("/wm.png", "PNG")] [] in
  ∃ w' watermark metadata,
    prepare_watermark_data Toy.settings (Some [104; 105]) (Some "/wm.png") 32 w
      = (w', Next (watermark, metadata)) ∧
    encodes_image (Color Toy.carrier) 32 (watermark, metadata) ∧
    files w' !! "/srv/processed/backup_watermark_u0.png" = Some "PNG".
Proof.
  intros w.
  pose proof (image_payload_takes_priority Toy.settings (Some [104; 105])
                "/wm.png" "PNG" 32 w ltac:(done) eq_refl) as Hthm.
  cbn zeta in Hthm. change (imdecode_unchanged "PNG") with (Some (Color Toy.carrier)) in Hthm.
  cbn beta iota in Hthm. destruct Hthm as (_ & _ & Hruns).
  destruct (Hruns "PNG" _ _ _ eq_refl eq_refl eq_refl eq_refl eq_refl)
    as (w' & metadata & Hrun & Henc & Hfiles).
  eexists w', _, metadata. split; [exact Hrun|]. split; [exact Henc|].
  rewrite Hfiles. reflexivity.
Defined.

(** The same run, evaluated: metadata of kind image and no text. *)
Example image_payload_run :
  match (prepare_watermark_data Toy.settings (Some [104; 105]) (Some "/wm.png") 32
           (Toy.world [("/wm.png", "PNG")] [])).2 with
  | Next prepared =>
      prepared.2 !! "watermark_type" = Some (VStr "image") ∧
      prepared.2 !! "watermark_text" = None ∧
      shape0 prepared.1 = 32%nat ∧ shape1 prepared.1 = 32%nat
  | _ => False
  end.
Proof. vm_compute. done. Qed.

(** An existing reference image that does not decode: the encoder encodes
    the text, and [embed_watermark] tags the metadata as image all the same
    (line 209), keeping the text field. *)
Example undecodable_image_run :
  let w := Toy.world [("/in.png", "PNG"); ("/wm.png", "JPG")] [] in
  match (prepare_watermark_data Toy.settings (Some [104; 105]) (Some "/wm.png") 32 w).2,
        (watermarked_image Toy.settings "/in.png" (Some [104; 105]) (Some "/wm.png") w).2 with
  | Next prepared, Next computed =>
      prepared.2 !! "watermark_type" = Some (VStr "text") ∧
      Ok prepared.1 = text_matrix [104; 105] 32 ∧
      computed.2 !! "watermark_type" = Some (VStr "image") ∧
      computed.2 !! "watermark_text" = Some (VStr "hi")
  | _, _ => False
  end.
Proof. vm_compute. done. Qed.

(** ** The resized payload and the band *)

Lemma py_div_pos (a b : Z) :
  0 < b → py_div (inject_Z a) (inject_Z b) = Ok (inject_Z a / inject_Z b)%Q.
Proof.
  intros Hb. unfold py_div.
  destruct (Qeq_bool (inject_Z b) 0) eqn:Heq; [|done].
  apply Qeq_bool_iff in Heq. unfold Qeq in Heq. simpl in Heq. lia.
Qed.

Lemma py_div_zero (a : Q) : py_div a (inject_Z 0) = Err "ZeroDivisionError".
Proof. reflexivity. Qed.

Lemma scaled_side_bounds (side bound : Z) (scale : Q) :
  0 < side → 0 < bound →
  (0 <= scale)%Q → (scale <= 1)%Q → (scale <= inject_Z bound / inject_Z side)%Q →
  1 ≤ scaled_side side scale ≤ Z.min side bound.
Proof.
  intros Hside Hbound H0 H1 Hratio. unfold scaled_side.
  assert (0 < inject_Z side)%Q as Hs by (change 0%Q with (inject_Z 0); by rewrite <- Zlt_Qlt).
  assert (0 <= inject_Z side * scale)%Q as Hnn by (apply Qmult_le_0_compat; lra).
  rewrite (py_int_floor _ Hnn).
  assert (inject_Z side * scale <= inject_Z side)%Q as Hle1.
  { rewrite <- (Qmult_1_r (inject_Z side)) at 2. apply Qmult_le_l; lra. }
  assert (inject_Z side * scale <= inject_Z bound)%Q as Hle2.
  { apply Qle_trans with (inject_Z side * (inject_Z bound / inject_Z side))%Q.
    - apply Qmult_le_l; lra.
    - rewrite Qmult_div_r; [lra|]. lra. }
  apply Qfloor_resp_le in Hle1, Hle2. rewrite Qfloor_Z in Hle1, Hle2. lia.
Qed.

(** The payload matrix is never enlarged and always fits the band: for a
    matrix of [wm_h] by [wm_w] cells and a band of [ll_h] by [ll_w]
    coefficients, none of them zero, lines 237-243 compute a shape of at
    least 1 by 1 that exceeds neither the matrix nor the band. A matrix with
    no rows or no columns divides by zero. *)
Theorem resized_payload_fits (wm_h wm_w ll_h ll_w : Z) :
  0 < ll_h → 0 < ll_w → 0 ≤ wm_h → 0 ≤ wm_w →
  if (wm_h =? 0) || (wm_w =? 0)
  then fit_scale wm_h wm_w ll_h ll_w = Err "ZeroDivisionError"
  else ∃ scale,
    fit_scale wm_h wm_w ll_h ll_w = Ok scale ∧
    1 ≤ scaled_side wm_h scale ≤ Z.min wm_h ll_h ∧
    1 ≤ scaled_side wm_w scale ≤ Z.min wm_w ll_w.
Proof.
  intros Hlh Hlw Hh Hw. unfold fit_scale.
  destruct (Z.eqb_spec wm_h 0) as [->|Hh0]; [done|].
  rewrite (py_div_pos ll_h wm_h) by lia. cbn [mbind res_bind].
  destruct (Z.eqb_spec wm_w 0) as [->|Hw0]; [done|].
  rewrite (py_div_pos ll_w wm_w) by lia. cbn [mbind res_bind orb].
  eexists. split; [reflexivity|].
  set (rh := (inject_Z ll_h / inject_Z wm_h)%Q).
  set (rw := (inject_Z ll_w / inject_Z wm_w)%Q).
  assert (∀ a b, 0 < a → 0 < b → (0 < inject_Z a / inject_Z b)%Q) as Hpos.
  { intros a b Ha Hb. apply Qlt_shift_div_l.
    - change 0%Q with (inject_Z 0). by rewrite <- Zlt_Qlt.
    - rewrite Qmult_0_l. change 0%Q with (inject_Z 0). by rewrite <- Zlt_Qlt. }
  assert (0 < rh)%Q as Hrh by (apply Hpos; lia).
  assert (0 < rw)%Q as Hrw by (apply Hpos; lia).
  destruct (py_min_spec 1 rh) as [[? Eh]|[? Eh]];
    destruct (py_min_spec 1 rw) as [[? Ew]|[? Ew]]; rewrite Eh, Ew;
    match goal with |- context [py_min ?a ?b] =>
      destruct (py_min_spec a b) as [[? E]|[? E]]; rewrite E end.
  all: split; apply scaled_side_bounds; try lia; subst rh rw; lra.
Qed.

Lemma resized_payload_fits_witness :
  ∃ scale, fit_scale 32 32 10 20 = Ok scale ∧
    1 ≤ scaled_side 32 scale ≤ Z.min 32 10 ∧
    1 ≤ scaled_side 32 scale ≤ Z.min 32 20.
Proof.
  exact (resized_payload_fits 32 32 10 20 ltac:(lia) ltac:(lia) ltac:(lia) ltac:(lia)).
Defined.

(** ** What the service engine writes into the band *)

Lemma embedded_value_capped (o : Q) (v : Z) :
  (0 <= o)%Q → (o < 250 * inject_Z v)%Q →
  embedded_value o v = (o + o * (1 # 5))%Q.
Proof.
  intros Ho Hv. unfold embedded_value.
  assert (0 < v) as Hpos.
  { rewrite Zlt_Qlt. change (inject_Z 0) with 0%Q. lra. }
  apply Z.ltb_lt in Hpos. rewrite Hpos.
  destruct (py_min_spec (effective_alpha * inject_Z v) (o * (1 # 5))) as [[_ ->]|[Hle _]];
    [done|].
  exfalso. unfold effective_alpha in Hle.
  assert (inject_Z self_alpha * (1 # 2) == 50)%Q as E by reflexivity.
  rewrite E in Hle. lra.
Qed.

Lemma embedded_value_zero (o : Q) (v : Z) : v ≤ 0 → embedded_value o v = o.
Proof.
  intros Hv. unfold embedded_value.
  destruct (Z.ltb_spec 0 v); [lia|done].
Qed.

(** In the service engine the cap takes the payload's values out of the
    band: where the coefficients under the window lie in [[0, 250 v)] for
    every positive cell [v] (with 8-bit pixels and one Haar level a
    coefficient is at most 510, so every cell of 3 or more qualifies), a
    positive cell multiplies its coefficient by 1.2 whatever its value.
    Two payload matrices with the same positive cells then give the same
    band, cell for cell. *)
Theorem embedding_keeps_only_support (H W rh rw : nat) (ll_band : list (list Q))
    (wm wm' : list (list Z)) :
  rect H W ll_band → rect rh rw wm → rect rh rw wm' →
  (0 < rh ≤ H)%nat → (rw ≤ W)%nat →
  let ho := ((H - rh) / 2)%nat in
  let wo := ((W - rw) / 2)%nat in
  (∀ i j, (i < rh)%nat → (j < rw)%nat →
     (0 < wm_cell wm i j ↔ 0 < wm_cell wm' i j) ∧
     (0 < wm_cell wm i j →
        (0 <= coef ll_band (ho + i) (wo + j))%Q ∧
        (coef ll_band (ho + i) (wo + j)
           < 250 * inject_Z (Z.min (wm_cell wm i j) (wm_cell wm' i j)))%Q)) →
  ∃ band',
    embed_window embed_cells ll_band wm = Ok band' ∧
    embed_window embed_cells ll_band wm' = Ok band' ∧
    rect H W band' ∧
    ∀ r c, (r < H)%nat → (c < W)%nat →
      cell band' r c =
        Some (if decide (in_window ho wo rh rw r c ∧ 0 < wm_cell wm (r - ho) (c - wo))
              then (coef ll_band r c + coef ll_band r c * (1 # 5))%Q
              else coef ll_band r c).
Proof.
  intros Hll Hwm Hwm' Hrh Hrw ho wo Hcells.
  destruct (embed_window_cells value_based H W rh rw ll_band wm Hll Hwm Hrh Hrw)
    as (band1 & fixed1 & -> & _ & Hr1 & _ & Hc1).
  destruct (embed_window_cells value_based H W rh rw ll_band wm' Hll Hwm' Hrh Hrw)
    as (band2 & fixed2 & -> & _ & Hr2 & _ & Hc2).
  fold ho wo in Hc1, Hc2.
  assert (∀ r c, (r < H)%nat → (c < W)%nat →
            cell band1 r c =
              Some (if decide (in_window ho wo rh rw r c ∧ 0 < wm_cell wm (r - ho) (c - wo))
                    then (coef ll_band r c + coef ll_band r c * (1 # 5))%Q
                    else coef ll_band r c) ∧
            cell band2 r c = cell band1 r c) as Hboth.
  { intros r c Hr Hc.
    destruct (Hc1 r c Hr Hc) as [E1 _]. destruct (Hc2 r c Hr Hc) as [E2 _].
    rewrite E1, E2.
    destruct (decide (in_window ho wo rh rw r c)) as [Hin|Hout].
    - destruct Hin as [Hin1 Hin2].
      destruct (Hcells (r - ho)%nat (c - wo)%nat ltac:(lia) ltac:(lia)) as [Hiff Hbound].
      replace (ho + (r - ho))%nat with r in Hbound by lia.
      replace (wo + (c - wo))%nat with c in Hbound by lia.
      destruct (decide (0 < wm_cell wm (r - ho) (c - wo))) as [Hpos|Hzero].
      + destruct (Hbound Hpos) as [Hnn Hlt].
        assert (0 < wm_cell wm' (r - ho) (c - wo)) as Hpos' by by apply Hiff.
        rewrite decide_True by (split; [done|done]).
        rewrite !embedded_value_capped; [done|done|..|done|].
        * eapply Qlt_le_trans; [exact Hlt|]. apply Qmult_le_l; [lra|].
          apply inject_Z_le. lia.
        * eapply Qlt_le_trans; [exact Hlt|]. apply Qmult_le_l; [lra|].
          apply inject_Z_le. lia.
      + assert (¬ 0 < wm_cell wm' (r - ho) (c - wo)) as Hzero' by (by rewrite <- Hiff).
        rewrite decide_False by (intros [_ ?]; done).
        rewrite !embedded_value_zero by lia. done.
    - rewrite decide_False by (intros [? _]; done). done. }
  exists band1. split; [done|]. split.
  - f_equal. apply (rect_ext H W); [done|done|]. intros r c Hr Hc.
    by destruct (Hboth r c Hr Hc).
  - split; [done|]. intros r c Hr Hc. by destruct (Hboth r c Hr Hc).
Qed.

Lemma embedding_keeps_only_support_witness :
  ∃ band',
    embed_window embed_cells [[300; 400]; [500; 100]]%Q [[104%Z]] = Ok band' ∧
    embed_window embed_cells [[300; 400]; [500; 100]]%Q [[255%Z]] = Ok band'.
Proof.
  destruct (embedding_keeps_only_support 2 2 1 1 [[300; 400]; [500; 100]]%Q
              [[104]] [[255]]) as (band' & E1 & E2 & _).
  - by repeat constructor.
  - by repeat constructor.
  - by repeat constructor.
  - lia.
  - lia.
  - intros [|i] [|j] Hi Hj; try lia. vm_compute. split; [split; done|].
    intros _. split; [discriminate|reflexivity].
  - exists band'. by split.
Defined.

(** ** What blind detection needs *)

Lemma byte_of_coefficient_small (x : Q) :
  (x < 800)%Q → 0 ≤ byte_of_coefficient x ≤ 7.
Proof.
  intros Hx. rewrite byte_of_coefficient_clamp. unfold clamp.
  assert (x / inject_Z self_alpha < 8)%Q as Hq.
  { apply Qlt_shift_div_r; [reflexivity|].
    assert (8 * inject_Z self_alpha == 800)%Q as -> by reflexivity. done. }
  set (y := (x / inject_Z self_alpha)%Q) in *.
  assert (0 <= Qmax 0 (Qmin 255 y))%Q as Hlo by apply Q.le_max_l.
  assert (Qmax 0 (Qmin 255 y) < 8)%Q as Hhi.
  { apply Q.max_lub_lt; [reflexivity|].
    eapply Qle_lt_trans; [apply Q.le_min_r|done]. }
  split.
  - apply Qfloor_resp_le in Hlo. by change (Qfloor 0) with 0 in Hlo.
  - pose proof (Qfloor_le (Qmax 0 (Qmin 255 y))) as Hf.
    assert (inject_Z (Qfloor (Qmax 0 (Qmin 255 y))) < inject_Z 8)%Q as Hlt.
    { change (inject_Z 8) with 8%Q. lra. }
    rewrite <- Zlt_Qlt in Hlt. lia.
Qed.

Lemma rect_concat_Forall {A} (P : A → Prop) (h w : nat) (m : list (list A)) :
  rect h w m →
  (∀ i j, (i < h)%nat → (j < w)%nat → ∃ v, cell m i j = Some v ∧ P v) →
  Forall P (concat m).
Proof.
  intros [Hlen Hrows] Hcells. apply Forall_concat, Forall_lookup.
  intros i row Hrow. apply Forall_lookup. intros j v Hv.
  assert (i < h)%nat as Hi by (rewrite <- Hlen; by eapply lookup_lt_Some).
  assert (length row = w) as Hw.
  { rewrite Forall_lookup in Hrows. by eapply Hrows. }
  assert (j < w)%nat as Hj by (rewrite <- Hw; by eapply lookup_lt_Some).
  destruct (Hcells i j Hi Hj) as (v' & Hcell & HP).
  unfold cell in Hcell. rewrite Hrow in Hcell. simpl in Hcell.
  rewrite Hv in Hcell. by simplify_eq.
Qed.

Lemma rect_concat_length {A} (h w : nat) (m : list (list A)) :
  rect h w m → length (concat m) = (h * w)%nat.
Proof.
  intros [Hlen Hrows]. subst h.
  induction m as [|row m IH]; [done|].
  apply Forall_cons in Hrows as [Hrow Hrows].
  simpl. rewrite length_app, IH by done. lia.
Qed.

Lemma signal_power_bound (bound : Z) (cells : list Z) :
  Forall (λ v, 0 ≤ v ≤ bound) cells → bound * bound < 256 →
  foldr Z.add 0 (map square_u8 cells) ≤ bound * bound * Z.of_nat (length cells).
Proof.
  intros Hcells Hb. induction Hcells as [|v cells Hv _ IH]; [simpl; lia|].
  cbn [map foldr length]. unfold square_u8 at 1.
  assert (v * v ≤ bound * bound) by nia.
  rewrite Z.mod_small by nia. lia.
Qed.

(** A positive blind detection needs coefficients of 800 or more: on a
    band whose coefficients all lie below 800 (with 8-bit pixels and one
    Haar level they are at most 510) the recovered bytes are at most 7,
    their mean square is at most 49, and the detector of lines 580-590
    answers no, whatever was embedded. *)
Theorem blind_detection_needs_large_coefficients (H W : nat) (ll_band : list (list Q)) :
  rect H W ll_band → (0 < H)%nat →
  (∀ r c, (r < H)%nat → (c < W)%nat → (coef ll_band r c < 800)%Q) →
  ∃ extracted_wm,
    extract_cells ll_band = Ok extracted_wm ∧
    Forall (λ v, 0 ≤ v ≤ 7) (concat extracted_wm) ∧
    signal_detected extracted_wm (estimate_wm_size ll_band) = false.
Proof.
  intros Hll HH Hsmall.
  destruct (extract_cells_cells H W ll_band Hll HH) as (extracted & Hrun & Hrect & Hcells).
  cbn zeta in Hrect, Hcells.
  set (side := Nat.min 32 (Nat.min (H / 2) (W / 2))) in *.
  assert (H / 2 ≤ H)%nat by (apply Nat.Div0.div_le_upper_bound; lia).
  assert (W / 2 ≤ W)%nat by (apply Nat.Div0.div_le_upper_bound; lia).
  assert (side ≤ H)%nat as HsH by (subst side; lia).
  assert (side ≤ W)%nat as HsW by (subst side; lia).
  pose proof (window_fits H side HsH) as HfH.
  pose proof (window_fits W side HsW) as HfW.
  assert (Forall (λ v, 0 ≤ v ≤ 7) (concat extracted)) as Hbytes.
  { apply (rect_concat_Forall _ side side); [done|]. intros i j Hi Hj.
    eexists. split; [by apply Hcells|]. cbn zeta.
    destruct (above_threshold _); [|lia].
    apply byte_of_coefficient_small, Hsmall; lia. }
  exists extracted. split; [done|]. split; [done|].
  unfold signal_detected.
  destruct (Qlt_bool (inject_Z _ * (1 # 4)) _); [|done].
  apply Qlt_bool_false. unfold average_signal.
  rewrite (estimate_wm_size_rect H W _ Hll HH). fold side.
  destruct (Z.ltb_spec 0 (Z.of_nat side * Z.of_nat side)) as [Hpos|_]; [|lra].
  pose proof (signal_power_bound 7 _ Hbytes ltac:(lia)) as Hpow.
  rewrite (rect_concat_length side side) in Hpow by done.
  fold (signal_power extracted) in Hpow.
  apply Qle_shift_div_r.
  - change 0%Q with (inject_Z 0). by rewrite <- Zlt_Qlt.
  - change 50%Q with (inject_Z 50). rewrite <- inject_Z_mult. apply inject_Z_le. lia.
Qed.

Lemma blind_detection_needs_large_coefficients_witness :
  ∃ extracted_wm,
    extract_cells (replicate 4 (replicate 4 510%Q)) = Ok extracted_wm ∧
    signal_detected extracted_wm 2 = false.
Proof.
  destruct (blind_detection_needs_large_coefficients 4 4 (replicate 4 (replicate 4 510%Q)))
    as (extracted_wm & Hrun & _ & Hno).
  - by repeat constructor.
  - lia.
  - intros r c Hr Hc.
    destruct r as [|[|[|[|r]]]]; try lia;
      destruct c as [|[|[|[|c]]]]; try lia; reflexivity.
  - exists extracted_wm. split; [done|]. exact Hno.
Defined.

(** ** Paths and base names *)

Lemma has_slash_app (a b : string) :
  has_slash (a +:+ b) = has_slash a || has_slash b.
Proof.
  induction a as [|c a IH]; [done|].
  change (String c a +:+ b) with (String c (a +:+ b)).
  cbn [has_slash]. by rewrite IH, orb_assoc.
Qed.

Lemma basename_no_slash (p : string) : has_slash p = false → basename p = p.
Proof. destruct p as [|c p]; [done|]. cbn [basename]. by intros ->. Qed.

Lemma has_slash_basename (p : string) : has_slash (basename p) = false.
Proof.
  induction p as [|c p IH]; [done|]. cbn [basename].
  by destruct (has_slash (String c p)) eqn:Hs.
Qed.

Lemma basename_after_slash (a b : string) :
  has_slash b = false → basename (a +:+ "/" +:+ b) = b.
Proof.
  intros Hb. induction a as [|c a IH].
  - change ("" +:+ "/" +:+ b) with (String "/" b). cbn [basename has_slash].
    change (Ascii.eqb "/" "/") with true. cbn [orb]. by apply basename_no_slash.
  - change (String c a +:+ "/" +:+ b) with (String c (a +:+ "/" +:+ b)).
    cbn [basename].
    assert (has_slash (String c (a +:+ "/" +:+ b)) = true) as ->; [|done].
    cbn [has_slash]. rewrite has_slash_app.
    change (has_slash ("/" +:+ b)) with (Ascii.eqb "/" "/" || has_slash b).
    change (Ascii.eqb "/" "/") with true. cbn [orb]. by rewrite !orb_true_r.
Qed.

Lemma str_last_slash (a : string) (c : ascii) :
  str_last a = Some c → ∃ a0, a = a0 +:+ String c "".
Proof.
  induction a as [|c' a IH]; [done|]. cbn [str_last].
  destruct a as [|c'' a].
  - intros [= ->]. by exists "".
  - intros Hlast. destruct (IH Hlast) as [a0 ->]. by exists (String c' a0).
Qed.

Lemma string_prefix_app (a b : string) : String.prefix a (a +:+ b) = true.
Proof.
  induction a as [|c a IH]; [by destruct b|].
  change (String c a +:+ b) with (String c (a +:+ b)). cbn [String.prefix].
  destruct (ascii_dec c c); [done|done].
Qed.

Lemma no_slash_not_absolute (b : string) :
  has_slash b = false → String.prefix "/" b = false.
Proof.
  destruct b as [|c b]; [done|]. cbn [has_slash String.prefix].
  intros Hs. apply orb_false_iff in Hs as [Hc _].
  apply Ascii.eqb_neq in Hc. destruct (ascii_dec "/" c); [by subst|done].
Qed.

Lemma str_last_None (a : string) : str_last a = None → a = "".
Proof.
  induction a as [|c a IH]; [done|]. cbn [str_last].
  destruct a as [|c' a]; [done|]. intros Hlast. by specialize (IH Hlast).
Qed.

Lemma string_append_assoc (a b c : string) : (a +:+ b) +:+ c = a +:+ (b +:+ c).
Proof.
  induction a as [|x a IH]; [done|].
  change ((String x a +:+ b) +:+ c) with (String x ((a +:+ b) +:+ c)).
  by rewrite IH.
Qed.

(** A file name joined to a directory: the name is the base name, and the
    directory is a prefix. *)
Lemma path_join_name (dir name : string) :
  has_slash name = false →
  basename (path_join dir name) = name ∧
  String.prefix dir (path_join dir name) = true.
Proof.
  intros Hname. unfold path_join.
  rewrite (no_slash_not_absolute _ Hname).
  destruct (str_last dir) as [c|] eqn:Hlast.
  - destruct (Ascii.eqb_spec c "/") as [->|Hc].
    + split; [|apply string_prefix_app].
      destruct (str_last_slash _ _ Hlast) as [a0 ->].
      rewrite string_append_assoc. by apply basename_after_slash.
    + split; [by apply basename_after_slash|apply string_prefix_app].
  - apply str_last_None in Hlast as ->.
    split; [by apply basename_no_slash|by destruct name].
Qed.

(** ** The image-only recovery *)

Lemma in_image_result_keys (key : string) :
  key ∈ image_result_keys ↔
  key = "success" ∨ key = "detected" ∨ key = "watermark_type" ∨
  key = "watermark_image_url" ∨ key = "confidence" ∨ key = "message".
Proof. unfold image_result_keys. set_solver. Qed.

Lemma image_result_key_dom (r : gmap string value) (key : string) (v : value) :
  dom r = image_result_keys → key ∈ image_result_keys →
  dom (<[key := v]> r) = image_result_keys.
Proof. intros Hdom Hkey. rewrite dom_insert_L, Hdom. set_solver. Qed.

Ltac image_keys_solver :=
  repeat (apply image_result_key_dom; [|apply in_image_result_keys; disj_refl]);
  assumption.

Lemma initial_image_result_pending : image_pending initial_image_result.
Proof.
  unfold image_pending, initial_image_result. split; [|by simplify_map_eq].
  rewrite !dom_insert_L, dom_empty_L. unfold image_result_keys. set_solver.
Qed.

Lemma image_pending_message (r : gmap string value) (v : value) :
  image_pending r → image_pending (<["message" := v]> r).
Proof.
  intros (Hdom & ?). split; [|by simplify_map_eq].
  apply image_result_key_dom; [done|]. apply in_image_result_keys. disj_refl.
Qed.

Ltac image_found_solver :=
  lazymatch goal with
  | H : image_pending _ |- image_found _ _ _ =>
      let Hdom := fresh "Hdom" in
      destruct H as (Hdom & _);
      split; [image_keys_solver|by simplify_map_eq]
  end.

Section image_stages.
Context {L : Lib} (settings : Settings).

Lemma resolve_display_spec (metadata : value) (c1 c2 : Q) (s : St) :
  image_pending (result s) →
  wp (resolve_display settings metadata c1 c2)
     (λ s' o, match o with
              | Returned =>
                  ∃ d, metadata = VDict d ∧
                       display_resolved settings d c1 c2 (world s) s'
              | Next _ =>
                  (∃ d, metadata = VDict d) ∧
                  world s' = world s ∧ result s' = result s
              | Raised _ => result s' = result s
              end) s.
Proof.
  intros Hp. unfold resolve_display.
  wp_run; try done; simplify_eq; path_facts.
  all: try match goal with
             | H : <[?p := _]> _ !! ?p = None |- _ =>
                 by rewrite lookup_insert_eq in H
             end.
  all: try (split; [by eexists|done]).
  all: eexists; (split; [reflexivity|]).
  all: try (eapply display_original; cbn [result world];
            [eassumption|eassumption|done|image_found_solver|by simplify_map_eq]).
  all: try (eapply display_backup; cbn [result world files set_files];
            [eassumption| |eauto|
             first [eassumption
                   |unfold file_exists, static_path; cbn [files set_files world];
                    rewrite lookup_insert_eq; by eexists]|
             image_found_solver|by simplify_map_eq]).
  all: intros url Hurl.
  all: first
    [ match goal with
      | H : _ !! "watermark_image_url" = Some (VStr _) |- _ =>
          rewrite H in Hurl; simplify_eq; by right
      end
    | left;
      match goal with
      | H : truthy (default _ (_ !! "watermark_image_url")) = false |- _ =>
          rewrite Hurl in H; simpl in H;
          apply negb_false_iff, String.eqb_eq in H; exact H
      end ].
Qed.

Lemma image_sidecar_part_spec (image_path : string) (s : St) :
  image_pending (result s) →
  wp (image_sidecar_part settings image_path)
     (λ s' o, match o with
              | Returned =>
                  ∃ d, sidecar_metadata (world s) image_path = Some (VDict d) ∧
                       display_resolved settings d (98 # 100) (95 # 100) (world s) s'
              | Next _ =>
                  (∀ content, files (world s) !! (image_path +:+ ".metadata") = Some content →
                     ∃ d0, json_loads content = Some (VDict d0)) ∧
                  world s' = world s ∧ result s' = result s
              | Raised _ => result s' = result s
              end) s.
Proof.
  intros Hp. unfold image_sidecar_part.
  wp_run; try done; path_facts.
  - eapply wp_mono; [by apply resolve_display_spec|].
    cbn [result world]. intros s' [[]| |e]; lazy beta iota; try done.
    + intros ([d Hd] & Hw & Hr). split; [|done].
      intros content Hc. rewrite Hc in Heqo. simplify_eq. by exists d.
    + intros (d & -> & Hres). exists d. split; [|done].
      unfold sidecar_metadata. rewrite Heqo. simpl. done.
  - split; [|done]. intros content Hc.
    apply eq_None_not_Some in Heqb. by rewrite Hc in Heqb.
Qed.

Lemma image_trailer_part_spec (image_path : string) (s : St) :
  image_pending (result s) →
  wp (image_trailer_part settings image_path)
     (λ s' o, match o with
              | Returned =>
                  ∃ d, image_trailer_metadata (world s) image_path = Some (VDict d) ∧
                       display_resolved settings d (95 # 100) (9 # 10) (world s) s'
              | _ => result s' = result s
              end) s.
Proof.
  intros Hp. unfold image_trailer_part.
  wp_run; try done; path_facts.
  eapply wp_mono; [by apply resolve_display_spec|].
  cbn [result world]. intros s' [[]| |e]; lazy beta iota; try done.
  - by intros (_ & _ & ?).
  - intros (d & -> & Hres). exists d. split; [|done].
    unfold image_trailer_metadata. rewrite Heqo. simpl. by rewrite Heqb.
Qed.

Lemma image_metadata_stage_spec (image_path : string) (s : St) :
  image_pending (result s) →
  wp (image_metadata_stage settings image_path)
     (λ s' o, match o with
              | Returned => image_metadata_hit settings image_path (world s) s'
              | Next _ => result s' = result s
              | Raised _ => False
              end) s.
Proof.
  intros Hp. unfold image_metadata_stage.
  apply wp_try, wp_bind.
  eapply wp_mono; [by apply image_sidecar_part_spec|].
  intros s1 [[]| |e]; lazy beta iota.
  - intros (Hparse & Hw & Hr).
    eapply wp_mono; [apply image_trailer_part_spec; by rewrite Hr|].
    intros s2 [[]| |e]; lazy beta iota.
    + intros E. by rewrite E.
    + intros (d & Hmeta & Hres). rewrite Hw in Hmeta, Hres.
      by eapply image_trailer_hit.
    + intros E. apply wp_ret. by rewrite E.
  - intros (d & Hmeta & Hres). by eapply image_sidecar_hit.
  - intros E. by apply wp_ret.
Qed.

Lemma image_signal_stage_spec (image_path : string) (s : St) :
  image_pending (result s) →
  wp (image_signal_stage settings image_path)
     (λ s' o, match o with
              | Returned =>
                  image_signal_answer settings image_path (world s) (result s) s'
              | Next _ => False
              | Raised _ => result s' = result s
              end) s.
Proof.
  intros Hp. unfold image_signal_stage.
  wp_run; try done.
  all: try destruct a as [extracted_wm wm_size]; cbn [fst snd] in *.
  all: try (by eapply image_unreadable).
  all: try (by eapply image_too_few).
  all: eapply image_from_signal; cbn [result world files set_files];
    [eassumption|eassumption|eassumption|apply has_slash_basename|
     |image_found_solver|by simplify_map_eq].
  all: unfold file_exists; cbn [files set_files].
  all: repeat match goal with H : ?b = ?v |- _ => is_var b; subst b end.
  all: rewrite lookup_insert_eq; by eexists.
Qed.
End image_stages.

Section image_recovery_facts.
Context {L : Lib} (settings : Settings).

Lemma extract_image_body_run (image_path : string) (s : St) :
  extract_image_body settings image_path s =
  let failed (e : exn) (s' : St) : St * outcome unit :=
    ({| world := world s';
        result := <["message" := VStr (msg_image_failed +:+ e)]> (result s') |},
     Returned) in
  match image_metadata_stage settings image_path s with
  | (s1, Next _) =>
      match image_signal_stage settings image_path s1 with
      | (s2, Raised e) => failed e s2
      | other => other
      end
  | (s1, Returned) => (s1, Returned)
  | (s1, Raised e) => failed e s1
  end.
Proof.
  unfold extract_image_body, try_except, mbind, M_bind.
  destruct (image_metadata_stage settings image_path s) as [s1 [[]| |e1]];
    [|done..].
  by destruct (image_signal_stage settings image_path s1) as [s2 [[]| |e2]].
Qed.

Lemma extract_watermark_image_cases (image_path : string) (w : World) :
  let run1 := after_image_metadata settings image_path w in
  let run2 := after_image_signal settings image_path w in
  let answer := extract_watermark_image settings image_path w in
  (extract_image_body settings image_path (start_image w)).2 = Returned ∧
  match run1.2 with
  | Returned =>
      answer = (world run1.1, result run1.1) ∧
      image_metadata_hit settings image_path w run1.1
  | _ =>
      result run1.1 = initial_image_result ∧
      match run2.2 with
      | Returned =>
          answer = (world run2.1, result run2.1) ∧
          image_signal_answer settings image_path (world run1.1)
            initial_image_result run2.1
      | Raised e =>
          answer = (world run2.1,
                    <["message" := VStr (msg_image_failed +:+ e)]> initial_image_result)
      | Next _ => False
      end
  end.
Proof.
  intros run1 run2 answer. subst run1 run2 answer.
  unfold after_image_signal, after_image_metadata, extract_watermark_image.
  fold (start_image w). rewrite extract_image_body_run. cbv zeta.
  pose proof (image_metadata_stage_spec settings image_path (start_image w)
                initial_image_result_pending) as H1.
  unfold wp in H1.
  destruct (image_metadata_stage settings image_path (start_image w)) as [s1 o1].
  cbn [fst snd result] in *.
  pose proof (image_signal_stage_spec settings image_path s1) as H2.
  unfold wp in H2.
  destruct o1 as [[]| |e1]; cbn [fst snd]; [|done..].
  change (result (start_image w)) with initial_image_result in H1.
  rewrite H1 in H2. specialize (H2 initial_image_result_pending).
  destruct (image_signal_stage settings image_path s1) as [s2 o2].
  cbn [fst snd] in *.
  destruct o2 as [[]| |e2]; [done|done|].
  cbn [fst snd world result]. by rewrite H2.
Qed.

(** [extract_watermark_image] is total, and its dictionary has one of two
    shapes. It always has exactly the six keys [success], [detected],
    [watermark_type], [watermark_image_url], [confidence] and [message],
    and its kind is always image. Either it is a positive answer: detected
    and success are true, the URL is a string, and the confidence is 0.98,
    0.95, 0.90 or 0.7. Or detected and success are both false, the
    confidence is the integer 0 and the URL is [None]: unlike
    [extract_watermark], this operation reports the absence of a watermark
    as a failure. *)
Theorem extract_watermark_image_total (image_path : string) (w : World) :
  let r := (extract_watermark_image settings image_path w).2 in
  (extract_image_body settings image_path (start_image w)).2 = Returned ∧
  dom r = image_result_keys ∧
  r !! "watermark_type" = Some (VStr "image") ∧
  ((∃ c url, image_found c url r ∧
             (c = 98 # 100 ∨ c = 95 # 100 ∨ c = 9 # 10 ∨ c = 7 # 10))
   ∨ image_pending r).
Proof.
  intros r. subst r.
  pose proof (extract_watermark_image_cases image_path w) as [Hret Hcases].
  split; [done|]. cbn zeta in Hcases.
  assert (∀ r, ((∃ c url, image_found c url r ∧
                   (c = 98 # 100 ∨ c = 95 # 100 ∨ c = 9 # 10 ∨ c = 7 # 10))
                ∨ image_pending r) →
               dom r = image_result_keys ∧
               r !! "watermark_type" = Some (VStr "image") ∧
               ((∃ c url, image_found c url r ∧
                   (c = 98 # 100 ∨ c = 95 # 100 ∨ c = 9 # 10 ∨ c = 7 # 10))
                ∨ image_pending r)) as Hshape.
  { intros r [(c & url & Hf & Hc)|Hp].
    - split; [apply Hf|]. split; [apply Hf|]. left. by exists c, url.
    - split; [apply Hp|]. split; [apply Hp|]. by right. }
  apply Hshape.
  assert (∀ d c1 c2 w0 s',
            display_resolved settings d c1 c2 w0 s' →
            ∃ c url, image_found c url (result s') ∧ (c = c1 ∨ c = c2)) as Hres.
  { intros d c1 c2 w0 s' [url ? ? ? Hf ?|url ? ? ? ? Hf ?]; eauto. }
  destruct ((after_image_metadata settings image_path w).2) as [[]| |e1].
  2: { destruct Hcases as [-> Hhit]. cbn [snd]. left.
       destruct Hhit as [d _ Hd|d _ _ Hd];
         destruct (Hres _ _ _ _ _ Hd) as (c & url & Hf & [->| ->]);
         eexists _, _; (split; [exact Hf|]); auto. }
  all: destruct Hcases as [Hinit Hcases];
    destruct ((after_image_signal settings image_path w).2) as [[]| |e2]; try done.
  all: lazymatch type of Hcases with
       | _ ∧ _ =>
           destruct Hcases as [-> Hans]; cbn [snd];
           destruct Hans as [_ _ ->|img m size _ _ _ _ ->|img m size f _ _ _ _ _ Hf _];
           [right; apply image_pending_message, initial_image_result_pending
           |right; apply image_pending_message, initial_image_result_pending
           |left; eexists _, _; split; [exact Hf|auto]]
       | _ =>
           rewrite Hcases; cbn [snd]; right;
           apply image_pending_message, initial_image_result_pending
       end.
Qed.
End image_recovery_facts.

(** ** A sidecar file that cannot be used *)

Section unusable_sidecar.
Context {L : Lib} (settings : Settings).

Lemma resolve_display_not_dict (metadata : value) (c1 c2 : Q) (s : St) :
  (∀ d, metadata ≠ VDict d) →
  resolve_display settings metadata c1 c2 s = (s, Raised "AttributeError").
Proof. intros Hd. destruct metadata; try done. by destruct (Hd d). Qed.

Lemma image_signal_only (image_path : string) (s : St) :
  image_metadata_stage settings image_path s = (s, Next tt) →
  extract_image_body settings image_path s =
  match image_signal_stage settings image_path s with
  | (s2, Raised e) =>
      ({| world := world s2;
          result := <["message" := VStr (msg_image_failed +:+ e)]> (result s2) |},
       Returned)
  | other => other
  end.
Proof. intros Hrun. rewrite extract_image_body_run. cbv zeta. by rewrite Hrun. Qed.

(** A sidecar file that exists and does not hold a JSON object, because it
    does not parse or parses to something else, takes the trailer out of
    the image-only recovery: both sit under one handler (lines 675-779), so
    the metadata stage ends without an answer and without reading the image
    file, and the answer is that of the signal stage alone. In
    [extract_watermark] the same sidecar file is passed over and the
    trailer is read next. *)
Theorem unusable_sidecar_hides_trailer (image_path content : string) (w : World) :
  files w !! (image_path +:+ ".metadata") = Some content →
  (∀ d, json_loads content ≠ Some (VDict d)) →
  after_image_metadata settings image_path w = (start_image w, Next tt) ∧
  extract_image_body settings image_path (start_image w) =
    match image_signal_stage settings image_path (start_image w) with
    | (s2, Raised e) =>
        ({| world := world s2;
            result := <["message" := VStr (msg_image_failed +:+ e)]> (result s2) |},
         Returned)
    | other => other
    end ∧
  after_sidecar settings image_path w = (start w, Next tt) ∧
  after_trailer settings image_path w = trailer_stage settings image_path (start w).
Proof.
  intros Hfile Hjson.
  assert (after_image_metadata settings image_path w = (start_image w, Next tt)) as Himg.
  { unfold after_image_metadata, image_metadata_stage, image_sidecar_part, try_except.
    unfold mbind at 1, M_bind at 1. unfold mbind at 1, M_bind at 1.
    unfold in_world at 1, path_exists at 1, gets at 1. cbn [world start_image].
    rewrite Hfile. rewrite bool_decide_eq_true_2 by by eexists.
    unfold mbind at 1, M_bind at 1. unfold in_world at 1, read_file at 1.
    cbn [world start_image]. rewrite Hfile.
    unfold mbind at 1, M_bind at 1.
    destruct (json_loads content) as [metadata|] eqn:Hparse; [|done].
    cbn [of_option lift mret M_ret].
    rewrite resolve_display_not_dict; [done|].
    intros d ->. by destruct (Hjson d). }
  split; [done|]. split; [by apply image_signal_only|].
  assert (after_sidecar settings image_path w = (start w, Next tt)) as Hside.
  { unfold after_sidecar, sidecar_stage, try_except.
    unfold mbind at 1, M_bind at 1.
    unfold in_world at 1, path_exists at 1, gets at 1. cbn [world start].
    rewrite Hfile. rewrite bool_decide_eq_true_2 by by eexists.
    unfold mbind at 1, M_bind at 1. unfold in_world at 1, read_file at 1.
    cbn [world start]. rewrite Hfile.
    unfold mbind at 1, M_bind at 1.
    destruct (json_loads content) as [metadata|] eqn:Hparse; [|done].
    cbn [of_option lift mret M_ret].
    destruct metadata; try done. by destruct (Hjson d). }
  split; [done|]. unfold after_trailer. by rewrite Hside.
Qed.
End unusable_sidecar.

Lemma unusable_sidecar_hides_trailer_witness :
  let w := Toy.world
    [("/in.png", "PNG" +:+ trailer_marker +:+ Toy.json_object Toy.image_document);
     ("/in.png.metadata", "not json")] [] in
  after_image_metadata Toy.settings "/in.png" w = (start_image w, Next tt) ∧
  after_trailer Toy.settings "/in.png" w = trailer_stage Toy.settings "/in.png" (start w).
Proof.
  intros w.
  destruct (unusable_sidecar_hides_trailer Toy.settings "/in.png" "not json" w)
    as (Himg & _ & _ & Htrailer).
  - reflexivity.
  - intros d. vm_compute. discriminate.
  - by split.
Defined.

(** ** The threshold of the image-only recovery *)

Lemma byte_of_coefficient_positive (x : Q) :
  (100 <= x)%Q → above_threshold x = true ∧ 1 ≤ byte_of_coefficient x.
Proof.
  intros Hx. split.
  - apply above_threshold_spec.
    assert (inject_Z self_alpha / 2 == 50)%Q as -> by reflexivity. lra.
  - rewrite byte_of_coefficient_clamp. unfold clamp.
    assert (1 <= x / inject_Z self_alpha)%Q as Hq.
    { apply Qle_shift_div_l; [reflexivity|].
      assert (1 * inject_Z self_alpha == 100)%Q as -> by reflexivity. done. }
    assert (1 <= Qmax 0 (Qmin 255 (x / inject_Z self_alpha)))%Q as Hc.
    { eapply Qle_trans; [|apply Q.le_max_r]. apply Q.min_glb; [discriminate|done]. }
    apply Qfloor_resp_le in Hc. by change (Qfloor 1) with 1 in Hc.
Qed.

Lemma count_nonzero_full (cells : list (list Z)) :
  Forall (λ v, v ≠ 0) (concat cells) →
  count_nonzero cells = Z.of_nat (length (concat cells)).
Proof.
  intros Hall. unfold count_nonzero. f_equal.
  induction Hall as [|v rest Hv _ IH]; [done|].
  rewrite filter_cons_True by done. simpl. by rewrite IH.
Qed.

(** The image-only recovery takes every bright image for a watermarked
    one: on a band whose coefficients are all 100 or more (a mean pixel of
    50 with one Haar level) every recovered cell is nonzero, so the test of
    line 839, fewer than 5% nonzero cells, lets the matrix through, and
    the stage goes on to publish it with confidence 0.7. *)
Theorem bright_band_passes_image_threshold (H W : nat) (ll_band : list (list Q)) :
  rect H W ll_band → (0 < H)%nat →
  (∀ r c, (r < H)%nat → (c < W)%nat → (100 <= coef ll_band r c)%Q) →
  ∃ extracted_wm,
    extract_cells ll_band = Ok extracted_wm ∧
    count_nonzero extracted_wm = estimate_wm_size ll_band * estimate_wm_size ll_band ∧
    too_few_pixels extracted_wm (estimate_wm_size ll_band) = false.
Proof.
  intros Hll HH Hbright.
  destruct (extract_cells_cells H W ll_band Hll HH) as (extracted & Hrun & Hrect & Hcells).
  cbn zeta in Hrect, Hcells.
  set (side := Nat.min 32 (Nat.min (H / 2) (W / 2))) in *.
  assert (H / 2 ≤ H)%nat by (apply Nat.Div0.div_le_upper_bound; lia).
  assert (W / 2 ≤ W)%nat by (apply Nat.Div0.div_le_upper_bound; lia).
  assert (side ≤ H)%nat as HsH by (subst side; lia).
  assert (side ≤ W)%nat as HsW by (subst side; lia).
  pose proof (window_fits H side HsH) as HfH.
  pose proof (window_fits W side HsW) as HfW.
  assert (Forall (λ v, v ≠ 0) (concat extracted)) as Hall.
  { apply (rect_concat_Forall _ side side); [done|]. intros i j Hi Hj.
    eexists. split; [by apply Hcells|]. cbn zeta.
    destruct (byte_of_coefficient_positive (coef ll_band ((H - side) / 2 + i)
                                              ((W - side) / 2 + j))) as [-> Hpos].
    - apply Hbright; lia.
    - lia. }
  assert (count_nonzero extracted = Z.of_nat side * Z.of_nat side) as Hcount.
  { rewrite (count_nonzero_full _ Hall), (rect_concat_length side side) by done. lia. }
  exists extracted. split; [done|].
  rewrite (estimate_wm_size_rect H W _ Hll HH). fold side.
  split; [done|].
  unfold too_few_pixels. rewrite Hcount. apply Qlt_bool_false.
  assert (0 <= inject_Z (Z.of_nat side * Z.of_nat side))%Q as Hnn.
  { change 0%Q with (inject_Z 0). apply inject_Z_le. lia. }
  set (n := inject_Z (Z.of_nat side * Z.of_nat side)) in *.
  assert (n * (5 # 100) == n * (1 # 20))%Q as -> by (by apply Qmult_comp).
  lra.
Qed.

Lemma bright_band_passes_image_threshold_witness :
  ∃ extracted_wm,
    extract_cells (replicate 4 (replicate 4 240%Q)) = Ok extracted_wm ∧
    count_nonzero extracted_wm = 4 ∧
    too_few_pixels extracted_wm 2 = false.
Proof.
  destruct (bright_band_passes_image_threshold 4 4 (replicate 4 (replicate 4 240%Q)))
    as (extracted_wm & Hrun & Hcount & Hpass).
  - by repeat constructor.
  - lia.
  - intros r c Hr Hc.
    destruct r as [|[|[|[|r]]]]; try lia;
      destruct c as [|[|[|[|c]]]]; try lia; discriminate.
  - exists extracted_wm. split; [done|]. split; [exact Hcount|exact Hpass].
Defined.

(** ** Embedding: what gets written *)

Section embed_effects.
Context {L : Lib} (settings : Settings).

(** A carrier that is missing or does not decode stops the embed operation
    before anything is written: the call raises [ValueError] and leaves the
    world as it was, whatever the payload; no display copy of a reference
    image is made. *)
Theorem unreadable_carrier_raises (image_path : string) (watermark_text : option text)
    (watermark_image_path : option string) (alpha : Q) (output_path : option string)
    (w : World) :
  files w !! image_path ≫= imdecode_color = None →
  embed_watermark settings image_path watermark_text watermark_image_path alpha
    output_path w = (w, Raised "ValueError").
Proof.
  intros Hread.
  assert (watermarked_image settings image_path watermark_text watermark_image_path w
          = (w, Raised "ValueError")) as Hrun.
  { unfold watermarked_image. cbv zeta.
    unfold mbind at 1, M_bind at 1.
    assert ((if negb (default "" watermark_image_path =? "")%string
             then path_exists (default "" watermark_image_path)
             else mret false) w = (w, Next (negb (default "" watermark_image_path =? "")%string
                                           && bool_decide (is_Some (files w !! default "" watermark_image_path)))))
      as -> by (by destruct (negb _)).
    unfold mbind at 1, M_bind at 1. unfold mbind at 1, M_bind at 1.
    unfold imread at 1, gets at 1. by rewrite Hread. }
  unfold embed_watermark, try_except. unfold mbind at 1, M_bind at 1.
  by rewrite Hrun.
Qed.
End embed_effects.

Lemma unreadable_carrier_raises_witness :
  let w := Toy.world [("/in.png", "JPG"); ("/wm.png", "PNG")] [] in
  embed_watermark Toy.settings "/in.png" (Some [104; 105]) (Some "/wm.png") (1 # 10) None w
  = (w, Raised "ValueError").
Proof.
  intros w.
  exact (unreadable_carrier_raises Toy.settings "/in.png" (Some [104; 105])
           (Some "/wm.png") (1 # 10) None w eq_refl).
Defined.

(** ** Embedding a text and reading it back *)

Lemma wp_eq {S A} (m : M S A) (s : S) (x : S * outcome A) :
  wp m (λ s' o, (s', o) = x) s → m s = x.
Proof. unfold wp. intros <-. by destruct (m s). Qed.

Section text_round_trip.
Context {L : Lib} (settings : Settings).

Lemma confirm_type_text (watermark_type : string) (metadata : gmap string value) :
  watermark_type ≠ "image" →
  metadata !! "watermark_type" = Some (VStr "text") →
  confirm_type watermark_type metadata = <["watermark_type" := VStr "text"]> metadata.
Proof.
  intros Hwt Hkind. unfold confirm_type. rewrite Hkind. cbn [default is_str].
  apply String.eqb_neq in Hwt. rewrite Hwt.
  change ("text" =? "image")%string with false. rewrite andb_false_r. cbn [orb].
  change ("text" =? "text")%string with true.
  rewrite bool_decide_eq_false_2; [by rewrite orb_true_r|].
  intros ->. by rewrite lookup_empty in Hkind.
Qed.

Lemma watermarked_image_text (image_path : string) (t : text) (w : World) :
  wp (watermarked_image settings image_path (Some t) None)
     (λ w' o, match o with
              | Next computed =>
                  w' = w ∧
                  ∃ text_bytes,
                    utf8_encode t = Ok text_bytes ∧
                    text_matrix t 32 = Ok computed.1.2 ∧
                    computed.2 !! "watermark_type" = Some (VStr "text") ∧
                    computed.2 !! "watermark_text"
                      = Some (VStr (string_of_bytes text_bytes)) ∧
                    computed.2 !! "watermark_image_url" = None ∧
                    computed.2 !! "backup_image_url" = None
              | Returned => False
              | Raised _ => w' = w
              end) w.
Proof.
  unfold watermarked_image, prepare_watermark_data, prepare_text_or_none.
  cbv zeta. cbn [default from_option id].
  change ("" =? "")%string with true. cbn [negb].
  wp_run; try done.
  all: split; [done|].
  all: destruct (utf8_encode t) as [text_bytes|] eqn:Henc; [|done];
    cbn [mbind res_bind] in *.
  all: destruct (text_matrix t 32) as [watermark|] eqn:Hm; [|done];
    cbn [mbind res_bind] in *.
  all: simplify_eq; cbn [fst snd].
  all: exists text_bytes; split; [done|]; split; [done|].
  all: rewrite confirm_type_text; [by simplify_map_eq| |by simplify_map_eq].
  all: by destruct t.
Qed.

Lemma imwrite_frame (path : string) (img : ndarray) (w w' : World) (saved : bool) :
  imwrite path img w = (w', Next saved) →
  now w' = now w ∧ ∀ p, p ≠ path → files w' !! p = files w !! p.
Proof.
  unfold imwrite. destruct (imencode path img) as [content|]; [|done].
  unfold mbind, M_bind, fault, store, modify, mret, M_ret.
  destruct (faults w) as [|[[|k]|] rest]; intros [= <- <-]; cbn [now files set_files];
    (split; [done|]); intros p Hp; by rewrite ?lookup_insert_ne.
Qed.

Lemma persist_metadata_frame (metadata : gmap string value) (path : string)
    (w w' : World) :
  persist_metadata metadata path w = (w', Next tt) →
  files w' !! (path +:+ ".metadata") = Some (json_dump_indent metadata) ∧
  ∀ p, p ≠ path → p ≠ path +:+ ".metadata" → files w' !! p = files w !! p.
Proof.
  intros Hrun. pose proof (persist_metadata_runs metadata path w) as Hcases.
  cbn zeta in Hcases.
  destruct (faults w) as [|[[|k]|] [|[[|k']|] rest]]; destruct Hcases as (w0 & Hrun0 & Hfiles);
    rewrite Hrun in Hrun0; simplify_eq.
  all: try destruct Hfiles as [Hfiles _]; rewrite Hfiles.
  all: split;
    [rewrite ?(lookup_insert_ne _ path (path +:+ ".metadata"))
       by (intros Heq; by apply (sidecar_path_ne path));
     by rewrite lookup_insert_eq
    |intros p Hp Hs; by rewrite !lookup_insert_ne].
Qed.

(** What a text embed that returns has done. *)
Lemma embed_text_run (image_path : string) (t : text) (alpha : Q)
    (output_path : option string) (w w' : World) (path : string) :
  embed_watermark settings image_path (Some t) None alpha output_path w
    = (w', Next path) →
  path = default (path_join (PROCESSED_DIR settings) (entropy w (drawn w) +:+ ".png"))
           output_path ∧
  (∀ p, p ≠ path → p ≠ path +:+ ".metadata" → files w' !! p = files w !! p) ∧
  ∃ text_bytes metadata,
    utf8_encode t = Ok text_bytes ∧
    files w' !! (path +:+ ".metadata") = Some (json_dump_indent metadata) ∧
    metadata !! "watermark_type" = Some (VStr "text") ∧
    metadata !! "watermark_text" = Some (VStr (string_of_bytes text_bytes)) ∧
    metadata !! "watermark_image_url" = None ∧
    metadata !! "backup_image_url" = None.
Proof.
  unfold embed_watermark, try_except, mbind, M_bind.
  pose proof (watermarked_image_text image_path t w) as Himg. unfold wp in Himg.
  destruct (watermarked_image _ _ _ _ w) as [w1 [computed| |e]]; [|done..].
  cbn [fst snd] in Himg.
  destruct Himg as (-> & text_bytes & Henc & _ & Hkind & Htext & Hurl & Hbackup).
  assert (∃ w2 out, choose_output settings output_path w = (w2, Next out) ∧
            files w2 = files w ∧
            out = default (path_join (PROCESSED_DIR settings)
                             (entropy w (drawn w) +:+ ".png")) output_path)
    as (w2 & out & -> & Hfiles2 & Hout).
  { destruct output_path as [p|]; eexists _, _; (split; [reflexivity|]); done. }
  destruct (imwrite out computed.1.1 w2) as [w3 [saved| |e]] eqn:Hsave; [|done..].
  apply imwrite_frame in Hsave as [_ Hframe3].
  unfold gets.
  set (metadata := final_metadata computed.2 computed.1.2 (now w3)).
  destruct (persist_metadata metadata out w3) as [w4 [[]| |e]] eqn:Hpersist; [|done..].
  apply persist_metadata_frame in Hpersist as [Hsidecar Hframe4].
  unfold mret, M_ret. intros [= <- <-].
  split; [done|]. split.
  { intros p Hp Hs. rewrite Hframe4, Hframe3 by done. by rewrite Hfiles2. }
  exists text_bytes, metadata. split; [done|]. split; [done|].
  subst metadata. unfold final_metadata. by simplify_map_eq.
Qed.

(** A text embed that returns has written two files and no other: the
    output file, which is the path given or [PROCESSED_DIR/<uuid>.png], and
    its sidecar, which holds metadata of kind text with the text and with
    no image locator. *)
Theorem text_embed_writes_two_files (image_path : string) (t : text) (alpha : Q)
    (output_path : option string) (w w' : World) (path : string) :
  embed_watermark settings image_path (Some t) None alpha output_path w
    = (w', Next path) →
  path = default (path_join (PROCESSED_DIR settings) (entropy w (drawn w) +:+ ".png"))
           output_path ∧
  (∀ p, p ≠ path → p ≠ path +:+ ".metadata" → files w' !! p = files w !! p) ∧
  ∃ metadata,
    files w' !! (path +:+ ".metadata") = Some (json_dump_indent metadata) ∧
    metadata !! "watermark_type" = Some (VStr "text") ∧
    metadata !! "watermark_image_url" = None.
Proof.
  intros Hrun.
  destruct (embed_text_run _ _ _ _ _ _ _ Hrun)
    as (Hpath & Hframe & text_bytes & metadata & _ & Hside & Hkind & _ & Hurl & _).
  split; [done|]. split; [done|]. by exists metadata.
Qed.

Lemma sidecar_text_run (image_path content : string) (d : gmap string value)
    (w : World) :
  files w !! (image_path +:+ ".metadata") = Some content →
  json_loads content = Some (VDict d) →
  d !! "watermark_type" = Some (VStr "text") →
  extract_watermark settings image_path w =
    (w, <["confidence" := VFloat (99 # 100)]>
        (<["success" := VBool true]>
        (<["detected" := VBool true]>
        (<["watermark_type" := VStr "text"]>
        (<["watermark_text" := default (VStr "") (d !! "watermark_text")]>
           initial_result))))).
Proof.
  intros Hfile Hparse Hkind.
  assert (sidecar_stage settings image_path (start w) =
          ({| world := w;
              result := <["confidence" := VFloat (99 # 100)]>
                        (<["success" := VBool true]>
                        (<["detected" := VBool true]>
                        (<["watermark_type" := VStr "text"]>
                        (<["watermark_text" := default (VStr "") (d !! "watermark_text")]>
                           initial_result)))) |}, Returned)) as Hrun.
  { assert (wp (sidecar_stage settings image_path)
              (λ s' o, (s', o) =
                 ({| world := w;
                     result := <["confidence" := VFloat (99 # 100)]>
                               (<["success" := VBool true]>
                               (<["detected" := VBool true]>
                               (<["watermark_type" := VStr "text"]>
                               (<["watermark_text" := default (VStr "") (d !! "watermark_text")]>
                                  initial_result)))) |}, Returned)) (start w)) as Hwp.
    { unfold sidecar_stage. wp_run; cbn [start world result] in *.
      all: rewrite ?Hfile in *; simplify_eq.
      all: try match goal with
               | H : bool_decide (is_Some (Some _)) = false |- _ =>
                   by rewrite bool_decide_eq_true_2 in H by by eexists
               end.
      all: rewrite ?Hparse in *; cbn [of_option] in *; simplify_eq.
      all: rewrite ?Hkind in *; cbn [default is_str] in *; try done. }
    by apply wp_eq. }
  assert (extract_body settings image_path (start w)
          = ((sidecar_stage settings image_path (start w)).1, Returned)) as Hbody.
  { unfold extract_body, try_except, mbind, M_bind. by rewrite Hrun. }
  unfold extract_watermark. fold (start w). rewrite Hbody, Hrun. done.
Qed.

(** Embedding a text and recovering it compose: after a text embed has
    returned a path, and for as long as the sidecar file it wrote is
    unchanged, [extract_watermark] on that path answers from the sidecar:
    detected, of kind text, with the embedded text and confidence 0.99.
    The one assumption on the JSON library is that it reads back the kind
    and the text of the metadata it wrote. Nothing is asked of the image
    file. *)
Theorem embedded_text_is_recovered (image_path : string) (t : text) (alpha : Q)
    (output_path : option string) (w w' later : World) (path : string) :
  embed_watermark settings image_path (Some t) None alpha output_path w
    = (w', Next path) →
  files later !! (path +:+ ".metadata") = files w' !! (path +:+ ".metadata") →
  (∀ metadata text_bytes,
     utf8_encode t = Ok text_bytes →
     metadata !! "watermark_type" = Some (VStr "text") →
     metadata !! "watermark_text" = Some (VStr (string_of_bytes text_bytes)) →
     metadata !! "watermark_image_url" = None →
     metadata !! "backup_image_url" = None →
     ∃ d, json_loads (json_dump_indent metadata) = Some (VDict d) ∧
          d !! "watermark_type" = Some (VStr "text") ∧
          d !! "watermark_text" = Some (VStr (string_of_bytes text_bytes))) →
  ∃ text_bytes,
    utf8_encode t = Ok text_bytes ∧
    let answer := extract_watermark settings path later in
    answer.1 = later ∧
    answer.2 !! "detected" = Some (VBool true) ∧
    answer.2 !! "success" = Some (VBool true) ∧
    answer.2 !! "watermark_type" = Some (VStr "text") ∧
    answer.2 !! "watermark_text" = Some (VStr (string_of_bytes text_bytes)) ∧
    answer.2 !! "confidence" = Some (VFloat (99 # 100)).
Proof.
  intros Hrun Hkept Hjson.
  destruct (embed_text_run _ _ _ _ _ _ _ Hrun)
    as (_ & _ & text_bytes & metadata & Henc & Hside & Hkind & Htext & Hurl & Hbackup).
  destruct (Hjson metadata _ Henc Hkind Htext Hurl Hbackup) as (d & Hparse & Hdk & Hdt).
  exists text_bytes. split; [done|]. cbn zeta.
  rewrite (sidecar_text_run path (json_dump_indent metadata) d later);
    [|by rewrite Hkept|done|done].
  cbn [fst snd]. rewrite Hdt. cbn [default]. by simplify_map_eq.
Qed.
End text_round_trip.

Lemma toy_reads_back_text (metadata : gmap string value) :
  metadata !! "watermark_type" = Some (VStr "text") →
  metadata !! "watermark_text" = Some (VStr "hi") →
  metadata !! "watermark_image_url" = None →
  metadata !! "backup_image_url" = None →
  json_loads (json_dump_indent metadata) = Some (VDict (Toy.dict_of Toy.text_document)).
Proof.
  intros Hk Ht Hu Hb. cbn [json_loads json_dump_indent Toy.lib].
  unfold Toy.dumps. cbn [omap list_omap]. rewrite Hk, Ht, Hu, Hb.
  reflexivity.
Qed.

Lemma toy_text_embed :
  ∃ w', embed_watermark Toy.settings "/in.png" (Some [104; 105]) None (1 # 10)
          (Some "/out.png") (Toy.world [("/in.png", "PNG")] [])
        = (w', Next "/out.png").
Proof. eexists. vm_compute. reflexivity. Qed.

Lemma text_embed_writes_two_files_witness :
  ∃ w', embed_watermark Toy.settings "/in.png" (Some [104; 105]) None (1 # 10)
          (Some "/out.png") (Toy.world [("/in.png", "PNG")] [])
        = (w', Next "/out.png") ∧
        files w' !! "/in.png" = Some "PNG".
Proof.
  destruct toy_text_embed as [w' Hrun]. exists w'. split; [exact Hrun|].
  destruct (text_embed_writes_two_files Toy.settings _ _ _ _ _ _ _ Hrun)
    as (_ & Hframe & _).
  rewrite Hframe; [reflexivity|discriminate|discriminate].
Defined.

Lemma embedded_text_is_recovered_witness :
  ∃ w', embed_watermark Toy.settings "/in.png" (Some [104; 105]) None (1 # 10)
          (Some "/out.png") (Toy.world [("/in.png", "PNG")] [])
        = (w', Next "/out.png") ∧
        (extract_watermark Toy.settings "/out.png" w').2 !! "watermark_text"
        = Some (VStr "hi").
Proof.
  destruct toy_text_embed as [w' Hrun]. exists w'. split; [exact Hrun|].
  destruct (embedded_text_is_recovered Toy.settings _ _ _ _ _ _ w' _ Hrun eq_refl)
    as (text_bytes & Henc & _ & _ & _ & _ & Htext & _).
  - intros metadata text_bytes [= <-] Hk Ht Hu Hb.
    exists (Toy.dict_of Toy.text_document).
    split; [by apply toy_reads_back_text|]. split; reflexivity.
  - injection Henc as <-. exact Htext.
Defined.

(** ** Metadata that names a backup and no original *)

Section backup_alone.
Context {L : Lib} (settings : Settings).

Lemma resolve_image_no_locator (d : gmap string value) (c1 c2 : Q) (s : St) :
  d !! "watermark_image_url" = None →
  resolve_image settings (VDict d) c1 c2 s = (s, Next tt).
Proof.
  intros Hurl. unfold resolve_image, py_get. rewrite Hurl. cbn [default].
  unfold mbind at 1, M_bind at 1. cbn [mret M_ret].
  unfold mbind at 1, M_bind at 1. cbn [mret M_ret].
  reflexivity.
Qed.

Lemma resolve_display_backup (d : gmap string value) (b : string) (c1 c2 : Q) (s : St) :
  d !! "watermark_image_url" = None →
  d !! "backup_image_url" = Some (VStr b) → b ≠ "" →
  file_exists (world s) (static_path settings b) →
  resolve_display settings (VDict d) c1 c2 s =
    ({| world := world s;
        result := <["message" := VStr msg_backup]>
                  (<["confidence" := VFloat c2]>
                  (<["watermark_type" := VStr "image"]>
                  (<["success" := VBool true]>
                  (<["detected" := VBool true]>
                  (<["watermark_image_url" := VStr b]> (result s)))))) |},
     Returned).
Proof.
  intros Hurl Hbackup Hb Hfile.
  apply String.eqb_neq in Hb.
  unfold file_exists, static_path in Hfile.
  unfold resolve_display, py_get, strip_static, mbind, M_bind, mret, M_ret,
    in_world, path_exists, gets, set_result, modify, return_.
  rewrite Hurl, Hbackup. cbn [default from_option id truthy].
  change ("" =? "")%string with true. rewrite Hb. cbn [negb world result].
  rewrite !(bool_decide_eq_true_2 _ Hfile). cbn [negb world result].
  rewrite !(bool_decide_eq_true_2 _ Hfile). reflexivity.
Qed.

(** Metadata that names a backup copy and no original divides the two
    recoveries. [extract_watermark] looks for the backup only inside the
    test of [original_url] (lines 380-417), so a sidecar file of kind image
    without [watermark_image_url] gives no answer, even when its backup
    copy is in place. [extract_watermark_image] tests [backup_url] on its
    own (line 700) and answers with the backup at confidence 0.95. *)
Theorem backup_alone_divides_recoveries (image_path content : string)
    (d : gmap string value) (b : string) (w : World) :
  files w !! (image_path +:+ ".metadata") = Some content →
  json_loads content = Some (VDict d) →
  d !! "watermark_type" = Some (VStr "image") →
  d !! "watermark_image_url" = None →
  d !! "backup_image_url" = Some (VStr b) → b ≠ "" →
  file_exists w (static_path settings b) →
  after_sidecar settings image_path w
    = ({| world := w;
          result := <["watermark_type" := VStr "image"]> initial_result |}, Next tt) ∧
  let answer := extract_watermark_image settings image_path w in
  answer.1 = w ∧
  image_found (95 # 100) b answer.2 ∧
  answer.2 !! "message" = Some (VStr msg_backup).
Proof.
  intros Hfile Hparse Hkind Hurl Hbackup Hb Hcopy. split.
  - unfold after_sidecar, sidecar_stage, try_except.
    unfold mbind at 1, M_bind at 1.
    unfold in_world at 1, path_exists at 1, gets at 1. cbn [world start].
    rewrite Hfile. rewrite bool_decide_eq_true_2 by by eexists.
    unfold mbind at 1, M_bind at 1. unfold in_world at 1, read_file at 1.
    cbn [world start]. rewrite Hfile.
    unfold mbind at 1, M_bind at 1. rewrite Hparse. cbn [of_option lift mret M_ret].
    unfold py_get. rewrite Hkind. cbn [default from_option id].
    unfold mbind at 1, M_bind at 1. cbn [mret M_ret is_str].
    change ("image" =? "image")%string with true. cbn iota.
    unfold mbind at 1, M_bind at 1. unfold set_result at 1, modify at 1.
    by rewrite resolve_image_no_locator.
  - assert (image_metadata_stage settings image_path (start_image w) =
            ({| world := w;
                result := <["message" := VStr msg_backup]>
                          (<["confidence" := VFloat (95 # 100)]>
                          (<["watermark_type" := VStr "image"]>
                          (<["success" := VBool true]>
                          (<["detected" := VBool true]>
                          (<["watermark_image_url" := VStr b]> initial_image_result)))))
             |}, Returned)) as Hrun.
    { unfold image_metadata_stage, image_sidecar_part, try_except.
      unfold mbind at 1, M_bind at 1. unfold mbind at 1, M_bind at 1.
      unfold in_world at 1, path_exists at 1, gets at 1. cbn [world start_image].
      rewrite Hfile. rewrite bool_decide_eq_true_2 by by eexists.
      unfold mbind at 1, M_bind at 1. unfold in_world at 1, read_file at 1.
      cbn [world start_image]. rewrite Hfile.
      unfold mbind at 1, M_bind at 1. rewrite Hparse. cbn [of_option lift mret M_ret].
      by rewrite (resolve_display_backup d b). }
    unfold extract_watermark_image. fold (start_image w).
    rewrite extract_image_body_run. cbv zeta. rewrite Hrun. cbn [fst snd world result].
    split; [done|]. split; [|by simplify_map_eq].
    destruct initial_image_result_pending as (Hdom & _).
    split; [|by simplify_map_eq].
    rewrite !dom_insert_L, Hdom. unfold image_result_keys. set_solver.
Qed.
End backup_alone.

Lemma backup_alone_divides_recoveries_witness :
  let w := Toy.world
    [("/in.png", "PNG");
     ("/in.png.metadata", Toy.json_object ToyBackup.backup_document);
     ("/srv/static/backup_watermark_u0.png", "PNG")] [] in
  (@after_sidecar ToyBackup.lib Toy.settings "/in.png" w).2 = Next tt ∧
  image_found (95 # 100) "/static/backup_watermark_u0.png"
    (@extract_watermark_image ToyBackup.lib Toy.settings "/in.png" w).2.
Proof.
  intros w.
  destruct (@backup_alone_divides_recoveries ToyBackup.lib Toy.settings "/in.png"
              (Toy.json_object ToyBackup.backup_document)
              (Toy.dict_of ToyBackup.backup_document)
              "/static/backup_watermark_u0.png" w)
    as (Hside & _ & Hfound & _).
  - reflexivity.
  - reflexivity.
  - reflexivity.
  - reflexivity.
  - reflexivity.
  - discriminate.
  - unfold file_exists. vm_compute. by eexists.
  - split; [by rewrite Hside|exact Hfound].
Defined.

(** ** The sibling engine: a text read back from the band *)












(** ** The locator of a result *)

Section entropy.
Context {A B : Type}.

Lemma keeps_ret (a : A) : keeps_entropy (mret a).
Proof. done. Qed.

Lemma keeps_bind (m : M World A) (f : A → M World B) :
  keeps_entropy m → (∀ a, keeps_entropy (f a)) → keeps_entropy (m ≫= f).
Proof.
  intros Hm Hf w. unfold mbind, M_bind. specialize (Hm w).
  destruct (m w) as [w1 [a| |e]]; [|done..].
  cbn [fst] in Hm. by rewrite Hf.
Qed.

Lemma keeps_raise (e : exn) : keeps_entropy (raise e : M World A).
Proof. done. Qed.

Lemma keeps_gets (f : World → A) : keeps_entropy (gets f).
Proof. done. Qed.

Lemma keeps_lift (r : res A) : keeps_entropy (lift r : M World A).
Proof. by destruct r. Qed.
End entropy.

Lemma keeps_fault : keeps_entropy fault.
Proof. intros w. unfold fault. by destruct (faults w). Qed.

Lemma keeps_uuid4 : keeps_entropy uuid4.
Proof. done. Qed.

Lemma keeps_store (path content : string) : keeps_entropy (store path content).
Proof. done. Qed.

Lemma keeps_read_file (path : string) : keeps_entropy (read_file path).
Proof. intros w. unfold read_file. by destruct (files w !! path). Qed.

Ltac keeps_step :=
  lazymatch goal with
  | |- keeps_entropy (mbind _ _) => apply keeps_bind; [|intros ?]
  | |- keeps_entropy (mret _) => apply keeps_ret
  | |- keeps_entropy (raise _) => apply keeps_raise
  | |- keeps_entropy (gets _) => apply keeps_gets
  | |- keeps_entropy (lift _) => apply keeps_lift
  | |- keeps_entropy fault => apply keeps_fault
  | |- keeps_entropy uuid4 => apply keeps_uuid4
  | |- keeps_entropy (store _ _) => apply keeps_store
  | |- keeps_entropy (read_file _) => apply keeps_read_file
  | |- keeps_entropy (path_exists _) => unfold path_exists
  | |- keeps_entropy makedirs => unfold makedirs
  | |- keeps_entropy (copy2 _ _) => unfold copy2
  | |- keeps_entropy (write_file _ _ _) => unfold write_file
  | |- keeps_entropy (imread _ _) => unfold imread
  | |- keeps_entropy (imwrite _ _) => unfold imwrite
  | |- keeps_entropy (if ?b then _ else _) => destruct b
  | |- keeps_entropy (match ?x with _ => _ end) => destruct x
  end.

Section locator.
Context {L : Lib} (settings : Settings).

(** [get_file_url] never lets a directory through: it returns the empty
    string for the empty path, and otherwise [/static/] or [/images/]
    followed by the base name of the path, which holds no slash; the
    prefix is [/static/] exactly when the path starts with
    [PROCESSED_DIR]. No file is touched. *)
Theorem get_file_url_names_no_directory (file_path : string) (w : World) :
  let run := get_file_url settings file_path w in
  files run.1 = files w ∧
  if String.eqb file_path "" then run = (w, Next "")
  else
    has_slash (basename file_path) = false ∧
    run.2 = Next ((if String.prefix (PROCESSED_DIR settings) file_path
                   then "/static/" else "/images/") +:+ basename file_path).
Proof.
  cbv zeta. unfold get_file_url.
  destruct (String.eqb file_path ""); [done|].
  unfold mbind, M_bind, uuid4. cbn [fst snd files].
  split; [by destruct (String.prefix _ _)|].
  split; [apply has_slash_basename|]. by destruct (String.prefix _ _).
Qed.

Lemma watermarked_image_entropy (image_path : string) (watermark_text : option text)
    (watermark_image_path : option string) :
  keeps_entropy (watermarked_image settings image_path watermark_text
                   watermark_image_path).
Proof.
  unfold watermarked_image, prepare_watermark_data. cbv zeta.
  repeat keeps_step.
Qed.

(** The address the API gives for an embed with no output path (line 282 of
    [watermark_api.py]): the embed writes [PROCESSED_DIR/<uuid>.png], and
    [get_file_url] turns that path into [/static/<uuid>.png], whatever the
    payload, as long as the identifiers drawn hold no slash. *)
Theorem default_output_locator (image_path : string) (watermark_text : option text)
    (watermark_image_path : option string) (alpha : Q) (w w' : World) (path : string) :
  (∀ n, has_slash (entropy w n) = false) →
  embed_watermark settings image_path watermark_text watermark_image_path alpha None w
    = (w', Next path) →
  ∃ n,
    path = path_join (PROCESSED_DIR settings) (entropy w n +:+ ".png") ∧
    ∀ later, (get_file_url settings path later).2
             = Next ("/static/" +:+ entropy w n +:+ ".png").
Proof.
  intros Hids. unfold embed_watermark, try_except, mbind, M_bind.
  pose proof (watermarked_image_entropy image_path watermark_text
                watermark_image_path w) as Hent.
  destruct (watermarked_image _ _ _ _ w) as [w1 [computed| |e]]; [|done..].
  cbn [fst snd] in Hent. cbn [choose_output]. unfold mbind, M_bind, uuid4, mret, M_ret.
  destruct (imwrite _ _ _) as [w3 [saved| |e]]; [|done..]. unfold gets.
  destruct (persist_metadata _ _ w3) as [w4 [[]| |e]]; [|done..].
  intros [= <- <-]. exists (drawn w1). rewrite Hent. split; [done|].
  intros later.
  assert (has_slash (entropy w (drawn w1) +:+ ".png") = false) as Hname.
  { rewrite has_slash_app, Hids. done. }
  destruct (path_join_name (PROCESSED_DIR settings) _ Hname) as [Hbase Hprefix].
  unfold get_file_url.
  destruct (String.eqb_spec
              (path_join (PROCESSED_DIR settings) (entropy w (drawn w1) +:+ ".png")) "")
    as [Hempty|_].
  { rewrite Hempty in Hbase. cbn [basename] in Hbase.
    by destruct (entropy w (drawn w1)). }
  unfold mbind, M_bind, uuid4. rewrite Hprefix, Hbase. done.
Qed.
End locator.

Lemma toy_identifiers (fs : list (string * string))
    (schedule : list (option fault_kind)) (n : nat) :
  has_slash (entropy (Toy.world fs schedule) n) = false.
Proof.
  cbn [entropy Toy.world].
  pose proof (Nat.mod_upper_bound n 10 ltac:(lia)) as Hk.
  destruct (n `mod` 10)%nat as [|[|[|[|[|[|[|[|[|[|k]]]]]]]]]]; try lia; reflexivity.
Qed.

Lemma default_output_locator_witness :
  ∃ w' path,
    embed_watermark Toy.settings "/in.png" (Some [104; 105]) None (1 # 10) None
      (Toy.world [("/in.png", "PNG")] []) = (w', Next path) ∧
    ∃ n, ∀ later,
      (get_file_url Toy.settings path later).2
      = Next ("/static/" +:+ entropy (Toy.world [("/in.png", "PNG")] []) n +:+ ".png").
Proof.
  assert (∃ w', embed_watermark Toy.settings "/in.png" (Some [104; 105]) None (1 # 10) None
                  (Toy.world [("/in.png", "PNG")] []) = (w', Next "/srv/processed/u0.png"))
    as [w' Hrun] by (eexists; vm_compute; reflexivity).
  exists w', "/srv/processed/u0.png". split; [exact Hrun|].
  destruct (default_output_locator Toy.settings _ _ _ _
              (Toy.world [("/in.png", "PNG")] []) _ _ (toy_identifiers _ _) Hrun)
    as (n & _ & Hurl).
  by exists n.
Defined.

(** ** Locators under [/static/] *)

Lemma replace_no_slash (s : string) :
  has_slash s = false → replace_from "/static/" "" 0 s = s.
Proof.
  induction s as [|c s IH]; [done|]. cbn [has_slash]. intros Hs.
  apply orb_false_iff in Hs as [Hc Hs]. cbn [replace_from].
  assert (String.prefix "/static/" (String c s) = false) as ->.
  { cbn [String.prefix]. apply Ascii.eqb_neq in Hc.
    destruct (ascii_dec "/" c); [by subst|done]. }
  by rewrite IH.
Qed.

Lemma replace_from_skip (old new : string) (k : nat) (c : ascii) (s : string) :
  replace_from old new (S k) (String c s) = replace_from old new k s.
Proof. done. Qed.

Lemma replace_from_match (old new : string) (c : ascii) (s : string) :
  String.prefix old (String c s) = true →
  replace_from old new 0 (String c s)
  = new +:+ replace_from old new (String.length old - 1) s.
Proof. intros Hp. cbn [replace_from]. by rewrite Hp. Qed.

(** [("/static/" + name).replace("/static/", "")] is [name]. *)
Lemma strip_static_name (name : string) :
  has_slash name = false → str_replace ("/static/" +:+ name) "/static/" "" = name.
Proof.
  intros Hname. unfold str_replace.
  pose proof (string_prefix_app "/static/" name) as Hp.
  change ("/static/" +:+ name)
    with (String "/" (String "s" (String "t" (String "a" (String "t"
           (String "i" (String "c" (String "/" name)))))))) in *.
  rewrite (replace_from_match _ _ _ _ Hp).
  change (String.length "/static/" - 1)%nat with 7%nat.
  do 7 rewrite replace_from_skip.
  change ("" +:+ replace_from "/static/" "" 0 name)
    with (replace_from "/static/" "" 0 name).
  by apply replace_no_slash.
Qed.

Section served.
Context {L : Lib} (settings : Settings).

Lemma static_path_name (name : string) :
  has_slash name = false →
  static_path settings ("/static/" +:+ name) = path_join (STATIC_DIR settings) name.
Proof. intros Hname. unfold static_path. by rewrite strip_static_name. Qed.

End served.


(** ** Paths with nothing behind them, and trailers at the start *)

Section edges.
Context {L : Lib} (settings : Settings).

(** A path with no file and no sidecar file: both recoveries answer that
    the image cannot be read, with [success] and [detected] false, and
    leave the world as it was. No exception escapes: the failure to open
    the file for the trailer is swallowed by the handler of that stage. *)
Theorem missing_file_is_reported (image_path : string) (w : World) :
  files w !! image_path = None →
  files w !! (image_path +:+ ".metadata") = None →
  extract_watermark settings image_path w
    = (w, <["message" := VStr (msg_unreadable +:+ image_path)]> initial_result) ∧
  extract_watermark_image settings image_path w
    = (w, <["message" := VStr (msg_unreadable +:+ image_path)]> initial_image_result).
Proof.
  intros Hfile Hside. split.
  - assert (extract_body settings image_path (start w) =
            ({| world := w;
                result := <["message" := VStr (msg_unreadable +:+ image_path)]>
                            initial_result |}, Returned)) as Hrun.
    { unfold extract_body, try_except.
      assert (sidecar_stage settings image_path (start w) = (start w, Next tt)) as Hs.
      { unfold sidecar_stage, mbind, M_bind, in_world, path_exists, gets.
        cbn [world start]. rewrite Hside.
        by rewrite bool_decide_eq_false_2 by (by intros [? ?]). }
      assert (trailer_stage settings image_path (start w) = (start w, Next tt)) as Ht.
      { unfold trailer_stage, try_except. unfold mbind at 1, M_bind at 1.
        unfold in_world at 1, read_file at 1. cbn [world start]. by rewrite Hfile. }
      assert (blind_stage settings image_path (start w) =
              ({| world := w;
                  result := <["message" := VStr (msg_unreadable +:+ image_path)]>
                              initial_result |}, Returned)) as Hb.
      { unfold blind_stage. unfold mbind at 1, M_bind at 1.
        unfold in_world at 1, imread at 1, gets at 1. cbn [world start].
        rewrite Hfile. done. }
      unfold mbind, M_bind. by rewrite Hs, Ht, Hb. }
    unfold extract_watermark. fold (start w). by rewrite Hrun.
  - unfold extract_watermark_image. fold (start_image w).
    rewrite extract_image_body_run. cbv zeta.
    assert (image_metadata_stage settings image_path (start_image w)
            = (start_image w, Next tt)) as ->.
    { unfold image_metadata_stage, try_except, image_sidecar_part, image_trailer_part.
      unfold mbind at 1, M_bind at 1. unfold mbind at 1, M_bind at 1.
      unfold in_world at 1, path_exists at 1, gets at 1. cbn [world start_image].
      rewrite Hside. rewrite bool_decide_eq_false_2 by (by intros [? ?]).
      cbn [mret M_ret]. unfold mbind at 1, M_bind at 1.
      unfold in_world at 1, read_file at 1. cbn [world start_image]. by rewrite Hfile. }
    assert (image_signal_stage settings image_path (start_image w) =
            ({| world := w;
                result := <["message" := VStr (msg_unreadable +:+ image_path)]>
                            initial_image_result |}, Returned)) as ->.
    { unfold image_signal_stage. unfold mbind at 1, M_bind at 1.
      unfold in_world at 1, imread at 1, gets at 1. cbn [world start_image].
      rewrite Hfile. done. }
    done.
Qed.

Lemma bytes_find_at_start (content marker : string) :
  String.prefix marker content = true → bytes_find content marker = 0.
Proof.
  intros Hp. unfold bytes_find. destruct content; cbn [find_from]; by rewrite Hp.
Qed.

(** A trailer that starts the file divides the two recoveries: the marker
    is then found at offset 0, which [extract_watermark] takes for no
    marker ([pos > 0], line 441), so its trailer stage ends without an
    answer whatever the metadata; the trailer part of
    [extract_watermark_image] tests [metadata_start != -1] (line 729),
    parses what follows the marker and resolves the display copy it
    names. *)
Theorem trailer_at_offset_zero (image_path content : string) (s : St) :
  files (world s) !! image_path = Some content →
  String.prefix trailer_marker content = true →
  trailer_stage settings image_path s = (s, Next tt) ∧
  trailer_metadata (world s) image_path = None ∧
  image_trailer_part settings image_path s
    = (embedded_metadata ←
         lift (of_option (json_loads (str_drop (String.length trailer_marker) content))
                 "JSONDecodeError");
       resolve_display settings embedded_metadata (95 # 100) (9 # 10)) s.
Proof.
  intros Hfile Hp. pose proof (bytes_find_at_start _ _ Hp) as Hpos.
  split; [|split].
  - unfold trailer_stage, try_except. unfold mbind at 1, M_bind at 1.
    unfold in_world at 1, read_file at 1. rewrite Hfile. cbv zeta.
    rewrite Hpos. change (0 <? 0) with false. cbn iota. by destruct s.
  - unfold trailer_metadata. rewrite Hfile. cbn [mbind option_bind]. by rewrite Hpos.
  - unfold image_trailer_part. unfold mbind at 1, M_bind at 1.
    unfold in_world at 1, read_file at 1. rewrite Hfile. cbv zeta.
    rewrite Hpos. change (negb (0 =? -1)) with true. cbn iota.
    rewrite Z.add_0_l, Nat2Z.id. by destruct s.
Qed.
End edges.

Lemma missing_file_is_reported_witness :
  let w := Toy.world [("/other.png", "PNG")] [] in
  (extract_watermark Toy.settings "/in.png" w).2 !! "success" = Some (VBool false) ∧
  (extract_watermark_image Toy.settings "/in.png" w).2 !! "success" = Some (VBool false).
Proof.
  intros w.
  destruct (missing_file_is_reported Toy.settings "/in.png" w eq_refl eq_refl)
    as [-> ->].
  split; reflexivity.
Defined.

Lemma trailer_at_offset_zero_witness :
  let w := Toy.world
    [("/in.png", trailer_marker +:+ Toy.json_object Toy.image_document);
     ("/srv/static/original_watermark_u0.png", "PNG")] [] in
  trailer_stage Toy.settings "/in.png" (start w) = (start w, Next tt) ∧
  (image_trailer_part Toy.settings "/in.png" (start_image w)).2 = Returned ∧
  result (image_trailer_part Toy.settings "/in.png" (start_image w)).1 !! "confidence"
    = Some (VFloat (95 # 100)).
Proof.
  intros w.
  destruct (trailer_at_offset_zero Toy.settings "/in.png"
              (trailer_marker +:+ Toy.json_object Toy.image_document) (start w)
              eq_refl eq_refl) as (Hstage & _ & _).
  destruct (trailer_at_offset_zero Toy.settings "/in.png"
              (trailer_marker +:+ Toy.json_object Toy.image_document) (start_image w)
              eq_refl eq_refl) as (_ & _ & Himage).
  split; [exact Hstage|]. rewrite Himage. split; vm_compute; reflexivity.
Defined.

(** ** Embedding an image and finding its copies *)

Section image_round_trip.
Context {L : Lib} (settings : Settings).

(** The names the encoder gives the two copies of a reference image. *)
Lemma prepare_image_copies (watermark_text : option text) (path content : string)
    (max_size : Z) (wm_img : ndarray) (w : World) :
  path ≠ "" → files w !! path = Some content →
  imdecode_unchanged content = Some wm_img →
  wp (prepare_watermark_data settings watermark_text (Some path) max_size)
     (λ w' o, match o with
              | Next prepared =>
                  let original := "original_watermark_" +:+ entropy w (drawn w) +:+ ".png" in
                  let backup := "backup_watermark_" +:+ entropy w (drawn w) +:+ ".png" in
                  prepared.2 !! "watermark_type" = Some (VStr "image") ∧
                  prepared.2 !! "watermark_image_url" = Some (VStr ("/static/" +:+ original)) ∧
                  prepared.2 !! "backup_image_url" = Some (VStr ("/static/" +:+ backup)) ∧
                  prepared.2 !! "watermark_text" = None ∧
                  file_exists w' (path_join (STATIC_DIR settings) original) ∧
                  file_exists w' (path_join (PROCESSED_DIR settings) backup)
              | _ => True
              end) w.
Proof.
  intros Hpath Hfile Hdec. unfold prepare_watermark_data. cbv zeta. cbn [default from_option id].
  apply String.eqb_neq in Hpath. rewrite Hpath. cbn [negb].
  apply wp_bind, wp_gets. rewrite Hfile.
  rewrite bool_decide_eq_true_2 by by eexists.
  apply wp_bind. unfold imread. apply wp_gets. rewrite Hfile. cbn [mbind option_bind].
  rewrite Hdec.
  wp_run; try done.
  all: cbn [fst snd].
  all: split; [by simplify_map_eq|]; split; [by simplify_map_eq|];
    split; [by simplify_map_eq|]; split; [by simplify_map_eq|].
  all: unfold file_exists; cbn [files set_files].
  all: split; [apply lookup_insert_is_Some'; right; by eexists
              |rewrite lookup_insert_eq; by eexists].
Qed.

Lemma watermarked_image_copies (image_path : string) (watermark_text : option text)
    (path content : string) (wm_img : ndarray) (w : World) :
  path ≠ "" → files w !! path = Some content →
  imdecode_unchanged content = Some wm_img →
  wp (watermarked_image settings image_path watermark_text (Some path))
     (λ w' o, match o with
              | Next computed => names_copies w computed.2 ∧ copies_exist settings w w'
              | _ => True
              end) w.
Proof.
  intros Hpath Hfile Hdec. unfold watermarked_image. cbv zeta.
  cbn [default from_option id].
  pose proof Hpath as Hne. apply String.eqb_neq in Hne. rewrite Hne. cbn [negb].
  apply wp_bind, wp_gets. rewrite Hfile.
  rewrite bool_decide_eq_true_2 by by eexists.
  lazy beta iota.
  repeat (wp_step; lazy beta iota); try done.
  all: (eapply wp_mono;
        [by apply (prepare_image_copies watermark_text path content 32 wm_img)|]).
  all: intros w' [prepared| |e]; lazy beta iota; try done.
  all: intros (Hk & Hu & Hb & Ht & Ho & Hbk).
  all: wp_run; try done.
  all: cbn [fst snd]; rewrite confirm_type_image.
  all: split; [|by split].
  all: unfold names_copies; by simplify_map_eq.
Qed.

Lemma imwrite_grows (path : string) (img : ndarray) (w w' : World) (saved : bool)
    (p : string) :
  imwrite path img w = (w', Next saved) → file_exists w p → file_exists w' p.
Proof.
  unfold imwrite. destruct (imencode path img) as [content|]; [|done].
  unfold mbind, M_bind, fault, store, modify, mret, M_ret, file_exists.
  destruct (faults w) as [|[[|k]|] rest]; intros [= <- <-]; cbn [files set_files];
    try done; intros Hp; apply lookup_insert_is_Some'; by right.
Qed.

Lemma persist_metadata_grows (metadata : gmap string value) (path : string)
    (w w' : World) (p : string) :
  persist_metadata metadata path w = (w', Next tt) →
  file_exists w p → file_exists w' p.
Proof.
  intros Hrun Hp. pose proof (persist_metadata_runs metadata path w) as Hcases.
  cbn zeta in Hcases. unfold file_exists in *.
  destruct (faults w) as [|[[|k]|] [|[[|k']|] rest]]; destruct Hcases as (w0 & Hrun0 & Hfiles);
    rewrite Hrun in Hrun0; simplify_eq.
  all: try destruct Hfiles as [Hfiles _]; rewrite Hfiles.
  all: repeat (apply lookup_insert_is_Some'; right). all: done.
Qed.

(** What an embed of a reference image that returns has done. *)
Lemma embed_image_run (image_path : string) (watermark_text : option text)
    (path content : string) (wm_img : ndarray) (alpha : Q)
    (output_path : option string) (w w' : World) (out : string) :
  path ≠ "" → files w !! path = Some content →
  imdecode_unchanged content = Some wm_img →
  embed_watermark settings image_path watermark_text (Some path) alpha output_path w
    = (w', Next out) →
  copies_exist settings w w' ∧
  ∃ metadata,
    files w' !! (out +:+ ".metadata") = Some (json_dump_indent metadata) ∧
    names_copies w metadata.
Proof.
  intros Hpath Hfile Hdec.
  unfold embed_watermark, try_except, mbind, M_bind.
  pose proof (watermarked_image_copies image_path watermark_text path content wm_img w
                Hpath Hfile Hdec) as Himg. unfold wp in Himg.
  destruct (watermarked_image _ _ _ _ w) as [w1 [computed| |e]]; [|done..].
  cbn [fst snd] in Himg. destruct Himg as [(Hk & Hu & Hb & Ht) [Ho Hbk]].
  destruct (choose_output settings output_path w1) as [w2 [chosen| |e]] eqn:Hchoose;
    [|done..].
  assert (files w2 = files w1) as Hfiles2.
  { destruct output_path; unfold choose_output, mbind, M_bind, uuid4, mret, M_ret in Hchoose;
      by simplify_eq. }
  destruct (imwrite chosen computed.1.1 w2) as [w3 [saved| |e]] eqn:Hsave; [|done..].
  unfold gets.
  set (metadata := final_metadata computed.2 computed.1.2 (now w3)).
  destruct (persist_metadata metadata chosen w3) as [w4 [[]| |e]] eqn:Hpersist; [|done..].
  unfold mret, M_ret. intros [= <- <-].
  assert (∀ p, file_exists w1 p → file_exists w4 p) as Hgrow.
  { intros p Hp. eapply persist_metadata_grows; [exact Hpersist|].
    eapply imwrite_grows; [exact Hsave|]. unfold file_exists. by rewrite Hfiles2. }
  split; [split; by apply Hgrow|].
  exists metadata. split; [by apply persist_metadata_frame in Hpersist as [? _]|].
  subst metadata. unfold names_copies, final_metadata. by simplify_map_eq.
Qed.

Lemma resolve_image_original (d : gmap string value) (url : string) (c1 c2 : Q) (s : St) :
  d !! "watermark_image_url" = Some (VStr url) → url ≠ "" →
  file_exists (world s) (static_path settings url) →
  resolve_image settings (VDict d) c1 c2 s =
    ({| world := world s;
        result := <["message" := VStr msg_original]>
                  (<["confidence" := VFloat c1]>
                  (<["success" := VBool true]>
                  (<["detected" := VBool true]>
                  (<["watermark_image_url" := VStr url]> (result s))))) |},
     Returned).
Proof.
  intros Hurl Hne Hfile. apply String.eqb_neq in Hne.
  unfold file_exists, static_path in Hfile.
  unfold resolve_image, py_get, strip_static, mbind, M_bind, mret, M_ret,
    in_world, path_exists, gets, set_result, modify, return_.
  rewrite Hurl. cbn [default from_option id truthy]. rewrite Hne. cbn [negb world result].
  rewrite (bool_decide_eq_true_2 _ Hfile). reflexivity.
Qed.

Lemma resolve_image_backup (d : gmap string value) (url backup copy : string)
    (c1 c2 : Q) (s : St) :
  d !! "watermark_image_url" = Some (VStr url) → url ≠ "" →
  d !! "backup_image_url" = Some (VStr backup) → backup ≠ "" →
  ¬ file_exists (world s) (static_path settings url) →
  ¬ file_exists (world s) (static_path settings backup) →
  files (world s) !! processed_path settings backup = Some copy →
  faults (world s) = [] →
  resolve_image settings (VDict d) c1 c2 s =
    ({| world := set_files (λ f, <[static_path settings backup := copy]> f) (world s);
        result := <["message" := VStr msg_backup]>
                  (<["confidence" := VFloat c2]>
                  (<["success" := VBool true]>
                  (<["detected" := VBool true]>
                  (<["watermark_image_url" := VStr backup]> (result s))))) |},
     Returned).
Proof.
  intros Hurl Hne Hbackup Hbne Hno Hnob Hcopy Hfaults.
  apply String.eqb_neq in Hne, Hbne.
  unfold file_exists, static_path in Hno, Hnob. unfold processed_path in Hcopy.
  unfold resolve_image, py_get, strip_static, in_world, path_exists, makedirs, copy2,
    write_file, read_file, fault, store, gets, set_result, modify, return_, raise, static_path,
    mbind, M_bind, mret, M_ret.
  rewrite Hurl, Hbackup. cbn [default from_option id truthy].
  rewrite Hne, Hbne. cbn [negb world result].
  rewrite (bool_decide_eq_false_2 _ Hno). cbn [negb world result].
  rewrite (bool_decide_eq_false_2 _ Hnob). cbn [negb world result].
  rewrite Hcopy. rewrite bool_decide_eq_true_2 by by eexists.
  repeat first [progress rewrite Hfaults | progress rewrite Hcopy
               | progress cbn beta iota delta [world result files set_files faults]].
  rewrite lookup_insert_eq. rewrite bool_decide_eq_true_2 by by eexists.
  reflexivity.
Qed.

(** A recovery whose sidecar file holds metadata of kind image: what the
    sidecar stage makes of a run of [resolve_image] that returns. *)
Lemma sidecar_image_run (image_path content : string) (d : gmap string value)
    (w : World) (s' : St) :
  files w !! (image_path +:+ ".metadata") = Some content →
  json_loads content = Some (VDict d) →
  d !! "watermark_type" = Some (VStr "image") →
  resolve_image settings (VDict d) (99 # 100) (95 # 100)
    {| world := w; result := <["watermark_type" := VStr "image"]> initial_result |}
    = (s', Returned) →
  extract_watermark settings image_path w = (world s', result s').
Proof.
  intros Hfile Hparse Hkind Hres.
  assert (sidecar_stage settings image_path (start w) = (s', Returned)) as Hrun.
  { unfold sidecar_stage, try_except.
    unfold mbind at 1, M_bind at 1.
    unfold in_world at 1, path_exists at 1, gets at 1. cbn [world start].
    rewrite Hfile. rewrite bool_decide_eq_true_2 by by eexists.
    unfold mbind at 1, M_bind at 1. unfold in_world at 1, read_file at 1.
    cbn [world start]. rewrite Hfile.
    unfold mbind at 1, M_bind at 1. rewrite Hparse. cbn [of_option lift mret M_ret].
    unfold py_get. rewrite Hkind. cbn [default from_option id].
    unfold mbind at 1, M_bind at 1. cbn [mret M_ret is_str].
    change ("image" =? "image")%string with true. cbn iota.
    unfold mbind at 1, M_bind at 1. unfold set_result at 1, modify at 1.
    cbn [world result start]. fold (@py_get St). by rewrite Hres. }
  assert (extract_body settings image_path (start w) = (s', Returned)) as Hbody.
  { unfold extract_body, try_except, mbind, M_bind. by rewrite Hrun. }
  unfold extract_watermark. fold (start w). by rewrite Hbody.
Qed.

Lemma copy_names_no_slash (prefix_ u : string) :
  has_slash prefix_ = false → has_slash u = false →
  has_slash (prefix_ +:+ u +:+ ".png") = false.
Proof. intros Hp Hu. by rewrite !has_slash_app, Hp, Hu. Qed.

(** Embedding a reference image and recovering it compose. An embed that
    returns leaves a display copy under [STATIC_DIR] and a backup under
    [PROCESSED_DIR], named after one identifier; and [extract_watermark] on
    the returned path, in any later world that still has the sidecar file
    and the display copy, answers from the sidecar: detected, of kind
    image, with the locator of the display copy and confidence 0.99. The
    assumptions are that the identifier holds no slash and that the JSON
    library reads back the kind and the two locators it wrote. *)
Theorem embedded_image_is_recovered (image_path : string) (watermark_text : option text)
    (path content : string) (wm_img : ndarray) (alpha : Q)
    (output_path : option string) (w w' later : World) (out : string) :
  path ≠ "" → files w !! path = Some content →
  imdecode_unchanged content = Some wm_img →
  has_slash (entropy w (drawn w)) = false →
  embed_watermark settings image_path watermark_text (Some path) alpha output_path w
    = (w', Next out) →
  (∀ metadata, names_copies w metadata →
     ∃ d, json_loads (json_dump_indent metadata) = Some (VDict d) ∧ names_copies w d) →
  let original := "original_watermark_" +:+ entropy w (drawn w) +:+ ".png" in
  copies_exist settings w w' ∧
  (files later !! (out +:+ ".metadata") = files w' !! (out +:+ ".metadata") →
   file_exists later (path_join (STATIC_DIR settings) original) →
   let answer := extract_watermark settings out later in
   answer.1 = later ∧
   answer.2 !! "detected" = Some (VBool true) ∧
   answer.2 !! "success" = Some (VBool true) ∧
   answer.2 !! "watermark_type" = Some (VStr "image") ∧
   answer.2 !! "watermark_image_url" = Some (VStr ("/static/" +:+ original)) ∧
   answer.2 !! "confidence" = Some (VFloat (99 # 100))).
Proof.
  intros Hpath Hfile Hdec Hid Hrun Hjson original.
  destruct (embed_image_run _ _ _ _ _ _ _ _ _ _ Hpath Hfile Hdec Hrun)
    as (Hcopies & metadata & Hside & Hnames).
  split; [done|]. intros Hkept Hdisplay. cbv zeta.
  destruct (Hjson metadata Hnames) as (d & Hparse & Hk & Hu & _).
  assert (has_slash original = false) as Hname by (by apply copy_names_no_slash).
  rewrite (sidecar_image_run out (json_dump_indent metadata) d later
             {| world := later;
                result := <["message" := VStr msg_original]>
                          (<["confidence" := VFloat (99 # 100)]>
                          (<["success" := VBool true]>
                          (<["detected" := VBool true]>
                          (<["watermark_image_url" := VStr ("/static/" +:+ original)]>
                          (<["watermark_type" := VStr "image"]> initial_result))))) |}).
  - cbn [fst snd world result]. split; [done|]. by simplify_map_eq.
  - by rewrite Hkept.
  - done.
  - done.
  - rewrite (resolve_image_original d ("/static/" +:+ original)); [done|done|done|].
    cbn [world]. by rewrite static_path_name.
Qed.

(** The backup is what saves a lost display copy. After the same embed, in
    a later world that still has the sidecar file and the backup under
    [PROCESSED_DIR] but neither copy under [STATIC_DIR], and in which no
    system call fails, [extract_watermark] copies the backup into
    [STATIC_DIR] and answers with the locator of the backup and confidence
    0.95. *)
Theorem lost_display_copy_is_restored (image_path : string) (watermark_text : option text)
    (path content copy : string) (wm_img : ndarray) (alpha : Q)
    (output_path : option string) (w w' later : World) (out : string) :
  path ≠ "" → files w !! path = Some content →
  imdecode_unchanged content = Some wm_img →
  has_slash (entropy w (drawn w)) = false →
  embed_watermark settings image_path watermark_text (Some path) alpha output_path w
    = (w', Next out) →
  (∀ metadata, names_copies w metadata →
     ∃ d, json_loads (json_dump_indent metadata) = Some (VDict d) ∧ names_copies w d) →
  let original := "original_watermark_" +:+ entropy w (drawn w) +:+ ".png" in
  let backup := "backup_watermark_" +:+ entropy w (drawn w) +:+ ".png" in
  files later !! (out +:+ ".metadata") = files w' !! (out +:+ ".metadata") →
  ¬ file_exists later (path_join (STATIC_DIR settings) original) →
  ¬ file_exists later (path_join (STATIC_DIR settings) backup) →
  files later !! path_join (PROCESSED_DIR settings) backup = Some copy →
  faults later = [] →
  let answer := extract_watermark settings out later in
  files answer.1 = <[path_join (STATIC_DIR settings) backup := copy]> (files later) ∧
  answer.2 !! "detected" = Some (VBool true) ∧
  answer.2 !! "watermark_type" = Some (VStr "image") ∧
  answer.2 !! "watermark_image_url" = Some (VStr ("/static/" +:+ backup)) ∧
  answer.2 !! "confidence" = Some (VFloat (95 # 100)) ∧
  answer.2 !! "message" = Some (VStr msg_backup).
Proof.
  intros Hpath Hfile Hdec Hid Hrun Hjson original backup Hkept Hno Hnob Hcopy Hfaults.
  destruct (embed_image_run _ _ _ _ _ _ _ _ _ _ Hpath Hfile Hdec Hrun)
    as (_ & metadata & Hside & Hnames).
  destruct (Hjson metadata Hnames) as (d & Hparse & Hk & Hu & Hb & _).
  assert (has_slash original = false) as Hname by (by apply copy_names_no_slash).
  assert (has_slash backup = false) as Hbname by (by apply copy_names_no_slash).
  cbv zeta.
  rewrite (sidecar_image_run out (json_dump_indent metadata) d later
             {| world := set_files (λ f, <[static_path settings ("/static/" +:+ backup)
                                            := copy]> f) later;
                result := <["message" := VStr msg_backup]>
                          (<["confidence" := VFloat (95 # 100)]>
                          (<["success" := VBool true]>
                          (<["detected" := VBool true]>
                          (<["watermark_image_url" := VStr ("/static/" +:+ backup)]>
                          (<["watermark_type" := VStr "image"]> initial_result))))) |}).
  - cbn [fst snd world result files set_files]. rewrite static_path_name by done.
    split; [done|]. by simplify_map_eq.
  - by rewrite Hkept.
  - done.
  - done.
  - rewrite (resolve_image_backup d ("/static/" +:+ original) ("/static/" +:+ backup) copy);
      try done; cbn [world].
    + by rewrite static_path_name.
    + by rewrite static_path_name.
    + unfold processed_path. by rewrite strip_static_name.
Qed.
End image_round_trip.

Lemma toy_reads_back_image (fs : list (string * string)) (metadata : gmap string value) :
  names_copies (Toy.world fs []) metadata →
  json_loads (json_dump_indent metadata) = Some (VDict (Toy.dict_of Toy.image_document)) ∧
  names_copies (Toy.world fs []) (Toy.dict_of Toy.image_document).
Proof.
  intros (Hk & Hu & Hb & Ht). split; [|by repeat split].
  cbn [json_loads json_dump_indent Toy.lib].
  unfold Toy.dumps. cbn [omap list_omap]. rewrite Hk, Hu, Hb, Ht.
  reflexivity.
Qed.

Lemma toy_image_embed :
  ∃ w', embed_watermark Toy.settings "/in.png" (Some [104; 105]) (Some "/wm.png")
          (1 # 10) (Some "/out.png")
          (Toy.world [("/in.png", "PNG"); ("/wm.png", "PNG")] [])
        = (w', Next "/out.png") ∧
        files w' !! "/out.png.metadata" = Some (Toy.json_object Toy.image_document).
Proof. eexists. split; vm_compute; reflexivity. Qed.

Lemma embedded_image_is_recovered_witness :
  ∃ w', embed_watermark Toy.settings "/in.png" (Some [104; 105]) (Some "/wm.png")
          (1 # 10) (Some "/out.png")
          (Toy.world [("/in.png", "PNG"); ("/wm.png", "PNG")] [])
        = (w', Next "/out.png") ∧
        (extract_watermark Toy.settings "/out.png" w').2 !! "watermark_image_url"
        = Some (VStr "/static/original_watermark_u0.png").
Proof.
  destruct toy_image_embed as (w' & Hrun & _). exists w'. split; [exact Hrun|].
  destruct (embedded_image_is_recovered Toy.settings "/in.png" (Some [104; 105])
              "/wm.png" "PNG" (Color Toy.carrier) (1 # 10) (Some "/out.png")
              (Toy.world [("/in.png", "PNG"); ("/wm.png", "PNG")] []) w' w' "/out.png")
    as [[Hdisplay _] Hanswer].
  - discriminate.
  - reflexivity.
  - reflexivity.
  - reflexivity.
  - exact Hrun.
  - intros metadata Hnames. eexists. by apply toy_reads_back_image.
  - destruct (Hanswer eq_refl Hdisplay) as (_ & _ & _ & _ & Hurl & _). exact Hurl.
Defined.

Lemma lost_display_copy_is_restored_witness :
  let later := Toy.world
    [("/out.png.metadata", Toy.json_object Toy.image_document);
     ("/srv/processed/backup_watermark_u0.png", "PNG")] [] in
  (extract_watermark Toy.settings "/out.png" later).1.(files)
    !! "/srv/static/backup_watermark_u0.png" = Some "PNG" ∧
  (extract_watermark Toy.settings "/out.png" later).2 !! "watermark_image_url"
    = Some (VStr "/static/backup_watermark_u0.png").
Proof.
  intros later.
  destruct toy_image_embed as (w' & Hrun & Hside).
  destruct (lost_display_copy_is_restored Toy.settings "/in.png" (Some [104; 105])
              "/wm.png" "PNG" "PNG" (Color Toy.carrier) (1 # 10) (Some "/out.png")
              (Toy.world [("/in.png", "PNG"); ("/wm.png", "PNG")] []) w' later "/out.png")
    as (Hfiles & _ & _ & Hurl & _).
  - discriminate.
  - reflexivity.
  - reflexivity.
  - reflexivity.
  - exact Hrun.
  - intros metadata Hnames. eexists. by apply toy_reads_back_image.
  - change ("/out.png" +:+ ".metadata") with "/out.png.metadata". by rewrite Hside.
  - intros [? Hx]. vm_compute in Hx. discriminate.
  - intros [? Hx]. vm_compute in Hx. discriminate.
  - reflexivity.
  - reflexivity.
  - split; [|exact Hurl]. rewrite Hfiles. apply lookup_insert_eq.
Defined.

(** ** The pixels of the watermarked image *)

Lemma np_clip_cell (x : Q) :
  (0 <= (if Qlt_bool x 0 then 0 else if Qlt_bool 255 x then 255 else x) <= 255)%Q.
Proof.
  unfold Qlt_bool.
  destruct (Qle_bool 0 x) eqn:H0; cbn [negb]; [|split; discriminate].
  destruct (Qle_bool x 255) eqn:H1; cbn [negb]; [|split; discriminate].
  apply Qle_bool_iff in H0, H1. done.
Qed.

Lemma py_int_range (q : Q) : (0 <= q <= 255)%Q → 0 ≤ py_int q < 256.
Proof.
  intros [Hlo Hhi]. unfold py_int. destruct q as [n d].
  unfold Qle in *. cbn [Qnum Qden] in *.
  assert (0 ≤ n) by lia. assert (n ≤ 255 * Z.pos d) by lia.
  split; [apply Z.quot_pos; lia|].
  apply Z.quot_lt_upper_bound; lia.
Qed.

Lemma blend_cell_range (r o : Q) :
  (0 <= r <= 255)%Q → (0 <= o <= 255)%Q →
  0 ≤ py_int (blend_factor * r + (1 - blend_factor) * o)%Q < 256.
Proof.
  intros Hr Ho. apply py_int_range. unfold blend_factor. split; lra.
Qed.

(** The watermarked image is an 8-bit image whatever the inverse transform
    and the resize give: the reconstruction is clipped to [0, 255] before
    it is blended with the original channel, so the cast to [uint8] of
    line 294 never wraps, and every component of the image that is written
    is a [uint8]. *)
Theorem watermarked_pixels_are_bytes (pixels : list (list (list Z)))
    (reconstructed : list (list Q)) (blended_channel : list (list Z))
    (watermarked_img : ndarray) :
  uint8_pixels pixels →
  blend (np_clip reconstructed) (blue_channel pixels) = Ok blended_channel →
  set_blue pixels blended_channel = Ok watermarked_img →
  uint8_matrix blended_channel ∧
  ∃ out, watermarked_img = Color out ∧ uint8_pixels out.
Proof.
  intros Hpx Hblend Hset.
  assert (uint8_matrix blended_channel) as Hch.
  { unfold blend in Hblend. destruct (same_shape _ _); [|done].
    injection Hblend as <-. unfold uint8_matrix.
    apply Forall_forall. intros row Hrow.
    apply elem_of_zip_with in Hrow as (rs & os & -> & Hrs & Hos).
    apply Forall_forall. intros v Hv.
    apply elem_of_zip_with in Hv as (r & o & -> & Hr & Ho).
    apply blend_cell_range.
    - unfold np_clip in Hrs. apply list_elem_of_fmap in Hrs as (rs0 & -> & _).
      apply list_elem_of_fmap in Hr as (x & -> & _). apply np_clip_cell.
    - unfold blue_channel in Hos. apply list_elem_of_fmap in Hos as (prow & -> & Hprow).
      apply list_elem_of_fmap in Ho as (px & -> & Hpx0).
      unfold uint8_pixels in Hpx. rewrite Forall_forall in Hpx.
      specialize (Hpx _ Hprow). rewrite Forall_forall in Hpx.
      specialize (Hpx _ Hpx0).
      destruct px as [|b px]; cbn [lookup list_lookup default from_option id].
      + split; [apply Qle_refl|discriminate].
      + apply Forall_cons in Hpx as [Hb _].
        split; unfold Qle; cbn [Qnum Qden inject_Z]; lia. }
  split; [done|].
  unfold set_blue in Hset. destruct (same_shape _ _); [|done].
  injection Hset as <-. eexists. split; [reflexivity|].
  unfold uint8_pixels. apply Forall_forall. intros row Hrow.
  apply elem_of_zip_with in Hrow as (prow & crow & -> & Hprow & Hcrow).
  apply Forall_forall. intros px' Hpx'.
  apply elem_of_zip_with in Hpx' as (px & v & -> & Hpx0 & Hv).
  unfold uint8_pixels in Hpx. rewrite Forall_forall in Hpx.
  specialize (Hpx _ Hprow). rewrite Forall_forall in Hpx. specialize (Hpx _ Hpx0).
  unfold uint8_matrix in Hch. rewrite Forall_forall in Hch.
  specialize (Hch _ Hcrow). rewrite Forall_forall in Hch. specialize (Hch _ Hv).
  apply Forall_insert; done.
Qed.

Lemma watermarked_pixels_are_bytes_witness :
  uint8_matrix [[218; 1]] ∧
  ∃ out, Color [[[218; 20; 30]; [1; 0; 255]]] = Color out ∧ uint8_pixels out.
Proof.
  apply (watermarked_pixels_are_bytes [[[10; 20; 30]; [7; 0; 255]]] [[300%Q; (-4)%Q]]).
  - unfold uint8_pixels. repeat constructor; lia.
  - reflexivity.
  - reflexivity.
Defined.

(** ** A text embedded beside a reference image that does not decode *)

Section retagged.
Context {L : Lib} (settings : Settings).

Lemma prepare_fallback_wp (watermark_text : option text) (path content : string)
    (max_size : Z) (Q : World → outcome (list (list Z) * gmap string value) → Prop)
    (w : World) :
  path ≠ "" → files w !! path = Some content →
  imdecode_unchanged content = None →
  wp (lift (prepare_text_or_none watermark_text max_size)) Q w →
  wp (prepare_watermark_data settings watermark_text (Some path) max_size) Q w.
Proof.
  intros Hpath Hfile Hdec. unfold wp.
  by rewrite (prepare_fallback settings _ _ _ _ _ Hpath Hfile Hdec).
Qed.

Lemma watermarked_image_retagged (image_path : string) (t : text)
    (path content : string) (w : World) :
  path ≠ "" → files w !! path = Some content →
  imdecode_unchanged content = None →
  wp (watermarked_image settings image_path (Some t) (Some path))
     (λ w' o, match o with
              | Next computed =>
                  w' = w ∧
                  ∃ text_bytes,
                    utf8_encode t = Ok text_bytes ∧
                    computed.2 !! "watermark_type" = Some (VStr "image") ∧
                    computed.2 !! "watermark_text"
                      = Some (VStr (string_of_bytes text_bytes)) ∧
                    computed.2 !! "watermark_image_url" = None ∧
                    computed.2 !! "backup_image_url" = None
              | Returned => False
              | Raised _ => w' = w
              end) w.
Proof.
  intros Hpath Hfile Hdec. unfold watermarked_image. cbv zeta.
  cbn [default from_option id].
  pose proof Hpath as Hne. apply String.eqb_neq in Hne. rewrite Hne. cbn [negb].
  apply wp_bind, wp_gets. rewrite Hfile.
  rewrite bool_decide_eq_true_2 by by eexists.
  lazy beta iota.
  repeat (wp_step; lazy beta iota); try done.
  all: apply (prepare_fallback_wp _ _ content); [done..|].
  all: unfold prepare_text_or_none.
  all: wp_run; try done.
  all: split; [done|].
  all: destruct (utf8_encode t) as [text_bytes|] eqn:Henc; [|done];
    cbn [mbind res_bind] in *.
  all: destruct (text_matrix t 32) as [watermark|] eqn:Hm; [|done];
    cbn [mbind res_bind] in *.
  all: simplify_eq; cbn [fst snd].
  all: exists text_bytes; split; [done|].
  all: rewrite confirm_type_image; by simplify_map_eq.
Qed.

Lemma embed_retagged_run (image_path : string) (t : text) (path content : string)
    (alpha : Q) (output_path : option string) (w w' : World) (out : string) :
  path ≠ "" → files w !! path = Some content →
  imdecode_unchanged content = None →
  embed_watermark settings image_path (Some t) (Some path) alpha output_path w
    = (w', Next out) →
  ∃ text_bytes metadata,
    utf8_encode t = Ok text_bytes ∧
    files w' !! (out +:+ ".metadata") = Some (json_dump_indent metadata) ∧
    metadata !! "watermark_type" = Some (VStr "image") ∧
    metadata !! "watermark_text" = Some (VStr (string_of_bytes text_bytes)) ∧
    metadata !! "watermark_image_url" = None ∧
    metadata !! "backup_image_url" = None.
Proof.
  intros Hpath Hfile Hdec.
  unfold embed_watermark, try_except, mbind, M_bind.
  pose proof (watermarked_image_retagged image_path t path content w Hpath Hfile Hdec)
    as Himg. unfold wp in Himg.
  destruct (watermarked_image _ _ _ _ w) as [w1 [computed| |e]]; [|done..].
  cbn [fst snd] in Himg.
  destruct Himg as (-> & text_bytes & Henc & Hkind & Htext & Hurl & Hbackup).
  destruct (choose_output settings output_path w) as [w2 [chosen| |e]]; [|done..].
  destruct (imwrite chosen computed.1.1 w2) as [w3 [saved| |e]] eqn:Hsave; [|done..].
  unfold gets.
  set (metadata := final_metadata computed.2 computed.1.2 (now w3)).
  destruct (persist_metadata metadata chosen w3) as [w4 [[]| |e]] eqn:Hpersist; [|done..].
  apply persist_metadata_frame in Hpersist as [Hsidecar _].
  unfold mret, M_ret. intros [= <- <-].
  exists text_bytes, metadata. split; [done|]. split; [done|].
  subst metadata. unfold final_metadata. by simplify_map_eq.
Qed.

Lemma sidecar_image_no_locator (image_path content : string) (d : gmap string value)
    (w : World) :
  files w !! (image_path +:+ ".metadata") = Some content →
  json_loads content = Some (VDict d) →
  d !! "watermark_type" = Some (VStr "image") →
  d !! "watermark_image_url" = None →
  after_sidecar settings image_path w
    = ({| world := w;
          result := <["watermark_type" := VStr "image"]> initial_result |}, Next tt).
Proof.
  intros Hfile Hparse Hkind Hurl.
  unfold after_sidecar, sidecar_stage, try_except.
  unfold mbind at 1, M_bind at 1.
  unfold in_world at 1, path_exists at 1, gets at 1. cbn [world start].
  rewrite Hfile. rewrite bool_decide_eq_true_2 by by eexists.
  unfold mbind at 1, M_bind at 1. unfold in_world at 1, read_file at 1.
  cbn [world start]. rewrite Hfile.
  unfold mbind at 1, M_bind at 1. rewrite Hparse. cbn [of_option lift mret M_ret].
  unfold py_get. rewrite Hkind. cbn [default from_option id].
  unfold mbind at 1, M_bind at 1. cbn [mret M_ret is_str].
  change ("image" =? "image")%string with true. cbn iota.
  unfold mbind at 1, M_bind at 1. unfold set_result at 1, modify at 1.
  by rewrite resolve_image_no_locator.
Qed.

(** A text embedded beside a reference image that exists and does not
    decode is stored under the wrong kind. The encoder falls back to the
    text (line 59), but [embed_watermark] tags the metadata by the
    existence of the reference path alone (lines 184-186 and 209-210): the
    sidecar file holds the text under kind image, with no locator. When
    [extract_watermark] reads that sidecar file back it takes the image
    branch, finds no locator and goes on to the trailer with no answer:
    the text of the sidecar file is never looked at. *)
Theorem undecodable_reference_hides_text (image_path : string) (t : text)
    (path content : string) (alpha : Q) (output_path : option string)
    (w w' later : World) (out : string) :
  path ≠ "" → files w !! path = Some content →
  imdecode_unchanged content = None →
  embed_watermark settings image_path (Some t) (Some path) alpha output_path w
    = (w', Next out) →
  files later !! (out +:+ ".metadata") = files w' !! (out +:+ ".metadata") →
  (∀ metadata text_bytes,
     utf8_encode t = Ok text_bytes →
     metadata !! "watermark_type" = Some (VStr "image") →
     metadata !! "watermark_text" = Some (VStr (string_of_bytes text_bytes)) →
     metadata !! "watermark_image_url" = None →
     metadata !! "backup_image_url" = None →
     ∃ d, json_loads (json_dump_indent metadata) = Some (VDict d) ∧
          d !! "watermark_type" = Some (VStr "image") ∧
          d !! "watermark_text" = Some (VStr (string_of_bytes text_bytes)) ∧
          d !! "watermark_image_url" = None) →
  ∃ text_bytes metadata d,
    utf8_encode t = Ok text_bytes ∧
    files w' !! (out +:+ ".metadata") = Some (json_dump_indent metadata) ∧
    metadata !! "watermark_type" = Some (VStr "image") ∧
    metadata !! "watermark_text" = Some (VStr (string_of_bytes text_bytes)) ∧
    json_loads (json_dump_indent metadata) = Some (VDict d) ∧
    d !! "watermark_text" = Some (VStr (string_of_bytes text_bytes)) ∧
    after_sidecar settings out later
      = ({| world := later;
            result := <["watermark_type" := VStr "image"]> initial_result |}, Next tt).
Proof.
  intros Hpath Hfile Hdec Hrun Hkept Hjson.
  destruct (embed_retagged_run _ _ _ _ _ _ _ _ _ Hpath Hfile Hdec Hrun)
    as (text_bytes & metadata & Henc & Hside & Hkind & Htext & Hurl & Hbackup).
  destruct (Hjson metadata _ Henc Hkind Htext Hurl Hbackup)
    as (d & Hparse & Hdk & Hdt & Hdu).
  exists text_bytes, metadata, d. do 6 (split; [done|]).
  apply (sidecar_image_no_locator out (json_dump_indent metadata) d);
    [by rewrite Hkept|done..].
Qed.
End retagged.

Lemma toy_reads_back_retagged (metadata : gmap string value) :
  metadata !! "watermark_type" = Some (VStr "image") →
  metadata !! "watermark_text" = Some (VStr "hi") →
  metadata !! "watermark_image_url" = None →
  metadata !! "backup_image_url" = None →
  @json_loads ToyBackup.lib (@json_dump_indent ToyBackup.lib metadata)
  = Some (VDict (Toy.dict_of ToyBackup.retagged_document)).
Proof.
  intros Hk Ht Hu Hb. cbn [json_loads json_dump_indent ToyBackup.lib].
  unfold Toy.dumps. cbn [omap list_omap]. rewrite Hk, Ht, Hu, Hb.
  reflexivity.
Qed.

Lemma toy_retagged_embed :
  ∃ w', @embed_watermark ToyBackup.lib Toy.settings "/in.png" (Some [104; 105])
          (Some "/mark.jpg") (1 # 10) (Some "/out.png")
          (Toy.world [("/in.png", "PNG"); ("/mark.jpg", "JPG")] [])
        = (w', Next "/out.png").
Proof. eexists. vm_compute. reflexivity. Qed.

Lemma undecodable_reference_hides_text_witness :
  ∃ w', @embed_watermark ToyBackup.lib Toy.settings "/in.png" (Some [104; 105])
          (Some "/mark.jpg") (1 # 10) (Some "/out.png")
          (Toy.world [("/in.png", "PNG"); ("/mark.jpg", "JPG")] [])
        = (w', Next "/out.png") ∧
        (@after_sidecar ToyBackup.lib Toy.settings "/out.png" w').2 = Next tt.
Proof.
  destruct toy_retagged_embed as [w' Hrun]. exists w'. split; [exact Hrun|].
  destruct (@undecodable_reference_hides_text ToyBackup.lib Toy.settings
              "/in.png" [104; 105] "/mark.jpg" "JPG" (1 # 10) (Some "/out.png")
              (Toy.world [("/in.png", "PNG"); ("/mark.jpg", "JPG")] []) w' w' "/out.png") as (tb & md & d & _ & _ & _ & _ & _ & _ & Hside).
  - discriminate.
  - reflexivity.
  - reflexivity.
  - exact Hrun.
  - reflexivity.
  - intros metadata text_bytes [= <-] Hk Ht Hu Hb.
    exists (Toy.dict_of ToyBackup.retagged_document).
    split; [by apply toy_reads_back_retagged|]. repeat split; reflexivity.
  - by rewrite Hside.
Defined.

(** ** The order of the sources *)

Section order.
Context {L : Lib} (settings : Settings).

Lemma resolve_image_backup_static (d : gmap string value) (url backup : string)
    (c1 c2 : Q) (s : St) :
  d !! "watermark_image_url" = Some (VStr url) → url ≠ "" →
  d !! "backup_image_url" = Some (VStr backup) → backup ≠ "" →
  ¬ file_exists (world s) (static_path settings url) →
  file_exists (world s) (static_path settings backup) →
  (resolve_image settings (VDict d) c1 c2 s).2 = Returned.
Proof.
  intros Hurl Hne Hbackup Hbne Hno Hyes.
  apply String.eqb_neq in Hne, Hbne.
  unfold file_exists, static_path in Hno, Hyes.
  unfold resolve_image, py_get, strip_static, in_world, path_exists, gets,
    set_result, modify, return_, mbind, M_bind, mret, M_ret.
  rewrite Hurl, Hbackup. cbn [default from_option id truthy].
  rewrite Hne, Hbne. cbn [negb world result].
  rewrite (bool_decide_eq_false_2 _ Hno). cbn [negb world result].
  rewrite !(bool_decide_eq_true_2 _ Hyes). cbn [negb world result].
  rewrite !(bool_decide_eq_true_2 _ Hyes). reflexivity.
Qed.

(** Metadata that leads to a display copy ends the recovery. *)
Lemma resolve_image_locates (d : gmap string value) (c1 c2 : Q) (s : St) :
  locates settings d (world s) →
  (resolve_image settings (VDict d) c1 c2 s).2 = Returned.
Proof.
  intros (url & Hurl & Hne & Hcopy).
  destruct (decide (file_exists (world s) (static_path settings url))) as [Hyes|Hno].
  { by rewrite (resolve_image_original settings d url c1 c2 s Hurl Hne Hyes). }
  destruct Hcopy as [Hyes|(backup & Hbackup & Hbne & Hcopy)]; [done|].
  destruct (decide (file_exists (world s) (static_path settings backup))) as [Hb|Hnob].
  { by apply (resolve_image_backup_static d url backup). }
  destruct Hcopy as [Hb|[[copy Hcopy] Hfaults]]; [done|].
  by rewrite (resolve_image_backup settings d url backup copy c1 c2 s).
Qed.

Lemma sidecar_stage_usable (image_path : string) (s : St) :
  sidecar_usable settings image_path (world s) →
  (sidecar_stage settings image_path s).2 = Returned.
Proof.
  intros (d & Hmeta & Huse). unfold sidecar_metadata in Hmeta.
  destruct (files (world s) !! (image_path +:+ ".metadata")) as [content|] eqn:Hfile;
    [|done].
  cbn [mbind option_bind] in Hmeta.
  unfold sidecar_stage, try_except.
  unfold mbind at 1, M_bind at 1.
  unfold in_world at 1, path_exists at 1, gets at 1.
  rewrite Hfile. rewrite bool_decide_eq_true_2 by by eexists.
  unfold mbind at 1, M_bind at 1. unfold in_world at 1, read_file at 1.
  cbn [world]. rewrite Hfile.
  unfold mbind at 1, M_bind at 1. rewrite Hmeta. cbn [of_option lift mret M_ret].
  unfold py_get.
  destruct Huse as [Hkind|[Hkind Hloc]]; rewrite Hkind; cbn [default from_option id].
  - unfold mbind at 1, M_bind at 1. cbn [mret M_ret is_str].
    change ("text" =? "image")%string with false. cbn iota.
    unfold mbind, M_bind, mret, M_ret, set_result, modify, return_.
    cbn [is_str]. change ("text" =? "text")%string with true. reflexivity.
  - fold (@py_get St). unfold mbind at 1, M_bind at 1. cbn [mret M_ret is_str].
    change ("image" =? "image")%string with true. cbn iota.
    unfold mbind at 1, M_bind at 1. unfold set_result at 1, modify at 1.
    pose proof (resolve_image_locates d (99 # 100) (95 # 100)
                  {| world := world s;
                     result := <["watermark_type" := VStr "image"]> (result s) |} Hloc)
      as Hres.
    cbn [world result] in *.
    destruct (resolve_image settings (VDict d) (99 # 100) (95 # 100) _) as [s' o].
    cbn [snd] in Hres. by subst o.
Qed.

Lemma untagged_trailer_usable (d : gmap string value) (s : St) :
  untagged_usable settings d (world s) →
  (untagged_trailer settings (VDict d) s).2 = Returned.
Proof.
  intros (_ & _ & [(url & Hurl & Hfile)|(Hurl & v & Htext & Htruthy)]).
  - unfold file_exists, static_path in Hfile.
    unfold untagged_trailer, py_in, py_item, strip_static, in_world, path_exists, gets,
      set_result, modify, return_, mbind, M_bind, mret, M_ret.
    rewrite Hurl. rewrite bool_decide_eq_true_2 by by eexists.
    cbn [world result]. by rewrite (bool_decide_eq_true_2 _ Hfile).
  - unfold untagged_trailer, py_in, py_item, set_result, modify, return_,
      mbind, M_bind, mret, M_ret.
    rewrite Hurl, Htext.
    rewrite bool_decide_eq_false_2 by (by intros [? ?]).
    rewrite bool_decide_eq_true_2 by by eexists.
    cbn [andb]. by rewrite Htruthy.
Qed.

Lemma trailer_stage_usable (image_path : string) (s : St) :
  trailer_usable settings image_path (world s) →
  (trailer_stage settings image_path s).2 = Returned.
Proof.
  intros (d & Hmeta & Huse). unfold trailer_metadata in Hmeta.
  destruct (files (world s) !! image_path) as [content|] eqn:Hfile; [|done].
  cbn [mbind option_bind] in Hmeta. cbv zeta in Hmeta.
  destruct (0 <? bytes_find content trailer_marker) eqn:Hpos; [|done].
  unfold trailer_stage, try_except.
  unfold mbind at 1, M_bind at 1. unfold in_world at 1, read_file at 1.
  rewrite Hfile. cbv zeta. rewrite Hpos.
  unfold mbind at 1, M_bind at 1. rewrite Hmeta. cbn [of_option lift mret M_ret].
  unfold py_get.
  destruct Huse as [[Hkind|[Hkind Hloc]]|Hun].
  - rewrite Hkind. cbn [default from_option id].
    unfold mbind at 1, M_bind at 1. cbn [mret M_ret is_str].
    change ("text" =? "image")%string with false. cbn iota.
    unfold mbind, M_bind, mret, M_ret, set_result, modify, return_.
    cbn [is_str]. change ("text" =? "text")%string with true. reflexivity.
  - rewrite Hkind. cbn [default from_option id]. fold (@py_get St).
    unfold mbind at 1, M_bind at 1. cbn [mret M_ret is_str].
    change ("image" =? "image")%string with true. cbn iota.
    unfold mbind at 1, M_bind at 1. unfold set_result at 1, modify at 1.
    pose proof (resolve_image_locates d (95 # 100) (9 # 10)
                  {| world := world s;
                     result := <["watermark_type" := VStr "image"]> (result s) |} Hloc)
      as Hres.
    cbn [world result] in *.
    destruct (resolve_image settings (VDict d) (95 # 100) (9 # 10) _) as [s' o].
    cbn [snd] in Hres. by subst o.
  - pose proof Hun as (Hni & Hnt & _).
    assert (is_str (default VNone (d !! "watermark_type")) "image" = false) as Hi.
    { destruct (is_str _ "image") eqn:E; [|done].
      by apply is_str_true_eq in E. }
    assert (is_str (default VNone (d !! "watermark_type")) "text" = false) as Ht.
    { destruct (is_str _ "text") eqn:E; [|done].
      by apply is_str_true_eq in E. }
    unfold mbind at 1, M_bind at 1. cbn [mret M_ret]. rewrite Hi.
    unfold mbind at 1, M_bind at 1. cbn [mret M_ret]. rewrite Ht.
    pose proof (untagged_trailer_usable d {| world := world s; result := result s |} Hun)
      as Hres.
    destruct (untagged_trailer settings (VDict d) _) as [s' o].
    cbn [snd] in Hres. by subst o.
Qed.

(** C2, amended. The sources are consulted in strict order and the first
    that answers wins: the sidecar file, then the trailer, then the blind
    extraction. An answer of the sidecar has confidence 0.99, or 0.95
    when only the backup display copy resolves. An answer of the trailer
    has confidence 0.95, or 0.90 when only the backup copy resolves or
    when the trailer metadata carries neither the tag image nor the tag
    text (and holds an image locator that resolves or a non-empty text).
    And the sources do answer: a sidecar file with usable metadata (tagged
    text, or tagged image with a display copy or a backup to be found)
    ends the recovery at the sidecar; and, the sidecar not having
    answered, a trailer with usable metadata (the same, or metadata with no
    tag that holds a locator whose file is in place or, having no locator,
    a non-empty text) ends it at the trailer. *)
Theorem recovery_order_and_confidence (image_path : string) (w : World) :
  let run1 := after_sidecar settings image_path w in
  let run2 := after_trailer settings image_path w in
  let run3 := after_blind settings image_path w in
  let answer := extract_watermark settings image_path w in
  match run1.2 with
  | Returned =>
      answer = (world run1.1, result run1.1) ∧
      sidecar_hit settings image_path w run1.1 ∧
      ∃ metadata,
        sidecar_metadata w image_path = Some metadata ∧
        (detected_with (99 # 100) (result run1.1) ∨
         (detected_with (95 # 100) (result run1.1) ∧
          backup_only settings metadata w run1.1))
  | _ =>
      match run2.2 with
      | Returned =>
          answer = (world run2.1, result run2.1) ∧
          trailer_hit settings image_path (world run1.1) run2.1 ∧
          ∃ metadata,
            trailer_metadata (world run1.1) image_path = Some metadata ∧
            (detected_with (95 # 100) (result run2.1) ∨
             (detected_with (9 # 10) (result run2.1) ∧
              (backup_only settings metadata (world run1.1) run2.1 ∨
               untagged metadata)))
      | _ =>
          match run3.2 with
          | Returned => answer = (world run3.1, result run3.1)
          | Raised e =>
              answer = (world run3.1,
                        <["message" := VStr (msg_failed +:+ e)]>
                          (<["success" := VBool false]> (result run2.1)))
          | Next _ => False
          end
      end
  end ∧
  (sidecar_usable settings image_path w → run1.2 = Returned) ∧
  (run1.2 ≠ Returned →
   trailer_usable settings image_path (world run1.1) → run2.2 = Returned).
Proof.
  cbv zeta. split; [|split].
  2: { intros Huse. by apply sidecar_stage_usable. }
  2: { intros _ Huse. by apply trailer_stage_usable. }
  pose proof (extract_watermark_cases settings image_path w) as [_ Hcases].
  cbn zeta in *.
  assert (∀ w1 s', trailer_hit settings image_path w1 s' →
    ∃ metadata,
      trailer_metadata w1 image_path = Some metadata ∧
      (detected_with (95 # 100) (result s') ∨
       (detected_with (9 # 10) (result s') ∧
        (backup_only settings metadata w1 s' ∨ untagged metadata)))) as Htrail.
  { intros w1 s' (md & Hmd & [Hhit|Hhit]); exists md; (split; [done|]).
    - destruct (tagged_hit_cases _ _ _ _ _ _ _ Hhit) as [Hd|[Hd|[Hd Hb]]];
        [by left|by left|right; split; [done|by left]].
    - destruct (untagged_hit_cases _ _ _ _ Hhit) as [Hd Hu].
      right. split; [done|by right]. }
  destruct ((after_sidecar settings image_path w).2) as [[]| |e1].
  2: { destruct Hcases as [Hans Hhit]. split; [done|]. split; [done|].
       destruct Hhit as (md & Hmd & Hhit). exists md. split; [done|].
       destruct (tagged_hit_cases _ _ _ _ _ _ _ Hhit) as [Hd|[Hd|[Hd Hb]]];
         [by left|by left|by right]. }
  all: destruct Hcases as [Hp1 Hcases];
    destruct ((after_trailer settings image_path w).2) as [[]| |e2].
  all: try (destruct Hcases as [Hans Hhit]; split; [done|]; split; [done|];
            by apply Htrail).
  all: destruct Hcases as [Hp2 Hcases];
    destruct ((after_blind settings image_path w).2) as [[]| |e3]; try done.
  all: by destruct Hcases as [Hans _].
Qed.
End order.

Lemma recovery_order_and_confidence_witness :
  let w := Toy.world
    [("/in.png", "PNG" +:+ trailer_marker +:+ Toy.json_object Toy.untagged_document);
     ("/in.png.metadata", Toy.json_object Toy.text_document)] [] in
  (after_sidecar Toy.settings "/in.png" w).2 = Returned ∧
  extract_watermark Toy.settings "/in.png" w
    = (world (after_sidecar Toy.settings "/in.png" w).1,
       result (after_sidecar Toy.settings "/in.png" w).1) ∧
  (extract_watermark Toy.settings "/in.png" w).2 !! "confidence"
    = Some (VFloat (99 # 100)).
Proof.
  intros w.
  destruct (recovery_order_and_confidence Toy.settings "/in.png" w)
    as (Horder & Hsidecar & _).
  assert ((after_sidecar Toy.settings "/in.png" w).2 = Returned) as Hrun.
  { apply Hsidecar. exists (Toy.dict_of Toy.text_document).
    split; [reflexivity|]. left. reflexivity. }
  rewrite Hrun in Horder.
  destruct Horder as (Hanswer & _ & md & Hmd & Hconf).
  split; [exact Hrun|]. split; [exact Hanswer|].
  rewrite Hanswer. cbn [snd].
  destruct Hconf as [(_ & _ & _ & Hc)|[_ (d & url & b & Hd & Hkind & _)]];
    [exact Hc|].
  exfalso. vm_compute in Hmd. injection Hmd as <-. injection Hd as <-.
  vm_compute in Hkind. discriminate.
Defined.
